(** * FormFiller-Web: schema extraction, validation, session state machine, fill engine

    A shallow embedding of the algorithmic core of the repository:
    - [backend/services/ocrService.js]: [detectFormFields],
      [findCoordinatesForLabel], [extractPDFFormFields], [processForm],
      [validateFieldValue];
    - [backend/utils/sessionStore.js]: the in-memory [SessionStore];
    - [backend/routes/formRoutes.js]: the [POST /chat] handler;
    - [backend/services/pdfService.js]: [fillInteractivePDFForm],
      [fillScannedForm], [generateFilledPDF].

    Conventions.  A JavaScript string is a sequence of UTF-16 code units; the
    development covers the strings whose code units are below 256 (Basic
    Latin and Latin-1 Supplement), an [ascii] standing for the code unit of
    the same number.  Exceptions are values of [result].  JavaScript numbers
    that hold counts and indices are [nat]; pixel coordinates are [Z]; page
    geometry is computed in [Q], i.e. with exact arithmetic in place of
    IEEE-754 doubles. *)

From Stdlib Require Import Ascii String List Bool Arith ZArith QArith Lia.
From Stdlib Require Import DecimalString DecimalNat FinFun Lqa.
From stdpp Require Import gmap strings.
Import ListNotations.

Local Open Scope string_scope.
Local Open Scope list_scope.
Local Open Scope nat_scope.

(* ===================================================================== *)
(** * JavaScript strings and exceptions *)
(* ===================================================================== *)

Module Js.

(** Thrown values: the engine's own [TypeError]s and the [new Error(msg)]
    of the source. *)
Inductive exn :=
| TypeError (msg : string)
| Error (msg : string).

Inductive result (A : Type) :=
| Ok (a : A)
| Throw (e : exn).
Arguments Ok {A} a.
Arguments Throw {A} e.

Definition bind {A B} (m : result A) (f : A -> result B) : result B :=
  match m with
  | Ok a => f a
  | Throw e => Throw e
  end.

Definition code (c : ascii) : nat := nat_of_ascii c.

Definition between (lo hi : nat) (c : ascii) : bool :=
  (lo <=? code c) && (code c <=? hi).

(** [\d] *)
Definition isDigit (c : ascii) : bool := between 48 57 c.

Definition isUpperAZ (c : ascii) : bool := between 65 90 c.
Definition isLowerAZ (c : ascii) : bool := between 97 122 c.

(** [\w] : [A-Za-z0-9_] *)
Definition isWordChar (c : ascii) : bool :=
  isUpperAZ c || isLowerAZ c || isDigit c || (code c =? 95).

(** [\s], and what [String.prototype.trim] strips: WhiteSpace and
    LineTerminator.  Below 256 these are TAB, LF, VT, FF, CR, SP, NBSP. *)
Definition isWhiteSpace (c : ascii) : bool :=
  between 9 13 c || (code c =? 32) || (code c =? 160).

(** [toLowerCase] on one code unit: A-Z, and the Latin-1 capitals
    U+00C0..U+00DE except the multiplication sign U+00D7. *)
Definition lowerChar (c : ascii) : ascii :=
  if isUpperAZ c || (between 192 222 c && negb (code c =? 215))
  then ascii_of_nat (code c + 32) else c.

(** Canonicalize of a case-insensitive regular expression without the
    [u] flag: the code unit is upper-cased, but a code unit at or above
    128 is never identified with one below 128; on the patterns of this
    program (Basic Latin letters only) this is upper-casing a-z. *)
Definition canon (c : ascii) : ascii :=
  if isLowerAZ c then ascii_of_nat (code c - 32) else c.

Definition chars (s : string) : list ascii := list_ascii_of_string s.
Definition str (l : list ascii) : string := string_of_list_ascii l.

Definition toLowerCase (s : string) : string := str (map lowerChar (chars s)).

(** [toUpperCase] of a one-unit string, as used by [charAt(0).toUpperCase()].
    U+00DF upper-cases to "SS"; the upper-case forms of U+00B5 and U+00FF
    lie above 255 and are left as they are here. *)
Definition upperFirst (c : ascii) : list ascii :=
  if isLowerAZ c || (between 224 254 c && negb (code c =? 247))
  then [ascii_of_nat (code c - 32)]
  else if code c =? 223 then ["S"%char; "S"%char]
  else [c].

Fixpoint dropWhile (p : ascii -> bool) (l : list ascii) : list ascii :=
  match l with
  | [] => []
  | c :: l' => if p c then dropWhile p l' else l
  end.

Definition trimChars (l : list ascii) : list ascii :=
  rev (dropWhile isWhiteSpace (rev (dropWhile isWhiteSpace l))).

(** [String.prototype.trim] *)
Definition trim (s : string) : string := str (trimChars (chars s)).

(** [s.split(sep)] for a one-unit string separator. *)
Fixpoint splitOnChar (sep : ascii) (cur : list ascii) (l : list ascii)
  : list (list ascii) :=
  match l with
  | [] => [rev cur]
  | c :: l' =>
      if Ascii.eqb c sep then rev cur :: splitOnChar sep [] l'
      else splitOnChar sep (c :: cur) l'
  end.

Definition LF : ascii := "010"%char.

Definition splitLines (s : string) : list string :=
  map str (splitOnChar LF [] (chars s)).

Fixpoint isPrefix (p l : list ascii) : bool :=
  match p, l with
  | [], _ => true
  | _ :: _, [] => false
  | a :: p', b :: l' => Ascii.eqb a b && isPrefix p' l'
  end.

Fixpoint includesChars (l p : list ascii) : bool :=
  isPrefix p l ||
  match l with
  | [] => false
  | _ :: l' => includesChars l' p
  end.

(** [s.includes(p)] *)
Definition includes (s p : string) : bool := includesChars (chars s) (chars p).

(** [arr.join(' ')] *)
Fixpoint join (sep : string) (l : list string) : string :=
  match l with
  | [] => ""
  | [x] => x
  | x :: l' => x +:+ sep +:+ join sep l'
  end.

(** Decimal rendering of a number inside a template literal. *)
Definition showNat (n : nat) : string := NilEmpty.string_of_uint (Nat.to_uint n).

(** Truthiness of a string value: [!value] holds of the empty string. *)
Definition truthy (s : string) : bool := negb (String.eqb s "").

End Js.

Import Js.

(* ===================================================================== *)
(** * Regular expressions: a backtracking matcher *)
(* ===================================================================== *)

Module Regex.

(** The fragment of ECMAScript patterns the program uses: character
    sets, concatenation, ordered alternation, greedy repetition and the
    assertions [^], [$] (no [m] flag) and [\b]. *)
Inductive regex :=
| Eps
| Chr (p : ascii -> bool)
| Seq (a b : regex)
| Alt (a b : regex)
| Star (a : regex)
| Bol
| Eol
| WordB.

(** A position in the subject: the units before it (nearest first) and
    the units from it on. *)
Definition input : Type := list ascii * list ascii.

Definition isWordAt (o : option ascii) : bool :=
  match o with
  | Some c => isWordChar c
  | None => false
  end.

(** The loop of a greedy repetition: [step] matches the body once, [k]
    is what follows the repetition.  One more iteration is tried
    before stopping, and an iteration that consumes nothing is refused,
    as in the RepeatMatcher of the language definition; [n] bounds the
    number of iterations by the units that remain. *)
Fixpoint starLoop {A : Type} (step : input -> (input -> option A) -> option A)
  (k : input -> option A) (n : nat) (i : input) {struct n} : option A :=
  match n with
  | 0 => k i
  | S n' =>
      match step i (fun j =>
               if List.length (snd j) <? List.length (snd i)
               then starLoop step k n' j else None) with
      | Some x => Some x
      | None => k i
      end
  end.

(** Backtracking matcher in continuation-passing style: alternatives
    are tried left to right, the continuation deciding whether a way of
    matching is kept. *)
Fixpoint run {A : Type} (r : regex) (i : input) (k : input -> option A)
  {struct r} : option A :=
  match r with
  | Eps => k i
  | Chr p =>
      match snd i with
      | c :: s => if p c then k (c :: fst i, s) else None
      | [] => None
      end
  | Seq a b => run a i (fun j => run b j k)
  | Alt a b =>
      match run a i k with
      | Some x => Some x
      | None => run b i k
      end
  | Star a =>
      starLoop (fun i' k' => run a i' k') k (S (List.length (snd i))) i
  | Bol => match fst i with [] => k i | _ :: _ => None end
  | Eol => match snd i with [] => k i | _ :: _ => None end
  | WordB =>
      if xorb (isWordAt (hd_error (fst i))) (isWordAt (hd_error (snd i)))
      then k i else None
  end.

(** The ways a pattern matches between two positions, without the
    order in which the matcher tries them. *)
Inductive matches : regex -> input -> input -> Prop :=
| M_Eps i : matches Eps i i
| M_Chr (p : ascii -> bool) c pre s :
    p c = true -> matches (Chr p) (pre, c :: s) (c :: pre, s)
| M_Seq a b i j k : matches a i j -> matches b j k -> matches (Seq a b) i k
| M_AltL a b i j : matches a i j -> matches (Alt a b) i j
| M_AltR a b i j : matches b i j -> matches (Alt a b) i j
| M_Star0 a i : matches (Star a) i i
| M_StarS a i j k :
    matches a i j -> List.length (snd j) < List.length (snd i) ->
    matches (Star a) j k -> matches (Star a) i k
| M_Bol s : matches Bol ([], s) ([], s)
| M_Eol pre : matches Eol (pre, []) (pre, [])
| M_WordB i :
    xorb (isWordAt (hd_error (fst i))) (isWordAt (hd_error (snd i))) = true ->
    matches WordB i i.

(** ** Pattern syntax *)

Definition Plus (a : regex) : regex := Seq a (Star a).
Definition Opt (a : regex) : regex := Alt a Eps.

(** [a{n,}] *)
Fixpoint AtLeast (n : nat) (a : regex) : regex :=
  match n with
  | 0 => Star a
  | S n' => Seq a (AtLeast n' a)
  end.

(** [a{0,n}], greedy *)
Fixpoint UpTo (n : nat) (a : regex) : regex :=
  match n with
  | 0 => Eps
  | S n' => Opt (Seq a (UpTo n' a))
  end.

(** [a{n}] *)
Fixpoint Exactly (n : nat) (a : regex) : regex :=
  match n with
  | 0 => Eps
  | S n' => Seq a (Exactly n' a)
  end.

(** [a{m,n}] with [m <= n] *)
Definition Between (m n : nat) (a : regex) : regex :=
  Seq (Exactly m a) (UpTo (n - m) a).

Definition oneOf (set : string) (c : ascii) : bool :=
  existsb (Ascii.eqb c) (chars set).

Definition one (x : ascii) : regex := Chr (Ascii.eqb x).

(** A literal, case-sensitive. *)
Fixpoint lit (l : list ascii) : regex :=
  match l with
  | [] => Eps
  | [c] => one c
  | c :: l' => Seq (one c) (lit l')
  end.
Definition Lit (s : string) : regex := lit (chars s).

(** A literal under the [i] flag. *)
Definition isI (x : ascii) : regex := Chr (fun c => Ascii.eqb (canon c) (canon x)).
Fixpoint litI (l : list ascii) : regex :=
  match l with
  | [] => Eps
  | [c] => isI c
  | c :: l' => Seq (isI c) (litI l')
  end.
Definition LitI (s : string) : regex := litI (chars s).

Fixpoint seqs (l : list regex) : regex :=
  match l with
  | [] => Eps
  | [a] => a
  | a :: l' => Seq a (seqs l')
  end.

(** [a1|a2|...|an], for a non-empty list *)
Fixpoint alts (l : list regex) : regex :=
  match l with
  | [] => Eps
  | [a] => a
  | a :: l' => Alt a (alts l')
  end.

Definition ws : regex := Chr isWhiteSpace.
Definition digit : regex := Chr isDigit.

(** ** RegExp and String methods *)

(** RegExpBuiltinExec without the [g] and [y] flags: the leftmost start
    at which the matcher succeeds; the result is the pair of the start
    and end positions. *)
Fixpoint search (r : regex) (pre s : list ascii) : option (input * input) :=
  match run r (pre, s) Some with
  | Some j => Some ((pre, s), j)
  | None =>
      match s with
      | [] => None
      | c :: s' => search r (c :: pre) s'
      end
  end.

Definition exec (r : regex) (s : string) : option (input * input) :=
  search r [] (chars s).

(** [r.test(s)] *)
Definition test (r : regex) (s : string) : bool :=
  match exec r s with
  | Some _ => true
  | None => false
  end.

(** The text between two positions of one subject. *)
Definition matched (i j : input) : list ascii :=
  firstn (List.length (snd i) - List.length (snd j)) (snd i).

(** [s.match(r)[0]] *)
Definition match0 (r : regex) (s : string) : option string :=
  match exec r s with
  | Some (i, j) => Some (str (matched i j))
  | None => None
  end.

(** [s.replace(r, by)] for a pattern without the [g] flag. *)
Definition replace (r : regex) (by_ : string) (s : string) : string :=
  match exec r s with
  | Some (i, j) => str (rev (fst i) ++ chars by_ ++ snd j)
  | None => s
  end.

(** [s.replace(r, f)] for a pattern with the [g] flag, [f] mapping the
    matched text to its replacement.  After an empty match the scan
    moves one unit on. *)
Fixpoint replaceAllFrom (fuel : nat) (r : regex) (f : list ascii -> list ascii)
  (pre s : list ascii) : list ascii :=
  match fuel with
  | 0 => s
  | S fuel' =>
      match search r pre s with
      | None => s
      | Some (i, j) =>
          let skipped := firstn (List.length s - List.length (snd i)) s in
          let m := matched i j in
          match m, snd j with
          | [], [] => skipped ++ f m
          | [], c :: s' => skipped ++ f m ++ c :: replaceAllFrom fuel' r f (c :: fst j) s'
          | _ :: _, _ => skipped ++ f m ++ replaceAllFrom fuel' r f (fst j) (snd j)
          end
      end
  end.

Definition replaceAll (r : regex) (f : list ascii -> list ascii) (s : string)
  : string :=
  str (replaceAllFrom (S (String.length s)) r f [] (chars s)).

(** [s.split(r)] (RegExp.prototype[Symbol.split], no limit, a pattern
    without capture groups).  [piece] holds the units of the pending
    piece, reversed; [atPieceStart] says that the position tried is the
    start of that piece (q = p); [skip] counts the units of a separator
    still to be passed. *)
Fixpoint splitFrom (r : regex) (skip : nat) (atPieceStart : bool)
  (piece pre s : list ascii) : list (list ascii) :=
  match s with
  | [] => [rev piece]
  | c :: s' =>
      match skip with
      | S skip' => splitFrom r skip' true [] (c :: pre) s'
      | 0 =>
          match run r (pre, s) Some with
          | Some j =>
              match List.length s - List.length (snd j) with
              | 0 =>
                  if atPieceStart
                  then splitFrom r 0 false (c :: piece) (c :: pre) s'
                  else rev piece :: splitFrom r 0 false [c] (c :: pre) s'
              | S n' => rev piece :: splitFrom r n' true [] (c :: pre) s'
              end
          | None => splitFrom r 0 false (c :: piece) (c :: pre) s'
          end
      end
  end.

Definition split (r : regex) (s : string) : list string :=
  match chars s with
  | [] => match run r ([], []) Some with Some _ => [] | None => [""] end
  | l => map str (splitFrom r 0 true [] [] l)
  end.

End Regex.

Import Regex.

(* ===================================================================== *)
(** * ocrService.js: field detection and validation *)
(* ===================================================================== *)

Module Ocr.

(** The values of a field's [type]: the keys of [fieldPatterns]. *)
Inductive FieldType :=
| t_name | t_email | t_phone | t_address | t_date | t_ssn | t_gender
| t_age | t_grade | t_school | t_parent | t_occupation | t_income
| t_religion | t_nationality | t_signature | t_checkbox | t_text.

Definition FieldType_eqb (a b : FieldType) : bool :=
  match a, b with
  | t_name, t_name | t_email, t_email | t_phone, t_phone
  | t_address, t_address | t_date, t_date | t_ssn, t_ssn
  | t_gender, t_gender | t_age, t_age | t_grade, t_grade
  | t_school, t_school | t_parent, t_parent
  | t_occupation, t_occupation | t_income, t_income
  | t_religion, t_religion | t_nationality, t_nationality
  | t_signature, t_signature | t_checkbox, t_checkbox
  | t_text, t_text => true
  | _, _ => false
  end.

(** A recognized word of the OCR result: [{text, bbox: {x0, y0, x1, y1}}]. *)
Record Word := {
  w_text : string;
  x0 : Z; y0 : Z; x1 : Z; y1 : Z
}.

Record Coordinates := {
  x : Z; y : Z; width : Z; height : Z;
  inputX : Z; inputY : Z
}.

Record FormField := {
  id : string;
  label : string;
  type : FieldType;
  required : bool;
  value : option string;
  position : option nat;
  coordinates : option Coordinates;
  pdfFieldName : option string
}.

Record FormSchema := {
  extractedText : string;
  fields : list FormField;
  totalFields : nat;
  imageWidth : option Z;
  imageHeight : option Z;
  isPDFForm : bool
}.

(** ** The pattern table *)

(** [a\s*b\s*c] under the [i] flag. *)
Fixpoint phrase (l : list string) : regex :=
  match l with
  | [] => Eps
  | [a] => LitI a
  | a :: l' => Seq (LitI a) (Seq (Star ws) (phrase l'))
  end.

(** [/\b(a1|...|an)\b/i] *)
Definition keyword (l : list (list string)) : regex :=
  seqs [WordB; alts (map phrase l); WordB].

Definition fieldPatterns : list (FieldType * regex) :=
  [ (t_name, keyword [["name"]; ["full"; "name"]; ["first"; "name"];
                      ["last"; "name"]; ["middle"; "name"];
                      ["applicant"; "name"]; ["student"; "name"];
                      ["parent"; "name"]; ["guardian"; "name"];
                      ["surname"]; ["given"; "name"]]);
    (t_email, keyword [["email"]; ["e-mail"]; ["email"; "address"];
                       ["electronic"; "mail"]]);
    (t_phone, keyword [["phone"]; ["telephone"]; ["mobile"]; ["cell"];
                       ["contact"; "number"]; ["phone"; "number"];
                       ["tel"]; ["contact"; "no"]]);
    (t_address, keyword [["address"]; ["street"]; ["residence"];
                         ["location"]; ["city"]; ["state"]; ["province"];
                         ["zip"]; ["postal"; "code"]; ["country"];
                         ["pin"; "code"]]);
    (t_date, keyword [["date"]; ["dob"]; ["birth"; "date"];
                      ["date"; "of"; "birth"]; ["admission"; "date"];
                      ["enrollment"; "date"]; ["year"]; ["month"]; ["day"]]);
    (t_ssn, keyword [["ssn"]; ["social"; "security"]; ["tax"; "id"];
                     ["national"; "id"]; ["id"; "number"];
                     ["identification"]]);
    (t_gender, keyword [["gender"]; ["sex"]; ["male"]; ["female"]]);
    (t_age, keyword [["age"]; ["years"; "old"]]);
    (t_grade, keyword [["grade"]; ["class"]; ["standard"]; ["level"];
                       ["year"]]);
    (t_school, keyword [["school"]; ["institution"]; ["college"];
                        ["university"]; ["previous"; "school"]]);
    (t_parent, keyword [["parent"]; ["father"]; ["mother"]; ["guardian"];
                        ["emergency"; "contact"]]);
    (t_occupation, keyword [["occupation"]; ["profession"]; ["job"];
                            ["employment"]; ["work"]]);
    (t_income, keyword [["income"]; ["salary"]; ["annual"; "income"]]);
    (t_religion, keyword [["religion"]; ["caste"]; ["category"]]);
    (t_nationality, keyword [["nationality"]; ["citizenship"];
                             ["country"; "of"; "origin"]]);
    (t_signature, keyword [["signature"]; ["sign"; "here"];
                           ["applicant"; "signature"];
                           ["parent"; "signature"]]);
    (t_checkbox, keyword [["check"]; ["select"]; ["tick"]; ["mark"];
                          ["yes"]; ["no"]; ["agree"]; ["consent"]]);
    (t_text, keyword [["describe"]; ["explain"]; ["provide"]; ["enter"];
                      ["write"]; ["details"]; ["information"];
                      ["remarks"]; ["comments"]]) ].

(** [/[:_\[\]()\.\s{2,}]/] : one character set; the braces, the digit
    and the comma are members of it. *)
Definition indicatorSet (c : ascii) : bool :=
  oneOf ":_[]().{2,}" c || isWhiteSpace c.
Definition reIndicator : regex := Chr indicatorSet.

(** [/[:\-_\.]{1,}$/], [/_{3,}/], [/\.{3,}/] *)
Definition endingSet (c : ascii) : bool := oneOf ":-_." c.
Definition reEnding : regex := Seq (AtLeast 1 (Chr endingSet)) Eol.
Definition reUnderscores : regex := AtLeast 3 (one "_").
Definition reDots : regex := AtLeast 3 (one ".").

(** [/^[\d\.\-\)]+\s*/] *)
Definition reNumbering : regex :=
  seqs [Bol; Plus (Chr (fun c => isDigit c || oneOf ".-)" c)); Star ws].

(** [/\*+$/] *)
Definition reAsterisks : regex := Seq (Plus (one "*")) Eol.

(** [/^(section|part|...|were)$/i] *)
Definition skipWords : regex :=
  seqs [Bol;
        alts (map LitI ["section"; "part"; "page"; "form"; "instructions";
                        "note"; "please"; "kindly"; "total"; "subtotal";
                        "amount"; "the"; "and"; "or"; "for"; "to"; "in";
                        "of"; "is"; "are"; "was"; "were"]);
        Eol].

(** [/optional|if\s*applicable/i] *)
Definition reOptional : regex := Alt (LitI "optional") (phrase ["if"; "applicable"]).

(** [/\s+/] *)
Definition reSpaces : regex := Plus ws.

(** [/[:\-_\.\*]+$/] *)
Definition reTrailing : regex := Seq (Plus (Chr (oneOf ":-_.*"))) Eol.

(** ** findCoordinatesForLabel *)

(** An element of the [words] argument as the callee meets it: a word
    object of the OCR result, or a primitive string (which has no
    [text] property). *)
Inductive wordArg :=
| WordObj (w : Word)
| WordStr (s : string).

(** [word.text.toLowerCase()] *)
Definition wordTextLower (w : wordArg) : result string :=
  match w with
  | WordObj o => Ok (toLowerCase (w_text o))
  | WordStr _ =>
      Throw (TypeError "Cannot read properties of undefined (reading 'toLowerCase')")
  end.

(** [labelWords.some(lw => word.text.toLowerCase().includes(lw))] *)
Fixpoint someIncludes (w : wordArg) (labelWords : list string) : result bool :=
  match labelWords with
  | [] => Ok false
  | lw :: rest =>
      bind (wordTextLower w) (fun t =>
        if includes t lw then Ok true else someIncludes w rest)
  end.

Definition boxOf (w : wordArg) : option Coordinates :=
  match w with
  | WordObj o =>
      Some {| x := x0 o; y := y0 o;
              width := (x1 o - x0 o)%Z; height := (y1 o - y0 o)%Z;
              inputX := (x1 o + 10)%Z; inputY := y0 o |}
  | WordStr _ => None
  end.

Fixpoint findInWords (labelWords : list string) (words : list wordArg)
  : result (option Coordinates) :=
  match words with
  | [] => Ok None
  | word :: rest =>
      bind (someIncludes word labelWords) (fun hit =>
        if hit then Ok (boxOf word) else findInWords labelWords rest)
  end.

Definition findCoordinatesForLabel (label : string) (words : list wordArg)
  : result (option Coordinates) :=
  match words with
  | [] => Ok None
  | _ :: _ => findInWords (split reSpaces (toLowerCase label)) words
  end.

(** ** detectFormFields *)

(** The mutable locals of [detectFormFields]: the [fields] array and
    the [foundFields] set. *)
Definition acc : Type := list FormField * gset string.

(** [for (const [type, pattern] of Object.entries(fieldPatterns))] of
    the first strategy: the first type whose pattern is found in the
    label or in the line; ['text'] when there is none. *)
Fixpoint classify (table : list (FieldType * regex)) (label line : string)
  : FieldType :=
  match table with
  | [] => t_text
  | (ty, pattern) :: rest =>
      if test pattern label || test pattern line then ty
      else classify rest label line
  end.

Definition fieldIdOf (n : nat) : string := "field_" +:+ showNat n.

Definition hasFieldIndicator (line : string) : bool := test reIndicator line.

Definition hasFieldEnding (line : string) : bool :=
  test reEnding line || test reUnderscores line || test reDots line.

(** The callback of the first [lines.forEach]. *)
Definition strategy1 (words : list wordArg) (st : acc) (line : string)
  (index : nat) : result acc :=
  let '(fields, foundFields) := st in
  if (String.length line <? 2) || (150 <? String.length line) then Ok st
  else if hasFieldIndicator line || hasFieldEnding line then
    match split reIndicator line with
    | [] => Throw (TypeError "Cannot read properties of undefined (reading 'trim')")
    | first :: _ =>
        let label := trim first in
        let label := replace reNumbering "" label in
        let label := replace reAsterisks "" label in
        if (String.length label <? 2) || (80 <? String.length label)
           || bool_decide (toLowerCase label ∈ foundFields)
        then Ok st
        else if test skipWords label then Ok st
        else
          let fieldType := classify fieldPatterns label line in
          let required := negb (test reOptional line) in
          bind (findCoordinatesForLabel label words) (fun coordinates =>
            Ok (fields ++ [{| id := fieldIdOf (List.length fields + 1);
                              label := label;
                              type := fieldType;
                              required := required;
                              value := None;
                              position := Some index;
                              coordinates := coordinates;
                              pdfFieldName := None |}],
                {[toLowerCase label]} ∪ foundFields))
    end
  else Ok st.

(** [words.findIndex(w => pattern.test(w))] *)
Fixpoint findIndex (pattern : regex) (words : list string) (i : nat)
  : option nat :=
  match words with
  | [] => None
  | w :: rest => if test pattern w then Some i else findIndex pattern rest (S i)
  end.

(** [words.slice(a, b)] *)
Definition slice {A} (a b : nat) (l : list A) : list A := firstn (b - a) (skipn a l).

(** The loop over the pattern table of the second strategy, for one
    line.  Inside it [words] names the pieces of the line (strings),
    and it is those that reach [findCoordinatesForLabel]. *)
Fixpoint strategy2Types (table : list (FieldType * regex)) (st : acc)
  (line : string) (index : nat) : result acc :=
  match table with
  | [] => Ok st
  | (ty, pattern) :: rest =>
      let '(fields, foundFields) := st in
      if test pattern line then
        match match0 pattern line with
        | Some m =>
            let label := trim m in
            let words := split reSpaces line in
            let label :=
              match findIndex pattern words 0 with
              | Some matchIndex =>
                  if matchIndex <? List.length words - 1
                  then join " " (slice matchIndex
                                   (Nat.min (matchIndex + 3) (List.length words))
                                   words)
                  else label
              | None => label
              end in
            let label := trim (replace reTrailing "" label) in
            if (2 <=? String.length label)
               && negb (bool_decide (toLowerCase label ∈ foundFields))
            then
              bind (findCoordinatesForLabel label (map WordStr words))
                (fun coordinates =>
                   Ok (fields ++ [{| id := fieldIdOf (List.length fields + 1);
                                     label := label;
                                     type := ty;
                                     required := negb (FieldType_eqb ty t_text);
                                     value := None;
                                     position := Some index;
                                     coordinates := coordinates;
                                     pdfFieldName := None |}],
                       {[toLowerCase label]} ∪ foundFields))
            else strategy2Types rest st line index
        | None => strategy2Types rest st line index
        end
      else strategy2Types rest st line index
  end.

(** The callback of the second [lines.forEach]. *)
Definition strategy2 (st : acc) (line : string) (index : nat) : result acc :=
  if (String.length line <? 3) || (100 <? String.length line) then Ok st
  else strategy2Types fieldPatterns st line index.

(** [lines.forEach((line, index) => ...)], an exception of the callback
    ending the loop. *)
Fixpoint forEach (f : acc -> string -> nat -> result acc) (lines : list string)
  (index : nat) (st : acc) : result acc :=
  match lines with
  | [] => Ok st
  | line :: rest => bind (f st line index) (forEach f rest (S index))
  end.

Definition genericFields : list FormField :=
  let generic i l t r :=
    {| id := i; label := l; type := t; required := r; value := None;
       position := None; coordinates := None; pdfFieldName := None |} in
  [ generic "field_1" "Full Name" t_name true;
    generic "field_2" "Email Address" t_email true;
    generic "field_3" "Phone Number" t_phone true;
    generic "field_4" "Address" t_address false;
    generic "field_5" "Date" t_date true ].

(** [text.split('\n').map(line => line.trim()).filter(line => line.length > 0)] *)
Definition linesOf (text : string) : list string :=
  List.filter (fun line => 0 <? String.length line) (map trim (splitLines text)).

(** The two detection passes: what [fields] holds when the final test
    for the generic schema is reached. *)
Definition detectPasses (text : string) (words : list Word) : result acc :=
  let lines := linesOf text in
  bind (forEach (strategy1 (map WordObj words)) lines 0 ([], ∅)) (fun st =>
    if List.length (fst st) <? 5 then forEach strategy2 lines 0 st
    else Ok st).

Definition detectFormFields (text : string) (words : list Word)
  : result (list FormField) :=
  bind (detectPasses text words) (fun st =>
    if List.length (fst st) =? 0 then Ok genericFields else Ok (fst st)).

(** ** extractPDFFormFields *)

(** [field.constructor.name] of a pdf-lib form field. *)
Inductive ControlKind :=
| PDFTextField | PDFCheckBox | PDFRadioGroup | PDFDropdown
| PDFOptionList | PDFButton | PDFSignature.

(** A control of the interactive form: [getName()], its class and, for
    radio groups and dropdowns, [getOptions()]. *)
Record PdfControl := {
  c_name : string;
  c_kind : ControlKind;
  c_options : list string
}.

(** The chain of tests on the lower-cased name of a text control. *)
Definition inferTextType (nameLower : string) : FieldType :=
  if test (Alt (Lit "email") (Lit "e-mail")) nameLower then t_email
  else if test (alts [Lit "phone"; Lit "tel"; Lit "mobile"]) nameLower then t_phone
  else if test (alts [Lit "date"; Lit "dob"; Lit "birth"]) nameLower then t_date
  else if test (Lit "name") nameLower then t_name
  else if test (alts [Lit "address"; Lit "street"; Lit "city"; Lit "state";
                      Lit "zip"]) nameLower then t_address
  else t_text.

Definition controlType (c : PdfControl) : FieldType :=
  match c_kind c with
  | PDFCheckBox => t_checkbox
  | PDFRadioGroup => t_checkbox
  | PDFDropdown => t_text
  | PDFTextField => inferTextType (toLowerCase (c_name c))
  | _ => t_text
  end.

(** The display label: a space before each capital, underscores to
    spaces, runs of white space to one space, trimmed, first letter
    capitalized. *)
Definition displayLabel (fieldName : string) : string :=
  let l := replaceAll (Chr isUpperAZ) (fun m => " "%char :: m) fieldName in
  let l := replaceAll (one "_") (fun _ => [" "%char]) l in
  let l := replaceAll (Plus ws) (fun _ => [" "%char]) l in
  match chars (trim l) with
  | [] => ""
  | c :: rest => str (upperFirst c ++ rest)
  end.

(** [formFields.map((field, index) => ...)] *)
Fixpoint mapControls (controls : list PdfControl) (index : nat) : list FormField :=
  match controls with
  | [] => []
  | c :: rest =>
      {| id := fieldIdOf (index + 1);
         label := displayLabel (c_name c);
         type := controlType c;
         required := true;
         value := None;
         position := Some index;
         coordinates := None;
         pdfFieldName := Some (c_name c) |} :: mapControls rest (S index)
  end.

(** [loaded] is what reading the file and asking pdf-lib for the form's
    fields gives: [None] when any of these calls throws (the [catch]
    returns [null]).  The result is [null] also when there is no
    control. *)
Definition extractPDFFormFields (loaded : option (list PdfControl))
  : option (list FormField) :=
  match loaded with
  | None => None
  | Some [] => None
  | Some formFields => Some (mapControls formFields 0)
  end.

(** ** processForm *)

(** The result of Tesseract on an image. *)
Record OcrData := {
  o_text : string;
  o_words : list Word;
  o_imageWidth : option Z;
  o_imageHeight : option Z
}.

(** An uploaded file as the collaborators see it: its MIME type, the
    controls pdf-lib finds, the text pdf-parse extracts, the OCR result;
    [None] where the collaborator fails. *)
Record Upload := {
  mimeType : string;
  pdfControls : option (list PdfControl);
  pdfText : option string;
  ocr : option OcrData
}.

Definition substring0 (n : nat) (s : string) : string := str (firstn n (chars s)).

Definition textSchema (text : string) (words : list Word) (w h : option Z)
  : result FormSchema :=
  bind (detectFormFields text words) (fun fs =>
    Ok {| extractedText := substring0 500 text;
          fields := fs;
          totalFields := List.length fs;
          imageWidth := w;
          imageHeight := h;
          isPDFForm := false |}).

Definition processForm (u : Upload) : result FormSchema :=
  if includes (mimeType u) "pdf" then
    match extractPDFFormFields (pdfControls u) with
    | Some (f :: fs) =>
        Ok {| extractedText := "Interactive PDF Form";
              fields := f :: fs;
              totalFields := List.length (f :: fs);
              imageWidth := None;
              imageHeight := None;
              isPDFForm := true |}
    | _ =>
        match pdfText u with
        | None => Throw (Error "Failed to extract text from PDF")
        | Some text => textSchema text [] None None
        end
    end
  else if includes (mimeType u) "image" then
    match ocr u with
    | None => Throw (Error "Failed to extract text from image")
    | Some d => textSchema (o_text d) (o_words d) (o_imageWidth d) (o_imageHeight d)
    end
  else Throw (Error "Unsupported file type. Please upload an image or PDF.").

(** ** validateFieldValue *)

Record Validation := { valid : bool; message : string }.

(** [/^[^\s@]+@[^\s@]+\.[^\s@]+$/] *)
Definition reEmail : regex :=
  let part := Plus (Chr (fun c => negb (isWhiteSpace c || Ascii.eqb c "@"))) in
  seqs [Bol; part; one "@"; part; one "."; part; Eol].

(** [/^[\d\s\-\+\(\)]{10,}$/] *)
Definition phoneSet (c : ascii) : bool :=
  isDigit c || isWhiteSpace c || oneOf "-+()" c.
Definition rePhone : regex := seqs [Bol; AtLeast 10 (Chr phoneSet); Eol].

(** [/^\d{1,2}[\/\-]\d{1,2}[\/\-]\d{2,4}$/] *)
Definition reDate : regex :=
  seqs [Bol; Between 1 2 digit; Chr (oneOf "/-"); Between 1 2 digit;
        Chr (oneOf "/-"); Between 2 4 digit; Eol].

(** [/^\d{3}-?\d{2}-?\d{4}$/] *)
Definition reSsn : regex :=
  seqs [Bol; Exactly 3 digit; Opt (one "-"); Exactly 2 digit; Opt (one "-");
        Exactly 4 digit; Eol].

(** The [validations] table: a pattern and a message for four types. *)
Definition validations (ty : FieldType) : option (regex * string) :=
  match ty with
  | t_email => Some (reEmail, "Please provide a valid email address")
  | t_phone => Some (rePhone, "Please provide a valid phone number (at least 10 digits)")
  | t_date => Some (reDate, "Please provide a date in format MM/DD/YYYY or DD-MM-YYYY")
  | t_ssn => Some (reSsn, "Please provide a valid SSN (XXX-XX-XXXX)")
  | _ => None
  end.

Definition validateFieldValue (ty : FieldType) (v : string) : Validation :=
  if negb (truthy v) || (String.length (trim v) =? 0) then
    {| valid := false; message := "This field cannot be empty" |}
  else
    match validations ty with
    | Some (pattern, msg) =>
        if negb (test pattern v) then {| valid := false; message := msg |}
        else {| valid := true; message := "Valid" |}
    | None => {| valid := true; message := "Valid" |}
    end.

End Ocr.

Import Ocr.

(* ===================================================================== *)
(** * sessionStore.js: the in-memory session store *)
(* ===================================================================== *)

Module SessionStore.

(** A chat reply of the server, as it is sent and as it is kept
    (serialized) in the history. *)
Record Response := {
  question : string;
  fieldId : option string;
  fieldLabel : option string;
  fieldType : option FieldType;
  isCompleteFlag : bool;
  validationError : bool;
  error : option string
}.

(** The [content] of a history entry: the user's raw text, or
    [JSON.stringify] of a reply (kept structured). *)
Inductive Content :=
| Text (s : string)
| Json (r : Response).

Record Message := {
  role : string;
  content : Content;
  timestamp : nat
}.

Record Session := {
  sessionId : string;
  formSchema : FormSchema;
  filledFields : gmap string string;
  conversationHistory : list Message;
  currentFieldIndex : nat;
  isComplete : bool;
  createdAt : nat;
  originalFilePath : option string
}.

(** [this.sessions], a [Map] from session ids to session objects. *)
Abbreviation Store := (gmap string Session).

Definition createSession (now : nat) (sid : string) (schema : FormSchema)
  (store : Store) : Store :=
  <[sid := {| sessionId := sid;
              formSchema := schema;
              filledFields := ∅;
              conversationHistory := [];
              currentFieldIndex := 0;
              isComplete := false;
              createdAt := now;
              originalFilePath := None |}]> store.

(** [this.sessions.get(sessionId) || null] *)
Definition getSession (sid : string) (store : Store) : option Session :=
  store !! sid.

(** The shape shared by the five updating methods:
    [const session = this.sessions.get(id); if (session) { ... }],
    the assignment acting on the stored object. *)
Definition update (sid : string) (f : Session -> Session) (store : Store) : Store :=
  match store !! sid with
  | Some session => <[sid := f session]> store
  | None => store
  end.

Definition updateField (sid fieldName value : string) (store : Store) : Store :=
  update sid (fun s =>
    {| sessionId := sessionId s; formSchema := formSchema s;
       filledFields := <[fieldName := value]> (filledFields s);
       conversationHistory := conversationHistory s;
       currentFieldIndex := currentFieldIndex s; isComplete := isComplete s;
       createdAt := createdAt s; originalFilePath := originalFilePath s |}) store.

Definition addMessage (now : nat) (sid role : string) (content : Content)
  (store : Store) : Store :=
  update sid (fun s =>
    {| sessionId := sessionId s; formSchema := formSchema s;
       filledFields := filledFields s;
       conversationHistory :=
         conversationHistory s ++
           [{| role := role; content := content; timestamp := now |}];
       currentFieldIndex := currentFieldIndex s; isComplete := isComplete s;
       createdAt := createdAt s; originalFilePath := originalFilePath s |}) store.

Definition setCurrentFieldIndex (sid : string) (index : nat) (store : Store) : Store :=
  update sid (fun s =>
    {| sessionId := sessionId s; formSchema := formSchema s;
       filledFields := filledFields s;
       conversationHistory := conversationHistory s;
       currentFieldIndex := index; isComplete := isComplete s;
       createdAt := createdAt s; originalFilePath := originalFilePath s |}) store.

Definition markComplete (sid : string) (store : Store) : Store :=
  update sid (fun s =>
    {| sessionId := sessionId s; formSchema := formSchema s;
       filledFields := filledFields s;
       conversationHistory := conversationHistory s;
       currentFieldIndex := currentFieldIndex s; isComplete := true;
       createdAt := createdAt s; originalFilePath := originalFilePath s |}) store.

Definition setOriginalFilePath (sid filePath : string) (store : Store) : Store :=
  update sid (fun s =>
    {| sessionId := sessionId s; formSchema := formSchema s;
       filledFields := filledFields s;
       conversationHistory := conversationHistory s;
       currentFieldIndex := currentFieldIndex s; isComplete := isComplete s;
       createdAt := createdAt s; originalFilePath := Some filePath |}) store.

(** [this.sessions.delete(sessionId)] *)
Definition deleteSession (sid : string) (store : Store) : Store :=
  delete sid store.

End SessionStore.

Import SessionStore.

(* ===================================================================== *)
(** * formRoutes.js: POST /chat *)
(* ===================================================================== *)

Module Routes.

Inductive Reply :=
| Status (code : nat) (err : string)
| Body (r : Response).

Section Chat.

(** [isAPIConfigured()] : the API key is set in the environment. *)
Variable apiConfigured : bool.

(** The remote part of [generateNextQuestion]: the request to the
    model and the reading of its answer; [None] when the [try] block
    throws. *)
Variable askModel : Session -> option string -> option Response.

(** [generateNextQuestion]: the model's reply, or the local question
    of the [catch] block. *)
Definition generateNextQuestion (session : Session) (userMessage : option string)
  : Response :=
  match askModel session userMessage with
  | Some r => r
  | None =>
      let fs := fields (formSchema session) in
      match nth_error fs (currentFieldIndex session) with
      | Some currentField =>
          {| question := "Please provide your " +:+ label currentField +:+ ".";
             fieldId := Some (id currentField);
             fieldLabel := Some (label currentField);
             fieldType := Some (type currentField);
             isCompleteFlag := false;
             validationError := false;
             error := Some "Using fallback due to AI service error" |}
      | None =>
          {| question := "All fields have been filled! You can now export your form.";
             fieldId := None; fieldLabel := None; fieldType := None;
             isCompleteFlag := true;
             validationError := false;
             error := None |}
      end
  end.

Definition retryResponse (v : Validation) (currentField : FormField) : Response :=
  {| question := message v +:+ ". Please try again: " +:+ label currentField;
     fieldId := Some (id currentField);
     fieldLabel := Some (label currentField);
     fieldType := Some (type currentField);
     isCompleteFlag := false;
     validationError := true;
     error := None |}.

Definition completeResponse : Response :=
  {| question := "Great! All fields have been filled successfully. You can now export your completed form as a PDF.";
     fieldId := None; fieldLabel := None; fieldType := None;
     isCompleteFlag := true;
     validationError := false;
     error := None |}.

(** The tail of the handler: ask for the next question on the session
    as it now is in the store, record and send it. *)
Definition nextQuestion (now : nat) (sid msg : string) (store : Store)
  : Reply * Store :=
  match getSession sid store with
  | Some updatedSession =>
      let q := generateNextQuestion updatedSession (Some msg) in
      (Body q, addMessage now sid "assistant" (Json q) store)
  | None => (Status 500 "Failed to process message", store)
  end.

(** The handler of [POST /chat] on the body [{sessionId, message}]
    (an absent member is the empty string); [t1] and [t2] are the
    clock readings of its two history entries.  [session] is the
    object of the store: its [formSchema] and [currentFieldIndex] are
    read where no update has touched them yet. *)
Definition chat (t1 t2 : nat) (sid msg : string) (store : Store)
  : Reply * Store :=
  if negb (truthy sid) || negb (truthy msg)
  then (Status 400 "Session ID and message are required", store)
  else if negb apiConfigured
  then (Status 503 "AI service not configured", store)
  else
    match getSession sid store with
    | None => (Status 404 "Session not found", store)
    | Some session =>
        let store := addMessage t1 sid "user" (Text msg) store in
        let fs := fields (formSchema session) in
        match nth_error fs (currentFieldIndex session) with
        | Some currentField =>
            let validation := validateFieldValue (type currentField) msg in
            if negb (valid validation) then
              let r := retryResponse validation currentField in
              (Body r, addMessage t2 sid "assistant" (Json r) store)
            else
              let store := updateField sid (id currentField) msg store in
              let nextIndex := currentFieldIndex session + 1 in
              let store := setCurrentFieldIndex sid nextIndex store in
              if List.length fs <=? nextIndex then
                let store := markComplete sid store in
                (Body completeResponse,
                 addMessage t2 sid "assistant" (Json completeResponse) store)
              else nextQuestion t2 sid msg store
        | None => nextQuestion t2 sid msg store
        end
    end.

End Chat.

End Routes.

(* ===================================================================== *)
(** * pdfService.js: the fill engine *)
(* ===================================================================== *)

Module Pdf.

Local Open Scope Q_scope.

Inductive Font := Helvetica | HelveticaOblique.

(** The calls the engine makes on the pdf-lib document, in order: the
    document is known by the trace of what was done to it. *)
Inductive DocOp :=
| SetText (control value : string)
| Check (control : string)
| Select (control option : string)
| Flatten
| DrawImage (x y w h : Q)
| DrawCheckmark (x y size : Q)
| DrawText (txt : string) (x y size : Q) (font : Font)
| SetTitle (s : string)
| SetAuthor (s : string)
| SetCreationDate (t : nat)
| Save (path : string).

Record Doc := {
  d_controls : list PdfControl;    (** [getForm().getFields()] *)
  d_page : option (Q * Q);         (** size of [getPages()[0]], if any *)
  d_log : list DocOp
}.

(** What a fill works on: the caller's schema and value map, and the
    document being produced. *)
Record Heap := {
  h_schema : FormSchema;
  h_values : gmap string string;
  h_doc : Doc
}.

(** Computations on the heap that may throw; the heap reached is kept
    on both outcomes. *)
Definition M (A : Type) : Type := Heap -> result A * Heap.

Definition ret {A} (a : A) : M A := fun h => (Ok a, h).
Definition throw {A} (e : exn) : M A := fun h => (Throw e, h).
Definition mbind {A B} (m : M A) (f : A -> M B) : M B :=
  fun h => match m h with
           | (Ok a, h') => f a h'
           | (Throw e, h') => (Throw e, h')
           end.
(** [try { m } catch (error) { handler }] *)
Definition tryCatch {A} (m : M A) (handler : M A) : M A :=
  fun h => match m h with
           | (Ok a, h') => (Ok a, h')
           | (Throw _, h') => handler h'
           end.

Notation "x <- m ;; k" := (mbind m (fun x => k))
  (at level 100, m at next level, right associativity).
Notation "m ;;; k" := (mbind m (fun _ => k))
  (at level 100, right associativity).

(** Reads of the caller's objects. *)
Definition readFields : M (list FormField) := fun h => (Ok (fields (h_schema h)), h).
Definition readImageWidth : M (option Z) := fun h => (Ok (imageWidth (h_schema h)), h).
Definition readImageHeight : M (option Z) := fun h => (Ok (imageHeight (h_schema h)), h).
(** [filledFields[field.id]] *)
Definition readValue (key : string) : M (option string) :=
  fun h => (Ok (h_values h !! key), h).
Definition readControls : M (list PdfControl) := fun h => (Ok (d_controls (h_doc h)), h).
Definition readPage : M (option (Q * Q)) := fun h => (Ok (d_page (h_doc h)), h).

Section Engine.

(** Whether a call on the document throws (an option the control
    refuses, a text the font cannot encode, ...). *)
Variable opThrows : DocOp -> bool.

(** [font.widthOfTextAtSize(text, size)] *)
Variable widthOfTextAtSize : Font -> string -> Q -> Q.

Definition call (op : DocOp) : M unit :=
  fun h =>
    if opThrows op then (Throw (Error "pdf-lib"), h)
    else (Ok tt, {| h_schema := h_schema h;
                    h_values := h_values h;
                    h_doc := {| d_controls := d_controls (h_doc h);
                                d_page := d_page (h_doc h);
                                d_log := d_log (h_doc h) ++ [op] |} |}).

(** [fields.forEach((field, index) => ...)] *)
Fixpoint forEachField (f : FormField -> nat -> M unit) (l : list FormField)
  (index : nat) : M unit :=
  match l with
  | [] => ret tt
  | field :: rest => f field index ;;; forEachField f rest (S index)
  end.

(** [['yes', 'true', '1', 'checked', 'x'].includes(String(value).toLowerCase())] *)
Definition shouldCheck (v : string) : bool :=
  existsb (String.eqb (toLowerCase v)) ["yes"; "true"; "1"; "checked"; "x"].

(** ** fillInteractivePDFForm *)

(** [formFields.find(f => fieldName.includes(label) || label.includes(fieldName))] *)
Definition findControl (field : FormField) (formFields : list PdfControl)
  : option PdfControl :=
  find (fun f =>
          let fieldName := toLowerCase (c_name f) in
          let lbl := toLowerCase (label field) in
          includes fieldName lbl || includes lbl fieldName) formFields.

Definition fillControl (pdfField : PdfControl) (v : string) : M unit :=
  match c_kind pdfField with
  | PDFTextField => call (SetText (c_name pdfField) v)
  | PDFCheckBox =>
      if shouldCheck v then call (Check (c_name pdfField)) else ret tt
  | PDFRadioGroup =>
      match find (fun opt => String.eqb (toLowerCase opt) (toLowerCase v))
              (c_options pdfField) with
      | Some matchingOption =>
          if truthy matchingOption
          then call (Select (c_name pdfField) matchingOption) else ret tt
      | None => ret tt
      end
  | PDFDropdown => call (Select (c_name pdfField) v)
  | _ => ret tt
  end.

Definition fillInteractiveField (formFields : list PdfControl)
  (field : FormField) (_ : nat) : M unit :=
  o <- readValue (id field) ;;
  match o with
  | None => ret tt
  | Some v =>
      if negb (truthy v) then ret tt
      else
        match findControl field formFields with
        | Some pdfField => tryCatch (fillControl pdfField v) (ret tt)
        | None => ret tt
        end
  end.

Definition fillInteractivePDFForm : M bool :=
  tryCatch
    (formFields <- readControls ;;
     match formFields with
     | [] => ret false
     | _ :: _ =>
         fs <- readFields ;;
         forEachField (fillInteractiveField formFields) fs 0 ;;;
         call Flatten ;;;
         ret true
     end)
    (ret false).

(** ** fillScannedForm *)

(** [a || b] on an optional number: [b] when [a] is absent or zero. *)
Definition orElse (a : option Z) (b : Q) : Q :=
  match a with
  | Some n => if (n =? 0)%Z then b else inject_Z n
  | None => b
  end.

(** The draw position of a field: from its coordinates, scaled from
    the source raster to the page and with the vertical axis
    inverted; or from its index, in a fixed column. *)
Definition drawPosition (imgW imgH : option Z) (pageW pageH : Q)
  (field : FormField) (index : nat) : Q * Q :=
  match coordinates field with
  | Some c =>
      let imageHeight := orElse imgH pageH in
      let imageWidth := orElse imgW pageW in
      let scaleX := pageW / imageWidth in
      let scaleY := pageH / imageHeight in
      (inject_Z (inputX c) * scaleX, pageH - inject_Z (inputY c) * scaleY)
  | None =>
      let startY := pageH - 150 in
      let lineHeight := 25 in
      (150, startY - inject_Z (Z.of_nat index) * lineHeight)
  end.

(** [while (width(displayText + '...') > maxWidth && displayText.length > 0)
      displayText = displayText.slice(0, -1)] *)
Fixpoint shorten (fuel : nat) (font : Font) (fontSize maxWidth : Q)
  (displayText : list ascii) : list ascii :=
  match fuel with
  | O => displayText
  | S fuel' =>
      if Qlt_le_dec maxWidth
           (widthOfTextAtSize font (str displayText +:+ "...") fontSize)
      then match displayText with
           | [] => displayText
           | _ :: _ => shorten fuel' font fontSize maxWidth (removelast displayText)
           end
      else displayText
  end.

Definition displayTextOf (font : Font) (fontSize maxWidth : Q) (textValue : string)
  : string :=
  if Qlt_le_dec maxWidth (widthOfTextAtSize font textValue fontSize)
  then str (shorten (String.length textValue) font fontSize maxWidth
              (chars textValue)) +:+ "..."
  else textValue.

Definition fillScannedField (pageW pageH : Q) (field : FormField) (index : nat)
  : M unit :=
  o <- readValue (id field) ;;
  match o with
  | None => ret tt
  | Some v =>
      if negb (truthy v) then ret tt
      else
        imgW <- readImageWidth ;;
        imgH <- readImageHeight ;;
        let '(xPos, yPos) := drawPosition imgW imgH pageW pageH field index in
        let fontSize := 10 in
        match type field with
        | t_checkbox =>
            if shouldCheck v then call (DrawCheckmark xPos yPos 12) else ret tt
        | t_signature =>
            call (DrawText v xPos yPos (fontSize + 2) HelveticaOblique)
        | _ =>
            let maxWidth := pageW - xPos - 50 in
            call (DrawText (displayTextOf Helvetica fontSize maxWidth v)
                    xPos yPos fontSize Helvetica)
        end
  end.

Definition fillScannedForm : M unit :=
  page <- readPage ;;
  match page with
  | None => throw (TypeError "Cannot read properties of undefined (reading 'getSize')")
  | Some (pageW, pageH) =>
      fs <- readFields ;;
      forEachField (fillScannedField pageW pageH) fs 0
  end.

(** ** generateFilledPDF *)

(** [getMimeType], on the lower-cased extension of the path. *)
Definition getMimeType (ext : string) : string :=
  if String.eqb ext ".pdf" then "application/pdf"
  else if String.eqb ext ".png" then "image/png"
  else if String.eqb ext ".jpg" then "image/jpeg"
  else if String.eqb ext ".jpeg" then "image/jpeg"
  else "application/octet-stream".

(** The original file as the collaborators see it: the extension of
    its path, whether it can be read, the document pdf-lib loads
    from it, the size of the image embedded from it. *)
Record Source := {
  ext : string;
  readable : bool;
  asPdf : option Doc;
  asImage : option (Q * Q)
}.

(** The placement of the image on the page: scaled to fit within
    margins of 50, aspect ratio kept, centred on the other axis. *)
Definition placeImage (pageW pageH imgW imgH : Q) : DocOp :=
  let imageAspect := imgW / imgH in
  let pageAspect := pageW / pageH in
  if Qlt_le_dec pageAspect imageAspect then
    let w := pageW - 100 in
    let h := w / imageAspect in
    DrawImage 50 ((pageH - h) / 2) w h
  else
    let h := pageH - 100 in
    let w := h * imageAspect in
    DrawImage ((pageW - w) / 2) 50 w h.

Definition setDoc (d : Doc) : M unit :=
  fun h => (Ok tt, {| h_schema := h_schema h; h_values := h_values h; h_doc := d |}).

Definition emptyDoc : Doc := {| d_controls := []; d_page := None; d_log := [] |}.

Definition letterPage : Doc :=
  {| d_controls := []; d_page := Some (612, 792); d_log := [] |}.

Definition generateFilledPDF (src : Source) (now : nat) (outputPath : string)
  : M string :=
  tryCatch
    (if negb (readable src) then throw (Error "ENOENT")
     else
       let mime := getMimeType (ext src) in
       (if includes mime "pdf" then
          match asPdf src with
          | None => throw (Error "Failed to parse PDF document")
          | Some d =>
              setDoc d ;;;
              filledInteractive <- fillInteractivePDFForm ;;
              if filledInteractive then ret tt else fillScannedForm
          end
        else
          setDoc letterPage ;;;
          (if includes mime "png" || includes mime "jpeg" || includes mime "jpg"
           then match asImage src with
                | None => throw (Error "Failed to embed image")
                | Some (imgW, imgH) => call (placeImage 612 792 imgW imgH)
                end
           else ret tt) ;;;
          fillScannedForm) ;;;
       call (SetTitle "Filled Form") ;;;
       call (SetAuthor "Intelligent Form Filler") ;;;
       call (SetCreationDate now) ;;;
       call (Save outputPath) ;;;
       ret outputPath)
    (throw (Error "Failed to generate filled PDF")).

(** [fill(sourceDocument, schema, values)]: the engine run on the
    caller's schema and values and a fresh document. *)
Definition fill (src : Source) (now : nat) (outputPath : string)
  (schema : FormSchema) (values : gmap string string) : result string * Heap :=
  generateFilledPDF src now outputPath
    {| h_schema := schema; h_values := values; h_doc := emptyDoc |}.

End Engine.

End Pdf.

(* ===================================================================== *)
(** * The vocabulary of the properties *)
(* ===================================================================== *)

Module Props.

(** Empty or made of white space only. *)
Definition isBlank (v : string) : bool := forallb isWhiteSpace (chars v).

(** The types that have an entry in the [validations] table. *)
Definition hasPattern (ty : FieldType) : bool :=
  match ty with
  | t_email | t_phone | t_date | t_ssn => true
  | _ => false
  end.

Definition countDigits (v : string) : nat :=
  List.length (List.filter isDigit (chars v)).

(** [field_1], ..., [field_n] *)
Definition idsUpTo (n : nat) : list string := map fieldIdOf (seq 1 n).

Definition idsContiguous (fs : list FormField) : Prop :=
  map id fs = idsUpTo (List.length fs).

(** Two controls of an interactive form. *)
Definition exampleControls : list PdfControl :=
  [ {| c_name := "Email"; c_kind := PDFTextField; c_options := [] |};
    {| c_name := "agree"; c_kind := PDFCheckBox; c_options := [] |} ].

(** The text of the two-line scenario. *)
Definition scenarioText : string :=
  "Full Name: ____" +:+ String LF "Email Address: ____".

(** The indicator test in the words of the specification: a colon, an
    underscore run, a bracket or parenthesis, or a trailing run of at
    least three dots, dashes or underscores. *)
Definition specIndicator (line : string) : bool :=
  existsb (oneOf ":_[]()") (chars line)
  || test (Seq (AtLeast 3 (Chr (oneOf ".-_"))) Eol) line.

(** The guard of the label extraction of the first strategy. *)
Definition proceeds (line : string) : bool :=
  negb ((String.length line <? 2) || (150 <? String.length line))
  && (hasFieldIndicator line || hasFieldEnding line).

Definition lastChar (line : string) : option ascii := hd_error (rev (chars line)).

Definition endsWith (c : ascii) (line : string) : bool :=
  match lastChar line with
  | Some x => Ascii.eqb x c
  | None => false
  end.

Definition endsWithAny (set : string) (line : string) : bool :=
  match lastChar line with
  | Some x => oneOf set x
  | None => false
  end.

(** State [Collecting]: the cursor is on a field and the session is
    not marked complete. *)
Definition Collecting (s : Session) : Prop :=
  currentFieldIndex s < List.length (fields (formSchema s))
  /\ isComplete s = false.

(** A session on a schema of three fields, at the first of them, and a
    store that holds it under the id [s1]; a question generator that
    is never reachable. *)
Definition exampleSchema : FormSchema :=
  let mk i l t :=
    {| id := i; label := l; type := t; required := true; value := None;
       position := None; coordinates := None; pdfFieldName := None |} in
  {| extractedText := "";
     fields := [mk "field_1" "Name" t_name; mk "field_2" "Email" t_email;
                mk "field_3" "Phone" t_phone];
     totalFields := 3;
     imageWidth := None; imageHeight := None; isPDFForm := false |}.

Definition exampleSession_field : FormField :=
  {| id := "field_1"; label := "Name"; type := t_name; required := true;
     value := None; position := None; coordinates := None;
     pdfFieldName := None |}.

Definition exampleSession : Session :=
  {| sessionId := "s1"; formSchema := exampleSchema; filledFields := ∅;
     conversationHistory := []; currentFieldIndex := 0; isComplete := false;
     createdAt := 0; originalFilePath := None |}.

Definition exampleStore : gmap string Session := createSession 0 "s1" exampleSchema ∅.

Definition noModel (_ : Session) (_ : option string) : option Response := None.

(** The history entries of one exchange. *)
Definition userTurn (t : nat) (msg : string) : Message :=
  {| role := "user"; content := Text msg; timestamp := t |}.
Definition assistantTurn (t : nat) (r : Response) : Message :=
  {| role := "assistant"; content := Json r; timestamp := t |}.

(** A computation on the fill heap leaves the caller's schema and value
    map as they were, whatever its outcome. *)
Definition preserves {A : Type} (m : Pdf.M A) : Prop :=
  forall h,
    Pdf.h_schema (snd (m h)) = Pdf.h_schema h
    /\ Pdf.h_values (snd (m h)) = Pdf.h_values h.

(** Where a call on the document draws, if it draws a value. *)
Definition positionOf (op : Pdf.DocOp) : option (Q * Q) :=
  match op with
  | Pdf.DrawText _ x y _ _ => Some (x, y)
  | Pdf.DrawCheckmark x y _ => Some (x, y)
  | _ => None
  end.

(** A field anchored on a word box at (0, 50), 90 wide: its input
    point is (100, 50). *)
Definition exampleBoxedField : FormField :=
  {| id := "field_1"; label := "Name"; type := t_name; required := true;
     value := None; position := Some 0;
     coordinates := Some {| x := 0; y := 50; width := 90; height := 12;
                            inputX := 100; inputY := 50 |};
     pdfFieldName := None |}.

(** Source dimensions are unknown: absent, or zero. *)
Definition unknown (o : option Z) : Prop := o = None \/ o = Some 0%Z.

(** Case analysis on the eight bits of a code unit. *)
Ltac by_cases c :=
  let b0 := fresh in let b1 := fresh in let b2 := fresh in
  let b3 := fresh in let b4 := fresh in let b5 := fresh in
  let b6 := fresh in let b7 := fresh in
  destruct c as [b0 b1 b2 b3 b4 b5 b6 b7];
  destruct b0, b1, b2, b3, b4, b5, b6, b7; vm_compute.

End Props.

Import Props.

(* ===================================================================== *)
(** * sessionStore.js: expiry of old sessions *)
(* ===================================================================== *)

Module SessionCleanup.

(** [60 * 60 * 1000] milliseconds. *)
Definition oneHour : nat := 60 * 60 * 1000.

(** [cleanupOldSessions]: [now] is [Date.now()]; a session goes when
    [session.createdAt < oneHourAgo].  Clock readings are natural
    numbers, and so is the bound: before the first hour of the epoch no
    session is older than it. *)
Definition cleanupOldSessions (now : nat) (store : gmap string Session)
  : gmap string Session :=
  let oneHourAgo := now - oneHour in
  filter (fun entry => ~ createdAt (snd entry) < oneHourAgo) store.

End SessionCleanup.

Import SessionCleanup.

(* ===================================================================== *)
(** * pdfService.js: the summary document *)
(* ===================================================================== *)

Module Summary.

(** The calls [createSummaryPDF] makes on its new document.  Every text
    goes to the page created first ([page.drawText]); pages added later
    are not drawn on. *)
Inductive SummaryOp :=
| AddPage
| Draw (txt : string) (x y : Z) (size : nat) (bold : bool)
| SaveTo (path : string).

Section Summary.

(** Whether a call on the document throws. *)
Variable throws : SummaryOp -> bool.

(** The loop over the fields: [yPosition] is carried from one field to
    the next, [log] collects the calls made. *)
Fixpoint summaryFields (values : gmap string string) (l : list FormField)
  (index : nat) (yPosition : Z) (log : list SummaryOp)
  : result unit * list SummaryOp :=
  match l with
  | [] => (Ok tt, log)
  | field :: rest =>
      let v := match values !! id field with
               | Some s => if truthy s then s else "N/A"
               | None => "N/A"
               end in
      let '(outcome, yPosition, log) :=
        if (yPosition <? 50)%Z
        then if throws AddPage then (false, yPosition, log)
             else (true, (792 - 50)%Z, log ++ [AddPage])
        else (true, yPosition, log) in
      if negb outcome then (Throw (Error "pdf-lib"), log)
      else
        let title := Draw (showNat (index + 1) +:+ ". " +:+ label field)
                       50 yPosition 11 true in
        if throws title then (Throw (Error "pdf-lib"), log)
        else
          let body := Draw v 70 (yPosition - 15)%Z 10 false in
          if throws body then (Throw (Error "pdf-lib"), log ++ [title])
          else summaryFields values rest (S index) (yPosition - (25 + 15))%Z
                 (log ++ [title; body])
  end.

(** [createSummaryPDF(formSchema, filledFields, outputPath)]; [date] is
    [new Date().toLocaleDateString()]. *)
Definition createSummaryPDF (date : string) (schema : FormSchema)
  (values : gmap string string) (outputPath : string)
  : result string * list SummaryOp :=
  let failed := Throw (Error "Failed to create summary PDF") in
  let height := 792%Z in
  let heading := Draw "Filled Form Summary" 50 (height - 50)%Z 18 true in
  let dated := Draw ("Generated: " +:+ date) 50 (height - 75)%Z 10 false in
  if throws AddPage then (failed, [])
  else if throws heading then (failed, [AddPage])
  else if throws dated then (failed, [AddPage; heading])
  else
    match summaryFields values (fields schema) 0 (height - 120)%Z
            [AddPage; heading; dated] with
    | (Throw _, log) => (failed, log)
    | (Ok _, log) =>
        if throws (SaveTo outputPath) then (failed, log)
        else (Ok outputPath, log ++ [SaveTo outputPath])
    end.

End Summary.

End Summary.

Import Summary.

(* ===================================================================== *)
(** * formRoutes.js: the other routes *)
(* ===================================================================== *)

Module Handlers.

(** What the routes work on: the session store and the files of the
    upload directory (by path). *)
Record World := {
  sessions : gmap string Session;
  files : gset string
}.

(** [fs.unlink(path)]: fails when there is no such file. *)
Definition unlink (path : string) (fs : gset string) : option (gset string) :=
  if bool_decide (path ∈ fs) then Some (fs ∖ {[path]}) else None.

(** The [fileFilter] of the upload middleware. *)
Definition allowedTypes : list string :=
  ["image/png"; "image/jpeg"; "image/jpg"; "application/pdf"].
Definition fileFilter (mimetype : string) : bool :=
  existsb (String.eqb mimetype) allowedTypes.

(** The reply of [POST /upload-form]. *)
Inductive UploadReply :=
| UploadStatus (code : nat) (err : string) (msg : option string)
| Uploaded (sid : string) (schema : FormSchema) (firstQuestion : Response).

(** The reply of [GET /form-state/:sessionId]. *)
Record FormState := {
  st_sessionId : string;
  st_formSchema : FormSchema;
  st_filledFields : gmap string string;
  st_currentFieldIndex : nat;
  st_isComplete : bool;
  st_total : nat;
  st_filled : nat
}.

(** What [POST /export-pdf] sends: a status, or the download of the
    generated file (the filled document, or the summary). *)
Inductive Rendered :=
| Filled (doc : Pdf.Doc)
| Summarized (log : list SummaryOp).

Inductive ExportReply :=
| ExportStatus (code : nat) (err : string)
| Download (pdfPath : string) (content : Rendered).

Definition message_of (e : exn) : string :=
  match e with
  | TypeError m => m
  | Error m => m
  end.

Section Routes.

Variable askModel : Session -> option string -> option Response.
Variable opThrows : Pdf.DocOp -> bool.
Variable widthOfTextAtSize : Pdf.Font -> string -> Q -> Q.
Variable summaryThrows : SummaryOp -> bool.

(** What the decoders make of the file at a path (its extension, the
    document, the image); whether it can be read is decided by the
    files of the world. *)
Variable decoded : string -> Pdf.Source.

(** [path.join(process.cwd(), '..', 'uploads')] *)
Variable outputDir : string.

(** The handler of [POST /upload-form].  [file] is [req.file] (its path
    and what the extraction collaborators see in it), already stored by
    the middleware; [sid] is the fresh [uuidv4()]; [now] and [t] are the
    clock readings of the session and of its first history entry. *)
Definition uploadForm (file : option (string * Upload)) (sid : string)
  (now t : nat) (w : World) : UploadReply * World :=
  match file with
  | None => (UploadStatus 400 "No file uploaded" None, w)
  | Some (path, u) =>
      let stored := {[path]} ∪ files w in
      match processForm u with
      | Throw e =>
          let fs := match unlink path stored with
                    | Some fs' => fs'
                    | None => stored
                    end in
          (UploadStatus 500 "Failed to process form" (Some (message_of e)),
           {| sessions := sessions w; files := fs |})
      | Ok formSchema =>
          let store := createSession now sid formSchema (sessions w) in
          let store := setOriginalFilePath sid path store in
          match getSession sid store with
          | Some session =>
              let firstQuestion := Routes.generateNextQuestion askModel session None in
              let store := addMessage t sid "assistant" (Json firstQuestion) store in
              (Uploaded sid formSchema firstQuestion,
               {| sessions := store; files := stored |})
          | None =>
              let fs := match unlink path stored with
                        | Some fs' => fs'
                        | None => stored
                        end in
              (UploadStatus 500 "Failed to process form" None,
               {| sessions := store; files := fs |})
          end
      end
  end.

(** The handler of [GET /form-state/:sessionId]. *)
Definition formState (sid : string) (store : gmap string Session)
  : Routes.Reply + FormState :=
  match getSession sid store with
  | None => inl (Routes.Status 404 "Session not found")
  | Some session =>
      inr {| st_sessionId := sessionId session;
             st_formSchema := formSchema session;
             st_filledFields := filledFields session;
             st_currentFieldIndex := currentFieldIndex session;
             st_isComplete := isComplete session;
             st_total := List.length (fields (formSchema session));
             st_filled := size (filledFields session) |}
  end.

(** [session.originalFilePath], when it is truthy. *)
Definition originalOf (session : Session) : option string :=
  match originalFilePath session with
  | Some p => if truthy p then Some p else None
  | None => None
  end.

(** The clean-up after the download:
    [try { unlink(pdfPath); if (original) unlink(original);
           deleteSession(id) } catch { }]. *)
Definition cleanupAfterDownload (sid pdfPath : string) (original : option string)
  (w : World) : World :=
  match unlink pdfPath (files w) with
  | None => w
  | Some fs1 =>
      let w1 := {| sessions := sessions w; files := fs1 |} in
      match original with
      | None => {| sessions := deleteSession sid (sessions w); files := fs1 |}
      | Some p =>
          match unlink p fs1 with
          | None => w1
          | Some fs2 => {| sessions := deleteSession sid (sessions w); files := fs2 |}
          end
      end
  end.

(** The handler of [POST /export-pdf] on the body [{sessionId}] (an
    absent member is the empty string), the download included. *)
Definition exportPdf (now : nat) (date : string) (sid : string) (w : World)
  : ExportReply * World :=
  if negb (truthy sid) then (ExportStatus 400 "Session ID is required", w)
  else
    match getSession sid (sessions w) with
    | None => (ExportStatus 404 "Session not found", w)
    | Some session =>
        if negb (isComplete session)
        then (ExportStatus 400 "Form is not complete yet", w)
        else
          let outputPath := outputDir +:+ "/filled_form_" +:+ sid +:+ ".pdf" in
          match originalOf session with
          | Some p =>
              let src := {| Pdf.ext := Pdf.ext (decoded p);
                            Pdf.readable := bool_decide (p ∈ files w);
                            Pdf.asPdf := Pdf.asPdf (decoded p);
                            Pdf.asImage := Pdf.asImage (decoded p) |} in
              match Pdf.fill opThrows widthOfTextAtSize src now outputPath
                      (formSchema session) (filledFields session) with
              | (Ok pdfPath, h) =>
                  let w' := {| sessions := sessions w;
                               files := {[pdfPath]} ∪ files w |} in
                  (Download pdfPath (Filled (Pdf.h_doc h)),
                   cleanupAfterDownload sid pdfPath (Some p) w')
              | (Throw _, _) => (ExportStatus 500 "Failed to export PDF", w)
              end
          | None =>
              match createSummaryPDF summaryThrows date
                      (formSchema session) (filledFields session) outputPath with
              | (Ok pdfPath, log) =>
                  let w' := {| sessions := sessions w;
                               files := {[pdfPath]} ∪ files w |} in
                  (Download pdfPath (Summarized log),
                   cleanupAfterDownload sid pdfPath None w')
              | (Throw _, _) => (ExportStatus 500 "Failed to export PDF", w)
              end
          end
    end.

(** The handler of [DELETE /session/:sessionId]: the original file is
    removed if the session has one (a failure is only logged), then the
    session. *)
Definition deleteRoute (sid : string) (w : World) : World :=
  let fs :=
    match getSession sid (sessions w) with
    | Some session =>
        match originalOf session with
        | Some p => match unlink p (files w) with
                    | Some fs' => fs'
                    | None => files w
                    end
        | None => files w
        end
    | None => files w
    end in
  {| sessions := deleteSession sid (sessions w); files := fs |}.

End Routes.

End Handlers.

Import Handlers.

(* ===================================================================== *)
(** * App.jsx: the values the page keeps *)
(* ===================================================================== *)

Module App.

(** The update of [filledFields] in [handleSendMessage], on the reply
    [data] to the message just sent:
    [if (!data.validationError && data.fieldId)
       setFilledFields(prev => ({...prev, [data.fieldId]: message}))]. *)
Definition recordReply (data : Response) (msg : string)
  (prev : gmap string string) : gmap string string :=
  match fieldId data with
  | Some fid =>
      if negb (validationError data) && truthy fid
      then <[fid := msg]> prev else prev
  | None => prev
  end.

End App.

(* ===================================================================== *)
(** * The vocabulary of the further properties *)
(* ===================================================================== *)

Module Props2.

(** The state a session keeps while it is served: the cursor is within
    the schema, which has a field; the session is complete exactly when
    the cursor is past the last field; the recorded keys are the ids of
    the fields before the cursor. *)
Definition WellFormed (s : Session) : Prop :=
  fields (formSchema s) <> []
  /\ currentFieldIndex s <= List.length (fields (formSchema s))
  /\ (isComplete s = true <->
      currentFieldIndex s = List.length (fields (formSchema s)))
  /\ dom (filledFields s) =
       list_to_set (map id (firstn (currentFieldIndex s) (fields (formSchema s)))).


(** A session once the user's message is in its history. *)
Definition heard (t1 : nat) (msg : string) (session : Session) : Session :=
  {| sessionId := sessionId session;
     formSchema := formSchema session;
     filledFields := filledFields session;
     conversationHistory := conversationHistory session ++ [userTurn t1 msg];
     currentFieldIndex := currentFieldIndex session;
     isComplete := isComplete session;
     createdAt := createdAt session;
     originalFilePath := originalFilePath session |}.

(** A session once a valid answer is recorded and the cursor moved. *)
Definition answered (t1 : nat) (msg : string) (f : FormField) (session : Session)
  : Session :=
  {| sessionId := sessionId session;
     formSchema := formSchema session;
     filledFields := <[id f := msg]> (filledFields session);
     conversationHistory := conversationHistory session ++ [userTurn t1 msg];
     currentFieldIndex := currentFieldIndex session + 1;
     isComplete := isComplete session;
     createdAt := createdAt session;
     originalFilePath := originalFilePath session |}.

(** The local question of the generator for a field. *)
Definition fallbackQuestion (f : FormField) : Response :=
  {| question := "Please provide your " +:+ label f +:+ ".";
     fieldId := Some (id f);
     fieldLabel := Some (label f);
     fieldType := Some (type f);
     isCompleteFlag := false;
     validationError := false;
     error := Some "Using fallback due to AI service error" |}.


Definition allDigits (s : string) : bool := forallb isDigit (chars s).

(** Neither white space nor an at sign. *)
Definition plainChar (c : ascii) : bool := negb (isWhiteSpace c || Ascii.eqb c "@").
Definition plain (s : string) : bool := forallb plainChar (chars s).

Definition isSeparator (s : string) : bool := String.eqb s "/" || String.eqb s "-".
Definition optionalHyphen (s : string) : bool := String.eqb s "" || String.eqb s "-".

(** [w] is what lies between the positions [i] and [j] of a subject,
    and is made of members of [p]. *)
Definition spans (p : ascii -> bool) (i j : input) (w : list ascii) : Prop :=
  snd i = w ++ snd j /\ fst j = rev w ++ fst i /\ forallb p w = true.

(** The error of reading [text] on a primitive string. *)
Definition noText : exn :=
  TypeError "Cannot read properties of undefined (reading 'toLowerCase')".

(** The keys under which the detector remembers the labels it found. *)
Definition labelKeys (fs : list FormField) : list string :=
  map (fun f => toLowerCase (label f)) fs.

(** What the detector guarantees of a field of a text or of an image. *)
Definition Detected (f : FormField) : Prop :=
  2 <= String.length (label f) <= 80
  /\ test skipWords (label f) = false
  /\ value f = None /\ pdfFieldName f = None.

(** The locals of the detector agree: the set holds the keys of the
    fields, no key twice. *)
Definition Remembered (st : acc) : Prop :=
  snd st = list_to_set (labelKeys (fst st))
  /\ List.NoDup (labelKeys (fst st))
  /\ Forall Detected (fst st).

(** The word a label is located at: the first one whose lower-cased
    text includes a piece of the lower-cased label. *)
Definition locates (label : string) (w : Word) : bool :=
  existsb (includes (toLowerCase (w_text w))) (split reSpaces (toLowerCase label)).

(** The draws among the calls on a document. *)
Definition isDraw (op : Pdf.DocOp) : bool :=
  match op with
  | Pdf.DrawText _ _ _ _ _ | Pdf.DrawCheckmark _ _ _ => true
  | _ => false
  end.

(** The assignments to the controls of an interactive form. *)
Definition isAssignment (op : Pdf.DocOp) : bool :=
  match op with
  | Pdf.SetText _ _ | Pdf.Check _ | Pdf.Select _ _ => true
  | _ => false
  end.

(** The heap once further calls were made on its document. *)
Definition logged (h : Pdf.Heap) (ops : list Pdf.DocOp) : Pdf.Heap :=
  {| Pdf.h_schema := Pdf.h_schema h;
     Pdf.h_values := Pdf.h_values h;
     Pdf.h_doc := {| Pdf.d_controls := Pdf.d_controls (Pdf.h_doc h);
                     Pdf.d_page := Pdf.d_page (Pdf.h_doc h);
                     Pdf.d_log := Pdf.d_log (Pdf.h_doc h) ++ ops |} |}.

(** The write of the output file. *)
Definition isSave (op : Pdf.DocOp) : bool :=
  match op with
  | Pdf.Save _ => true
  | _ => false
  end.

(** The control an assignment goes to. *)
Definition controlOf (op : Pdf.DocOp) : option string :=
  match op with
  | Pdf.SetText c _ | Pdf.Check c | Pdf.Select c _ => Some c
  | _ => None
  end.

(** No file was written by these calls. *)
Definition unsaved (ops : list Pdf.DocOp) : Prop :=
  Forall (fun op => isSave op = false) ops.

(** The last steps of a successful fill. *)
Definition closing (now : nat) (outputPath : string) : list Pdf.DocOp :=
  [Pdf.SetTitle "Filled Form"; Pdf.SetAuthor "Intelligent Form Filler";
   Pdf.SetCreationDate now; Pdf.Save outputPath].

(** The vertical positions of the draws of a summary. *)
Definition drawnAt (op : SummaryOp) : option Z :=
  match op with
  | Draw _ _ y _ _ => Some y
  | _ => None
  end.

Definition drawnText (op : SummaryOp) : option string :=
  match op with
  | Draw txt _ _ _ _ => Some txt
  | _ => None
  end.

(** What a summary says of a field: its value, or N/A. *)
Definition shownValue (values : gmap string string) (f : FormField) : string :=
  match values !! id f with
  | Some s => if truthy s then s else "N/A"
  | None => "N/A"
  end.

(** The numbered title of a field in a summary. *)
Definition shownTitle (index : nat) (f : FormField) : string :=
  showNat (index + 1) +:+ ". " +:+ label f.

(** The lines of a summary for the fields from [index] on. *)
Fixpoint summaryLines (values : gmap string string) (l : list FormField)
  (index : nat) : list string :=
  match l with
  | [] => []
  | f :: rest => shownTitle index f :: shownValue values f
                 :: summaryLines values rest (S index)
  end.

(** A call of a summary is within the page: a draw in the left columns
    between the heights 35 and 742. *)
Definition onPage (op : SummaryOp) : Prop :=
  match op with
  | Draw _ x y _ _ => (35 <= y <= 742)%Z /\ (x = 50%Z \/ x = 70%Z)
  | AddPage => True
  | SaveTo _ => False
  end.

End Props2.

Import Props2.

(* ===================================================================== *)
(** * Facts about the matcher *)
(* ===================================================================== *)

Module RegexFacts.

Lemma chars_str l : chars (str l) = l.
Proof. apply list_ascii_of_string_of_list_ascii. Qed.

Lemma str_chars s : str (chars s) = s.
Proof. apply string_of_list_ascii_of_string. Qed.

Lemma length_chars s : List.length (chars s) = String.length s.
Proof. induction s as [|c s IH]; simpl; [reflexivity | now rewrite IH]. Qed.

Section Loop.
Context {A : Type} (a : regex) (step : input -> (input -> option A) -> option A).

Hypothesis step_sound : forall i k x,
  step i k = Some x -> exists j, matches a i j /\ k j = Some x.

Lemma starLoop_sound k n : forall i x,
  starLoop step k n i = Some x ->
  exists j, matches (Star a) i j /\ k j = Some x.
Proof.
  induction n as [|n IH]; intros i x H; simpl in H.
  - exists i. split; [constructor | exact H].
  - destruct (step i _) as [y|] eqn:E.
    + injection H as ->.
      apply step_sound in E. destruct E as (j & Hj & Hk).
      destruct (List.length (snd j) <? List.length (snd i)) eqn:Hlt; [|discriminate].
      apply IH in Hk. destruct Hk as (j' & Hj' & Hk').
      exists j'. split; [|exact Hk'].
      eapply M_StarS; eauto. now apply Nat.ltb_lt.
    + exists i. split; [constructor | exact H].
Qed.

Hypothesis step_complete : forall i j, matches a i j ->
  forall k x, k j = Some x -> exists y, step i k = Some y.

Lemma starLoop_complete k : forall i j, matches (Star a) i j ->
  forall n x, List.length (snd i) < n -> k j = Some x ->
  exists y, starLoop step k n i = Some y.
Proof.
  intros i j H. remember (Star a) as r eqn:Hr.
  induction H; try discriminate; injection Hr as ->; intros n x Hn Hk.
  - destruct n as [|n]; [lia|]. simpl.
    destruct (step i _) as [y|]; eauto.
  - destruct n as [|n]; [lia|]. simpl.
    destruct (IHmatches2 eq_refl n x ltac:(lia) Hk) as (y & Hy).
    destruct (step_complete i j H
                (fun j0 => if List.length (snd j0) <? List.length (snd i)
                           then starLoop step k n j0 else None) y) as (y' & Hy').
    { apply Nat.ltb_lt in H0. now rewrite H0. }
    rewrite Hy'. eauto.
Qed.
End Loop.

(** Whatever the matcher returns comes from a way of matching. *)
Lemma run_sound : forall r A i (k : input -> option A) x,
  run r i k = Some x -> exists j, matches r i j /\ k j = Some x.
Proof.
  induction r as [|p|a IHa b IHb|a IHa b IHb|a IHa| | |]; intros A i k x H; cbn [run] in H.
  - exists i. split; [constructor | exact H].
  - destruct i as [pre s]; simpl in H. destruct s as [|c s]; [discriminate|].
    destruct (p c) eqn:Hp; [|discriminate].
    exists (c :: pre, s). split; [now constructor | exact H].
  - apply IHa in H. destruct H as (j & Hj & H).
    apply IHb in H. destruct H as (j' & Hj' & H).
    exists j'. split; [econstructor; eauto | exact H].
  - destruct (run a i k) as [y|] eqn:E.
    + injection H as ->. apply IHa in E. destruct E as (j & Hj & E).
      exists j. split; [now apply M_AltL | exact E].
    + apply IHb in H. destruct H as (j & Hj & H).
      exists j. split; [now apply M_AltR | exact H].
  - eapply starLoop_sound; [|exact H]. intros i0 k0 x0. apply IHa.
  - destruct i as [pre s]; simpl in H. destruct pre; [|discriminate].
    exists ([], s). split; [constructor | exact H].
  - destruct i as [pre s]; simpl in H. destruct s; [|discriminate].
    exists (pre, []). split; [constructor | exact H].
  - destruct (xorb _ _) eqn:E; [|discriminate].
    exists i. split; [now constructor | exact H].
Qed.

(** A way of matching that the continuation accepts makes the matcher
    succeed (possibly with an earlier alternative). *)
Lemma run_complete : forall r i j, matches r i j ->
  forall A (k : input -> option A) x, k j = Some x -> exists y, run r i k = Some y.
Proof.
  induction r as [|p|a IHa b IHb|a IHa b IHb|a IHa| | |]; intros i j H A k x Hk.
  - inversion H; subst. simpl. eauto.
  - inversion H; subst. simpl.
    match goal with Hp : p _ = true |- _ => rewrite Hp end. eauto.
  - inversion H; subst. simpl.
    destruct (IHb _ _ H5 A k x Hk) as (y & Hy).
    eapply IHa; eauto.
  - simpl. inversion H; subst.
    + destruct (IHa _ _ H4 A k x Hk) as (y & ->). eauto.
    + destruct (run a i k); [eauto|]. eapply IHb; eauto.
  - cbn [run]. eapply starLoop_complete with (a := a); eauto.
  - inversion H; subst. simpl. eauto.
  - inversion H; subst. simpl. eauto.
  - inversion H; subst. simpl.
    match goal with Hx : xorb _ _ = true |- _ => simpl in Hx; rewrite Hx end. eauto.
Qed.

Lemma search_sound r : forall s pre i j,
  search r pre s = Some (i, j) ->
  exists a b, s = a ++ b /\ i = (rev a ++ pre, b) /\ matches r i j.
Proof.
  induction s as [|c s IH]; intros pre i j H; simpl in H.
  - destruct (run r (pre, []) Some) as [j0|] eqn:E; [|discriminate].
    injection H as <- <-. apply run_sound in E. destruct E as (j' & Hj & [= ->]).
    exists [], []. auto.
  - destruct (run r (pre, c :: s) Some) as [j0|] eqn:E.
    + injection H as <- <-. apply run_sound in E. destruct E as (j' & Hj & [= ->]).
      exists [], (c :: s). auto.
    + apply IH in H. destruct H as (a & b & -> & -> & Hm).
      exists (c :: a), b. simpl. rewrite <- app_assoc. auto.
Qed.

Lemma search_complete r : forall a b pre j,
  matches r (rev a ++ pre, b) j -> exists res, search r pre (a ++ b) = Some res.
Proof.
  induction a as [|c a IH]; intros b pre j H; simpl in *.
  - destruct (run_complete _ _ _ H _ Some j eq_refl) as (y & Hy).
    destruct b; simpl; rewrite Hy; eauto.
  - destruct (run r (pre, c :: a ++ b) Some); eauto.
    apply (IH b (c :: pre) j). now rewrite <- app_assoc in H.
Qed.

(** [r.test(s)] holds exactly when [r] matches at some position of [s]. *)
Lemma test_spec r s :
  test r s = true <->
  exists a b j, chars s = a ++ b /\ matches r (rev a, b) j.
Proof.
  unfold test, exec. split.
  - destruct (search r [] (chars s)) as [[i j]|] eqn:E; [|discriminate].
    intros _. apply search_sound in E. destruct E as (a & b & Hs & -> & Hm).
    rewrite app_nil_r in Hm. eauto.
  - intros (a & b & j & Hs & Hm). rewrite Hs.
    destruct (search_complete r a b [] j) as (res & ->); [|reflexivity].
    now rewrite app_nil_r.
Qed.

(** ** One character set, and repetitions of one *)

Lemma test_Chr p s : test (Chr p) s = existsb p (chars s).
Proof.
  apply eq_true_iff_eq. rewrite test_spec, existsb_exists. split.
  - intros (a & b & j & Hs & Hm). inversion Hm; subst.
    exists c. split; [|assumption]. rewrite Hs. apply in_or_app. right. now left.
  - intros (c & Hin & Hp). apply in_split in Hin. destruct Hin as (a & b & Hs).
    exists a, (c :: b), (c :: rev a, b). split; [assumption | now constructor].
Qed.

Lemma star_Chr_inv p i j :
  matches (Star (Chr p)) i j ->
  exists w, snd i = w ++ snd j /\ fst j = rev w ++ fst i /\ forallb p w = true.
Proof.
  intros H. remember (Star (Chr p)) as r eqn:Hr.
  induction H; try discriminate; injection Hr as ->.
  - exists []. auto.
  - destruct (IHmatches2 eq_refl) as (w & Hs & Hp & Hw).
    inversion H; subst. simpl in *.
    exists (c :: w). simpl. rewrite Hs, Hp, Hw.
    match goal with Hc : p c = true |- _ => rewrite Hc end.
    rewrite <- app_assoc. auto.
Qed.

Lemma star_Chr_intro p : forall w pre s,
  forallb p w = true ->
  matches (Star (Chr p)) (pre, w ++ s) (rev w ++ pre, s).
Proof.
  induction w as [|c w IH]; intros pre s H; simpl in *.
  - constructor.
  - apply andb_true_iff in H. destruct H as [Hc Hw].
    eapply M_StarS with (j := (c :: pre, w ++ s)).
    + now constructor.
    + simpl. lia.
    + rewrite <- app_assoc. simpl. now apply IH.
Qed.

Lemma atLeast_Chr_inv p : forall n i j,
  matches (AtLeast n (Chr p)) i j ->
  exists w, snd i = w ++ snd j /\ fst j = rev w ++ fst i /\
            n <= List.length w /\ forallb p w = true.
Proof.
  induction n as [|n IH]; intros i j H; simpl in H.
  - apply star_Chr_inv in H. destruct H as (w & ? & ? & ?).
    exists w. repeat split; auto. lia.
  - inversion H; subst.
    match goal with Hc : matches (Chr p) _ _ |- _ => inversion Hc; subst end.
    match goal with Hr : matches (AtLeast n _) _ _ |- _ => apply IH in Hr;
      destruct Hr as (w & Hs & Hp & Hn & Hw) end.
    simpl in *. exists (c :: w). simpl. rewrite Hs, Hp, Hw.
    match goal with Hc : p c = true |- _ => rewrite Hc end.
    rewrite <- app_assoc. repeat split; auto. lia.
Qed.

Lemma atLeast_Chr_intro p : forall n w pre s,
  n <= List.length w -> forallb p w = true ->
  matches (AtLeast n (Chr p)) (pre, w ++ s) (rev w ++ pre, s).
Proof.
  induction n as [|n IH]; intros w pre s Hn Hw; simpl.
  - now apply star_Chr_intro.
  - destruct w as [|c w]; simpl in *; [lia|].
    apply andb_true_iff in Hw. destruct Hw as [Hc Hw].
    apply M_Seq with (j := (c :: pre, w ++ s)); [now constructor|].
    rewrite <- app_assoc. simpl. apply IH; [lia | assumption].
Qed.

(** [/[set]{n,}$/] with [n >= 1]: the subject ends with a member. *)
Lemma test_ending p s :
  test (Seq (AtLeast 1 (Chr p)) Eol) s = true <->
  exists a c, chars s = a ++ [c] /\ p c = true.
Proof.
  rewrite test_spec. split.
  - intros (a & b & j & Hs & Hm). inversion Hm; subst.
    match goal with He : matches Eol _ _ |- _ => inversion He; subst end.
    match goal with Hr : matches (Seq (Chr p) _) _ _ |- _ =>
      apply (atLeast_Chr_inv p 1) in Hr; destruct Hr as (w & Hb & _ & Hn & Hw) end.
    simpl in Hb. rewrite app_nil_r in Hb. subst b.
    destruct (exists_last (l := w)) as (w' & c & ->).
    { intros ->. simpl in Hn. lia. }
    exists (a ++ w'), c. rewrite Hs, app_assoc. split; [reflexivity|].
    rewrite forallb_app in Hw. apply andb_true_iff in Hw. simpl in Hw.
    destruct Hw as [_ Hw]. now rewrite andb_true_r in Hw.
  - intros (a & c & Hs & Hc).
    exists a, [c], (c :: rev a, []). split; [assumption|].
    apply M_Seq with (j := (c :: rev a, [])); [|constructor].
    apply (atLeast_Chr_intro p 1 [c] (rev a) []); simpl; [lia | now rewrite Hc].
Qed.

(** [/c{n,}/] with [n >= 1] is found only in a subject that has [c]. *)
Lemma test_atLeast_member p n s :
  test (AtLeast (S n) (Chr p)) s = true -> existsb p (chars s) = true.
Proof.
  rewrite test_spec. intros (a & b & j & Hs & Hm).
  apply atLeast_Chr_inv in Hm. destruct Hm as (w & Hb & _ & Hn & Hw).
  simpl in Hb. destruct w as [|c w]; [simpl in Hn; lia|].
  simpl in Hw. apply andb_true_iff in Hw. destruct Hw as [Hc _].
  apply existsb_exists. exists c. split; [|assumption].
  rewrite Hs, Hb. apply in_or_app. right. now left.
Qed.

(** [/^[set]{n,}$/]: the whole subject, of at least [n] units, is made
    of members of the set. *)
Lemma test_anchored_atLeast p n s :
  test (seqs [Bol; AtLeast n (Chr p); Eol]) s =
  (n <=? String.length s) && forallb p (chars s).
Proof.
  apply eq_true_iff_eq. rewrite test_spec, andb_true_iff, Nat.leb_le.
  rewrite <- length_chars. simpl. split.
  - intros (a & b & j & Hs & Hm). inversion Hm; subst.
    match goal with Hb : matches Bol _ _ |- _ => inversion Hb; subst end.
    match goal with Hr : matches (Seq _ Eol) _ _ |- _ => inversion Hr; subst end.
    match goal with He : matches Eol _ _ |- _ => inversion He; subst end.
    match goal with Hr : matches (AtLeast n _) _ _ |- _ =>
      apply atLeast_Chr_inv in Hr; destruct Hr as (w & Hb & _ & Hn & Hw) end.
    simpl in Hb. rewrite app_nil_r in Hb. subst b.
    assert (a = []) as -> by (destruct a as [|? a]; [reflexivity |];
      match goal with Hx : [] = rev _ |- _ =>
        apply (f_equal (@List.length ascii)) in Hx; rewrite length_rev in Hx;
        discriminate end).
    simpl in Hs. rewrite Hs. auto.
  - intros [Hn Hw]. exists [], (chars s), (rev (chars s), []). split; [reflexivity|].
    simpl. apply M_Seq with (j := ([], chars s)); [constructor|].
    apply M_Seq with (j := (rev (chars s), [])); [|constructor].
    pose proof (atLeast_Chr_intro p n (chars s) [] [] Hn Hw) as Hm.
    now rewrite !app_nil_r in Hm.
Qed.

End RegexFacts.

(* ===================================================================== *)
(** * Facts about field detection and validation *)
(* ===================================================================== *)

Module OcrFacts.
Import RegexFacts.

(** ** trim *)

Lemma dropWhile_all p l : forallb p l = true -> dropWhile p l = [].
Proof.
  induction l as [|c l IH]; simpl; [reflexivity|].
  intros H. apply andb_true_iff in H. destruct H as [-> H]. auto.
Qed.

Lemma dropWhile_some p l :
  forallb p l = false -> forallb p (dropWhile p l) = false.
Proof.
  induction l as [|c l IH]; simpl; [discriminate|].
  destruct (p c) eqn:Hc; simpl; [exact IH|]. now rewrite Hc.
Qed.

Lemma forallb_rev p (l : list ascii) : forallb p (rev l) = forallb p l.
Proof.
  induction l as [|c l IH]; simpl; [reflexivity|].
  rewrite forallb_app, IH. simpl. rewrite andb_true_r. apply andb_comm.
Qed.

Lemma trim_blank v : isBlank v = true -> trim v = "".
Proof.
  unfold isBlank, trim, trimChars. intros H.
  now rewrite (dropWhile_all _ _ H).
Qed.

Lemma trim_not_blank v : isBlank v = false -> String.length (trim v) <> 0.
Proof.
  unfold isBlank, trim, trimChars. intros H.
  apply dropWhile_some in H. rewrite <- forallb_rev in H.
  apply dropWhile_some in H. rewrite <- forallb_rev in H.
  rewrite <- length_chars, chars_str.
  destruct (rev (dropWhile isWhiteSpace (rev (dropWhile isWhiteSpace (chars v)))));
    [discriminate | simpl; lia].
Qed.

Lemma truthy_not_blank v : isBlank v = false -> truthy v = true.
Proof. destruct v; [discriminate | reflexivity]. Qed.

(** ** validateFieldValue *)

Lemma validate_blank ty v :
  isBlank v = true ->
  validateFieldValue ty v =
    {| valid := false; message := "This field cannot be empty" |}.
Proof.
  intros H. unfold validateFieldValue.
  rewrite (trim_blank _ H). simpl. now rewrite orb_true_r.
Qed.

Lemma validate_not_blank ty v :
  isBlank v = false ->
  valid (validateFieldValue ty v) =
    match validations ty with
    | Some (pattern, _) => test pattern v
    | None => true
    end.
Proof.
  intros H. unfold validateFieldValue.
  rewrite (truthy_not_blank _ H). simpl.
  destruct (String.length (trim v) =? 0) eqn:E.
  - apply Nat.eqb_eq in E. now apply trim_not_blank in E.
  - destruct (validations ty) as [[pattern msg]|]; [|reflexivity].
    now destruct (test pattern v).
Qed.

(** What the phone pattern accepts: at least ten units, each a digit,
    white space, a hyphen, a plus sign or a parenthesis. *)
Lemma validate_phone v :
  valid (validateFieldValue t_phone v) =
  negb (isBlank v) && (10 <=? String.length v) && forallb phoneSet (chars v).
Proof.
  destruct (isBlank v) eqn:E.
  - now rewrite validate_blank.
  - rewrite validate_not_blank by assumption. simpl.
    apply (test_anchored_atLeast phoneSet 10 v).
Qed.

(** ** The identifiers of detected fields *)

Lemma idsUpTo_S n : idsUpTo (S n) = idsUpTo n ++ [fieldIdOf (n + 1)].
Proof.
  unfold idsUpTo. rewrite seq_S, map_app. simpl.
  now rewrite Nat.add_1_r.
Qed.

Lemma idsContiguous_snoc fs f :
  idsContiguous fs -> id f = fieldIdOf (List.length fs + 1) ->
  idsContiguous (fs ++ [f]).
Proof.
  unfold idsContiguous. intros H Hf.
  rewrite map_app, length_app, H. simpl.
  rewrite Nat.add_1_r, idsUpTo_S, Hf. now rewrite Nat.add_1_r.
Qed.

Lemma strategy1_ids words st line index st' :
  idsContiguous (fst st) -> strategy1 words st line index = Ok st' ->
  idsContiguous (fst st').
Proof.
  destruct st as [fs found]. unfold strategy1. simpl. intros Hfs H.
  repeat match type of H with
         | (if ?b then _ else _) = _ => destruct b
         | match ?l with [] => _ | _ :: _ => _ end = _ => destruct l
         | Ok _ = Ok _ => injection H as <-
         | Throw _ = Ok _ => discriminate
         end; try assumption.
  unfold bind in H.
  match type of H with match ?m with Ok _ => _ | Throw _ => _ end = _ =>
    destruct m; [|discriminate] end.
  injection H as <-. simpl. now apply idsContiguous_snoc.
Qed.

Lemma strategy2Types_ids line index : forall table st st',
  idsContiguous (fst st) -> strategy2Types table st line index = Ok st' ->
  idsContiguous (fst st').
Proof.
  induction table as [|[ty pattern] table IH]; intros st st' Hfs H; simpl in H.
  - now injection H as <-.
  - destruct st as [fs found].
    destruct (test pattern line); [|eauto].
    destruct (match0 pattern line); [|eauto].
    match type of H with (if ?b then _ else _) = _ => destruct b end; [|eauto].
    unfold bind in H.
    match type of H with match ?m with Ok _ => _ | Throw _ => _ end = _ =>
      destruct m; [|discriminate] end.
    injection H as <-. simpl. now apply idsContiguous_snoc.
Qed.

Lemma strategy2_ids st line index st' :
  idsContiguous (fst st) -> strategy2 st line index = Ok st' ->
  idsContiguous (fst st').
Proof.
  unfold strategy2. intros Hfs H.
  destruct (_ || _); [now injection H as <- |].
  eapply strategy2Types_ids; eauto.
Qed.

Lemma forEach_ids f :
  (forall st line index st',
      idsContiguous (fst st) -> f st line index = Ok st' ->
      idsContiguous (fst st')) ->
  forall lines index st st',
    idsContiguous (fst st) -> forEach f lines index st = Ok st' ->
    idsContiguous (fst st').
Proof.
  intros Hf. induction lines as [|line lines IH]; intros index st st' Hfs H; simpl in H.
  - now injection H as <-.
  - unfold bind in H. destruct (f st line index) as [st1|] eqn:E; [|discriminate].
    eapply IH; [|exact H]. eapply Hf; eauto.
Qed.

Lemma detectPasses_ids text words st :
  detectPasses text words = Ok st -> idsContiguous (fst st).
Proof.
  unfold detectPasses, bind. intros H.
  destruct (forEach (strategy1 _) _ 0 _) as [st1|] eqn:E1; [|discriminate].
  assert (idsContiguous (fst st1)) as H1.
  { refine (forEach_ids _ _ _ _ ([], ∅) _ _ E1); [|reflexivity].
    intros. eapply strategy1_ids; eauto. }
  destruct (List.length (fst st1) <? 5).
  - refine (forEach_ids _ _ _ _ st1 _ H1 H).
    intros. eapply strategy2_ids; eauto.
  - now injection H as <-.
Qed.

Lemma detectFormFields_ids text words fs :
  detectFormFields text words = Ok fs -> idsContiguous fs.
Proof.
  unfold detectFormFields, bind. intros H.
  destruct (detectPasses text words) as [st|] eqn:E; [|discriminate].
  apply detectPasses_ids in E.
  destruct (List.length (fst st) =? 0); injection H as <-;
    [reflexivity | assumption].
Qed.

Lemma mapControls_ids : forall controls index,
  map id (mapControls controls index) =
  map fieldIdOf (seq (index + 1) (List.length controls)).
Proof.
  induction controls as [|c controls IH]; intros index; simpl; [reflexivity|].
  rewrite IH. now rewrite (Nat.add_comm (S index) 1), (Nat.add_comm index 1).
Qed.

Lemma length_mapControls : forall controls index,
  List.length (mapControls controls index) = List.length controls.
Proof.
  induction controls as [|c controls IH]; intros index; simpl; [reflexivity|].
  now rewrite IH.
Qed.

Lemma extractPDFFormFields_ids loaded fs :
  extractPDFFormFields loaded = Some fs -> idsContiguous fs.
Proof.
  unfold extractPDFFormFields. intros H.
  destruct loaded as [[|c controls]|]; try discriminate.
  injection H as <-.
  change (idsContiguous (mapControls (c :: controls) 0)).
  unfold idsContiguous, idsUpTo.
  now rewrite mapControls_ids, length_mapControls.
Qed.

Lemma fieldIdOf_inj n m : fieldIdOf n = fieldIdOf m -> n = m.
Proof.
  unfold fieldIdOf, showNat. intros H. injection H as H.
  change (NilEmpty.string_of_uint (Nat.to_uint n) =
          NilEmpty.string_of_uint (Nat.to_uint m)) in H.
  apply Unsigned.to_uint_inj.
  pose proof (NilEmpty.usu (Nat.to_uint n)) as Hn.
  pose proof (NilEmpty.usu (Nat.to_uint m)) as Hm.
  rewrite H in Hn. congruence.
Qed.

Lemma idsUpTo_NoDup n : List.NoDup (idsUpTo n).
Proof.
  unfold idsUpTo. apply Injective_map_NoDup.
  - intros a b. apply fieldIdOf_inj.
  - apply seq_NoDup.
Qed.

(** ** The second strategy *)

Lemma splitFrom_nonempty r : forall s skip atStart piece pre,
  splitFrom r skip atStart piece pre s <> [].
Proof.
  induction s as [|c s IH]; intros skip atStart piece pre; simpl.
  - discriminate.
  - destruct skip as [|skip]; [|apply IH].
    destruct (run r (pre, c :: s) Some) as [j|]; [|apply IH].
    destruct (S (List.length s) - List.length (snd j)) as [|n]; [|discriminate].
    destruct atStart; [apply IH | discriminate].
Qed.

Lemma split_spaces_nonempty s : split reSpaces s <> [].
Proof.
  unfold split. destruct (chars s) as [|c l]; [discriminate|].
  intros H. apply map_eq_nil in H. now apply splitFrom_nonempty in H.
Qed.

(** The pieces of a line are strings: looking a label up among them
    throws at the first piece. *)
Lemma findCoordinates_among_pieces label line :
  findCoordinatesForLabel label (map WordStr (split reSpaces line)) =
  Throw (TypeError "Cannot read properties of undefined (reading 'toLowerCase')").
Proof.
  pose proof (split_spaces_nonempty line) as Hl.
  pose proof (split_spaces_nonempty (toLowerCase label)) as Hw.
  unfold findCoordinatesForLabel.
  destruct (split reSpaces line) as [|w ws]; [contradiction|]. simpl.
  destruct (split reSpaces (toLowerCase label)) as [|lw lws]; [contradiction|].
  reflexivity.
Qed.

(** Hence the second strategy never contributes a field: on every line
    it leaves the accumulated fields as they were, or it throws. *)
Lemma strategy2Types_adds_nothing line index : forall table st st',
  strategy2Types table st line index = Ok st' -> st' = st.
Proof.
  induction table as [|[ty pattern] table IH]; intros st st' H; simpl in H.
  - now injection H as <-.
  - destruct st as [fs found].
    destruct (test pattern line); [|eauto].
    destruct (match0 pattern line); [|eauto].
    match type of H with (if ?b then _ else _) = _ => destruct b end; [|eauto].
    rewrite findCoordinates_among_pieces in H. discriminate.
Qed.

Lemma strategy2_adds_nothing st line index st' :
  strategy2 st line index = Ok st' -> st' = st.
Proof.
  unfold strategy2. destruct (_ || _); [now intros [= <-]|].
  apply strategy2Types_adds_nothing.
Qed.

End OcrFacts.

Module IndicatorFacts.
Import RegexFacts.

Lemma test_ending_last p s :
  test (Seq (AtLeast 1 (Chr p)) Eol) s =
  match lastChar s with Some c => p c | None => false end.
Proof.
  apply eq_true_iff_eq. rewrite test_ending. unfold lastChar. split.
  - intros (a & c & -> & Hc). now rewrite rev_app_distr.
  - destruct (rev (chars s)) as [|c l] eqn:E; simpl; [discriminate|].
    intros Hc. exists (rev l), c. split; [|assumption].
    rewrite <- (rev_involutive (chars s)), E. reflexivity.
Qed.

Lemma existsb_weaken (p q : ascii -> bool) l :
  (forall c, p c = true -> q c = true) ->
  existsb p l = true -> existsb q l = true.
Proof.
  intros Hpq. rewrite !existsb_exists. intros (c & Hin & Hc). eauto.
Qed.

Lemma byDesign_indicator c : oneOf ":_[]()" c = true -> indicatorSet c = true.
Proof.
  by_cases c; intros H; first [reflexivity | discriminate H].
Qed.

Lemma ending_indicator c :
  endingSet c = true -> Ascii.eqb c "-" = true \/ indicatorSet c = true.
Proof.
  by_cases c; intros H;
    first [left; reflexivity | right; reflexivity | discriminate H].
Qed.

Lemma underscore_indicator c : Ascii.eqb "_" c = true -> indicatorSet c = true.
Proof. intros H. apply Ascii.eqb_eq in H. now subst c. Qed.

Lemma dot_indicator c : Ascii.eqb "." c = true -> indicatorSet c = true.
Proof. intros H. apply Ascii.eqb_eq in H. now subst c. Qed.

Lemma hasFieldIndicator_spec line :
  hasFieldIndicator line = existsb indicatorSet (chars line).
Proof. apply test_Chr. Qed.

Lemma lastChar_member line c :
  lastChar line = Some c -> In c (chars line).
Proof.
  unfold lastChar. intros H. apply in_rev.
  destruct (rev (chars line)); [discriminate|]. injection H as ->. now left.
Qed.

(** Without a member of the indicator set and without a final dash,
    none of the four tests holds. *)
Lemma no_indicator line :
  existsb indicatorSet (chars line) = false -> endsWith "-" line = false ->
  hasFieldIndicator line || hasFieldEnding line = false.
Proof.
  intros Hnone Hdash. rewrite hasFieldIndicator_spec, Hnone. simpl.
  unfold hasFieldEnding.
  assert (test reEnding line = false) as ->.
  { unfold reEnding. rewrite test_ending_last.
    unfold endsWith in Hdash.
    destruct (lastChar line) as [c|] eqn:E; [|reflexivity].
    destruct (endingSet c) eqn:Hc; [|reflexivity].
    apply ending_indicator in Hc. destruct Hc as [Hc|Hc]; [congruence|].
    apply lastChar_member in E.
    assert (existsb indicatorSet (chars line) = true) by
      (apply existsb_exists; eauto).
    congruence. }
  assert (test reUnderscores line = false) as ->.
  { destruct (test reUnderscores line) eqn:E; [|reflexivity].
    apply test_atLeast_member in E.
    apply (existsb_weaken _ indicatorSet) in E; [congruence|].
    apply underscore_indicator. }
  destruct (test reDots line) eqn:E; [|reflexivity].
  apply test_atLeast_member in E.
  apply (existsb_weaken _ indicatorSet) in E; [congruence|].
  apply dot_indicator.
Qed.

Lemma isPrefix_spec : forall p l,
  isPrefix p l = true -> exists b, l = p ++ b.
Proof.
  induction p as [|c p IH]; intros l H; simpl in H.
  - exists l. reflexivity.
  - destruct l as [|d l]; [discriminate|].
    apply andb_true_iff in H. destruct H as [Hc Hp].
    apply Ascii.eqb_eq in Hc. subst d.
    destruct (IH _ Hp) as (b & ->). exists b. reflexivity.
Qed.

Lemma includesChars_spec p : forall l,
  includesChars l p = true -> exists a b, l = a ++ p ++ b.
Proof.
  induction l as [|c l IH]; simpl; intros H.
  - rewrite orb_false_r in H. apply isPrefix_spec in H.
    destruct H as (b & ->). exists [], b. reflexivity.
  - apply orb_true_iff in H. destruct H as [H|H].
    + apply isPrefix_spec in H. destruct H as (b & ->). exists [], b. reflexivity.
    + destruct (IH H) as (a & b & ->). exists (c :: a), b. reflexivity.
Qed.

Lemma three_dots line : includes line "..." = true -> test reDots line = true.
Proof.
  unfold includes. intros H. apply includesChars_spec in H.
  destruct H as (a & b & Hs). apply test_spec.
  exists a, (chars "..." ++ b), (rev (chars "...") ++ rev a, b).
  split; [assumption|].
  apply (atLeast_Chr_intro (Ascii.eqb ".") 3 (chars "...") (rev a) b);
    [simpl; lia | reflexivity].
Qed.

Lemma with_indicator line :
  existsb (oneOf ":_[]()") (chars line) = true
  \/ endsWithAny ":-_." line = true
  \/ includes line "..." = true ->
  hasFieldIndicator line || hasFieldEnding line = true.
Proof.
  intros [H|[H|H]].
  - rewrite hasFieldIndicator_spec.
    now rewrite (existsb_weaken _ _ _ byDesign_indicator H).
  - unfold hasFieldEnding, reEnding. rewrite test_ending_last.
    unfold endsWithAny in H. unfold endingSet. rewrite H. apply orb_true_r.
  - unfold hasFieldEnding. rewrite (three_dots _ H).
    now rewrite !orb_true_r.
Qed.

Lemma strategy1_skips words st line index :
  proceeds line = false -> strategy1 words st line index = Ok st.
Proof.
  unfold proceeds, strategy1. destruct st as [fs found].
  destruct (_ || _); [reflexivity|]. simpl.
  now intros ->.
Qed.

End IndicatorFacts.


(* ===================================================================== *)
(** * Facts about the session store and the chat handler *)
(* ===================================================================== *)

Module SessionFacts.
Import Routes.

Lemma update_unknown sid f (store : gmap string Session) :
  store !! sid = None -> update sid f store = store.
Proof. unfold update. now intros ->. Qed.

Lemma update_known sid f (store : gmap string Session) s :
  store !! sid = Some s -> update sid f store = <[sid := f s]> store.
Proof. unfold update. now intros ->. Qed.

Lemma update_insert sid f (store : gmap string Session) s :
  update sid f (<[sid := s]> store) = <[sid := f s]> store.
Proof.
  rewrite (update_known _ _ _ s) by apply lookup_insert_eq.
  apply insert_insert_eq.
Qed.

Lemma truthy_nonempty s : s <> "" -> truthy s = true.
Proof. destruct s; [congruence | reflexivity]. Qed.

Section Step.
Variable askModel : Session -> option string -> option Response.
Variables (t1 t2 : nat) (sid msg : string).
Variables (store : gmap string Session) (session : Session) (field : FormField).
Hypothesis Hsid : sid <> "".
Hypothesis Hmsg : msg <> "".
Hypothesis Hs : getSession sid store = Some session.
Hypothesis Hf :
  nth_error (fields (formSchema session)) (currentFieldIndex session) = Some field.

Let fs := fields (formSchema session).
Let v := validateFieldValue (type field) msg.

(** A rejected answer: only the history grows. *)
Lemma chat_invalid :
  valid v = false ->
  chat true askModel t1 t2 sid msg store =
    (Body (retryResponse v field),
     <[sid := {| sessionId := sessionId session;
                 formSchema := formSchema session;
                 filledFields := filledFields session;
                 conversationHistory :=
                   (conversationHistory session ++ [userTurn t1 msg])
                     ++ [assistantTurn t2 (retryResponse v field)];
                 currentFieldIndex := currentFieldIndex session;
                 isComplete := isComplete session;
                 createdAt := createdAt session;
                 originalFilePath := originalFilePath session |}]> store).
Proof.
  intros Hv. unfold chat.
  rewrite (truthy_nonempty _ Hsid), (truthy_nonempty _ Hmsg). cbn [negb orb].
  rewrite Hs, Hf. fold v. rewrite Hv. cbn [negb].
  unfold getSession in Hs. unfold addMessage.
  rewrite (update_known _ _ _ _ Hs).
  now rewrite update_insert.
Qed.

(** An accepted answer: it is recorded under the field's id, the
    cursor moves on by one, and the session is marked complete when
    the cursor has reached the number of fields. *)
Lemma chat_valid :
  valid v = true ->
  exists reply history,
    chat true askModel t1 t2 sid msg store =
      (reply,
       <[sid := {| sessionId := sessionId session;
                   formSchema := formSchema session;
                   filledFields := <[id field := msg]> (filledFields session);
                   conversationHistory := history;
                   currentFieldIndex := currentFieldIndex session + 1;
                   isComplete :=
                     if List.length fs <=? currentFieldIndex session + 1
                     then true else isComplete session;
                   createdAt := createdAt session;
                   originalFilePath := originalFilePath session |}]> store).
Proof.
  intros Hv. unfold chat.
  rewrite (truthy_nonempty _ Hsid), (truthy_nonempty _ Hmsg). cbn [negb orb].
  rewrite Hs, Hf. fold v. rewrite Hv. cbn [negb]. fold fs.
  unfold getSession in Hs.
  unfold nextQuestion, addMessage, updateField, setCurrentFieldIndex, markComplete.
  rewrite (update_known _ _ _ _ Hs).
  rewrite ?update_insert.
  cbn [sessionId formSchema filledFields conversationHistory
       currentFieldIndex isComplete createdAt originalFilePath].
  destruct (List.length fs <=? currentFieldIndex session + 1).
  - rewrite ?update_insert.
    cbn [sessionId formSchema filledFields conversationHistory
         currentFieldIndex isComplete createdAt originalFilePath].
    eauto.
  - unfold getSession. rewrite lookup_insert_eq.
    rewrite ?update_insert.
    cbn [sessionId formSchema filledFields conversationHistory
         currentFieldIndex isComplete createdAt originalFilePath].
    eauto.
Qed.

Lemma chat_valid_post :
  valid v = true ->
  exists session',
    snd (chat true askModel t1 t2 sid msg store) = <[sid := session']> store
    /\ formSchema session' = formSchema session
    /\ filledFields session' = <[id field := msg]> (filledFields session)
    /\ currentFieldIndex session' = currentFieldIndex session + 1
    /\ isComplete session' =
         (if List.length fs <=? currentFieldIndex session + 1
          then true else isComplete session).
Proof.
  intros Hv. destruct (chat_valid Hv) as (reply & history & ->).
  eexists. split; [reflexivity|]. repeat split.
Qed.
End Step.

End SessionFacts.

(* ===================================================================== *)
(** * Facts about the fill engine *)
(* ===================================================================== *)

Module PdfFacts.
Import Pdf.

Lemma preserves_ret {A} (a : A) : preserves (ret a).
Proof. intros h. now split. Qed.

Lemma preserves_throw {A} e : preserves (@throw A e).
Proof. intros h. now split. Qed.

Lemma preserves_bind {A B} (m : M A) (f : A -> M B) :
  preserves m -> (forall a, preserves (f a)) -> preserves (mbind m f).
Proof.
  intros Hm Hf h. unfold mbind. specialize (Hm h).
  destruct (m h) as [[a|e] h']; simpl in *.
  - destruct (Hf a h') as [H1 H2]. destruct Hm as [H3 H4].
    split; congruence.
  - assumption.
Qed.

Lemma preserves_tryCatch {A} (m handler : M A) :
  preserves m -> preserves handler -> preserves (tryCatch m handler).
Proof.
  intros Hm Hh h. unfold tryCatch. specialize (Hm h).
  destruct (m h) as [[a|e] h']; simpl in *.
  - assumption.
  - destruct (Hh h') as [H1 H2]. destruct Hm as [H3 H4].
    split; congruence.
Qed.

Lemma preserves_setDoc d : preserves (setDoc d).
Proof. intros h. now split. Qed.

Lemma preserves_readFields : preserves readFields.
Proof. intros h. now split. Qed.
Lemma preserves_readImageWidth : preserves readImageWidth.
Proof. intros h. now split. Qed.
Lemma preserves_readImageHeight : preserves readImageHeight.
Proof. intros h. now split. Qed.
Lemma preserves_readValue key : preserves (readValue key).
Proof. intros h. now split. Qed.
Lemma preserves_readControls : preserves readControls.
Proof. intros h. now split. Qed.
Lemma preserves_readPage : preserves readPage.
Proof. intros h. now split. Qed.

Create HintDb frame.

Section Engine.
Variable opThrows : DocOp -> bool.
Variable widthOfTextAtSize : Font -> string -> Q -> Q.

Lemma preserves_call op : preserves (call opThrows op).
Proof. intros h. unfold call. destruct (opThrows op); now split. Qed.

#[local] Hint Resolve preserves_ret preserves_throw preserves_setDoc
  preserves_readFields preserves_readImageWidth preserves_readImageHeight
  preserves_readValue preserves_readControls preserves_readPage
  preserves_call : frame.

Ltac frame :=
  repeat first
    [ apply preserves_bind; [|intros ?]
    | apply preserves_tryCatch
    | progress auto with frame
    | match goal with
      | |- preserves (match ?x with _ => _ end) => destruct x
      | |- preserves (if ?b then _ else _) => destruct b
      | |- preserves (let '(_, _) := ?x in _) => destruct x
      end ].

Lemma preserves_forEachField f :
  (forall field index, preserves (f field index)) ->
  forall l index, preserves (forEachField f l index).
Proof.
  intros Hf. induction l as [|field l IH]; intros index; simpl.
  - apply preserves_ret.
  - apply preserves_bind; [apply Hf | intros _; apply IH].
Qed.

Lemma preserves_fillControl pdfField v : preserves (fillControl opThrows pdfField v).
Proof. unfold fillControl. frame. Qed.

Lemma preserves_fillInteractiveField formFields field index :
  preserves (fillInteractiveField opThrows formFields field index).
Proof.
  unfold fillInteractiveField. frame. apply preserves_fillControl.
Qed.

Lemma preserves_fillInteractivePDFForm : preserves (fillInteractivePDFForm opThrows).
Proof.
  unfold fillInteractivePDFForm. frame.
  apply preserves_forEachField. intros. apply preserves_fillInteractiveField.
Qed.

Lemma preserves_fillScannedField pageW pageH field index :
  preserves (fillScannedField opThrows widthOfTextAtSize pageW pageH field index).
Proof. unfold fillScannedField. frame. Qed.

Lemma preserves_fillScannedForm :
  preserves (fillScannedForm opThrows widthOfTextAtSize).
Proof.
  unfold fillScannedForm. frame.
  apply preserves_forEachField. intros. apply preserves_fillScannedField.
Qed.

Lemma preserves_generateFilledPDF src now outputPath :
  preserves (generateFilledPDF opThrows widthOfTextAtSize src now outputPath).
Proof.
  unfold generateFilledPDF. frame;
    apply preserves_forEachField; intros;
    first [apply preserves_fillInteractiveField | apply preserves_fillScannedField].
Qed.

(** The draws of one field of the overlay are all at its draw
    position. *)
Lemma fillScannedField_draws pageW pageH field index h :
  let out := fillScannedField opThrows widthOfTextAtSize pageW pageH field index h in
  let pos := drawPosition (imageWidth (h_schema h)) (imageHeight (h_schema h))
               pageW pageH field index in
  exists news,
    d_log (h_doc (snd out)) = d_log (h_doc h) ++ news
    /\ Forall (fun op => positionOf op = Some pos) news.
Proof.
  cbv zeta. unfold fillScannedField, mbind, readValue, readImageWidth,
    readImageHeight, ret, call.
  destruct (h_values h !! id field) as [v|]; simpl;
    [|exists []; rewrite app_nil_r; auto].
  destruct (truthy v); simpl; [|exists []; rewrite app_nil_r; auto].
  destruct (drawPosition _ _ pageW pageH field index) as [xPos yPos].
  destruct (type field);
    repeat match goal with
           | |- context [if ?b then _ else _] => destruct b; simpl
           end;
    first [ exists []; rewrite app_nil_r; split; [reflexivity | constructor]
          | eexists [_]; split; [reflexivity | repeat constructor] ].
Qed.
End Engine.

Lemma orElse_unknown o b : unknown o -> orElse o b = b.
Proof. intros [-> | ->]; reflexivity. Qed.

End PdfFacts.

(* ===================================================================== *)
(** * The claims *)
(* ===================================================================== *)

Import OcrFacts IndicatorFacts.
Import Routes SessionFacts.
Import Pdf PdfFacts.

(** C1 (amended).  With the question generator configured, for a session
    in state Collecting and a non-empty raw answer, one [POST /chat]
    request behaves as follows.  If the answer fails validation for the
    field at the cursor, the cursor, the recorded values and the
    completion flag are unchanged (so complete stays false), the reply is
    the re-prompt for that same field made of the validator's message,
    and the history gains the answer and the re-prompt, in this order.
    If the answer passes validation, it is recorded under the id of the
    current field and the cursor grows by exactly one, the session being
    complete afterwards exactly when the new cursor equals the number of
    fields.  In particular, from cursor 0 with three fields, three valid
    non-empty answers move the cursor 0, 1, 2, 3 and the session becomes
    complete on the third. *)
Theorem chat_transition (askModel : Session -> option string -> option Response) :
  (forall (t1 t2 : nat) (sid msg : string) (store : gmap string Session)
          (session : Session) (field : FormField),
      sid <> "" -> msg <> "" ->
      getSession sid store = Some session ->
      Collecting session ->
      nth_error (fields (formSchema session)) (currentFieldIndex session) = Some field ->
      let v := validateFieldValue (type field) msg in
      let out := chat true askModel t1 t2 sid msg store in
      exists session',
        getSession sid (snd out) = Some session'
        /\ formSchema session' = formSchema session
        /\ (valid v = false ->
            currentFieldIndex session' = currentFieldIndex session
            /\ filledFields session' = filledFields session
            /\ isComplete session' = false
            /\ fst out = Body (retryResponse v field)
            /\ fieldId (retryResponse v field) = Some (id field)
            /\ question (retryResponse v field) =
                 message v +:+ ". Please try again: " +:+ label field
            /\ conversationHistory session' =
                 conversationHistory session ++
                   [userTurn t1 msg; assistantTurn t2 (retryResponse v field)])
        /\ (valid v = true ->
            filledFields session' = <[id field := msg]> (filledFields session)
            /\ currentFieldIndex session' = currentFieldIndex session + 1
            /\ (isComplete session' = true <->
                currentFieldIndex session' =
                  List.length (fields (formSchema session)))))
  /\ (forall (t1 t2 t3 t4 t5 t6 : nat) (sid a1 a2 a3 : string)
             (store : gmap string Session) (session : Session)
             (f1 f2 f3 : FormField),
        sid <> "" -> a1 <> "" -> a2 <> "" -> a3 <> "" ->
        getSession sid store = Some session ->
        fields (formSchema session) = [f1; f2; f3] ->
        currentFieldIndex session = 0 -> isComplete session = false ->
        valid (validateFieldValue (type f1) a1) = true ->
        valid (validateFieldValue (type f2) a2) = true ->
        valid (validateFieldValue (type f3) a3) = true ->
        let store1 := snd (chat true askModel t1 t2 sid a1 store) in
        let store2 := snd (chat true askModel t3 t4 sid a2 store1) in
        let store3 := snd (chat true askModel t5 t6 sid a3 store2) in
        exists s1 s2 s3,
          getSession sid store1 = Some s1
          /\ getSession sid store2 = Some s2
          /\ getSession sid store3 = Some s3
          /\ currentFieldIndex s1 = 1 /\ isComplete s1 = false
          /\ currentFieldIndex s2 = 2 /\ isComplete s2 = false
          /\ currentFieldIndex s3 = 3 /\ isComplete s3 = true).
Proof.
  split.
  - intros t1 t2 sid msg store session field Hsid Hmsg Hs [Hlt Hinc] Hf v out.
    destruct (valid v) eqn:Hv.
    + destruct (chat_valid askModel t1 t2 sid msg store session field
                  Hsid Hmsg Hs Hf Hv) as (reply & history & Hchat).
      subst out. rewrite Hchat. simpl. eexists. split.
      { unfold getSession. apply lookup_insert_eq. }
      simpl. split; [reflexivity|]. split; [discriminate|].
      intros _. split; [reflexivity|]. split; [reflexivity|].
      rewrite Hinc.
      destruct (List.length (fields (formSchema session))
                <=? currentFieldIndex session + 1) eqn:E.
      * apply Nat.leb_le in E. split; [lia | reflexivity].
      * apply Nat.leb_gt in E. split; [discriminate | lia].
    + pose proof (chat_invalid askModel t1 t2 sid msg store session field
                    Hsid Hmsg Hs Hf Hv) as Hchat.
      subst out. fold v in Hchat. rewrite Hchat. simpl. eexists. split.
      { unfold getSession. apply lookup_insert_eq. }
      simpl. split; [reflexivity|]. split; [|discriminate].
      intros _. repeat split; try assumption.
      now rewrite <- app_assoc.
  - intros t1 t2 t3 t4 t5 t6 sid a1 a2 a3 store session f1 f2 f3
           Hsid Ha1 Ha2 Ha3 Hs Hfs Hcur Hinc Hv1 Hv2 Hv3. cbv zeta.
    destruct (chat_valid_post askModel t1 t2 sid a1 store session f1
                Hsid Ha1 Hs ltac:(now rewrite Hfs, Hcur) Hv1)
      as (s1 & -> & Hsch1 & _ & Hcur1 & Hc1).
    assert (getSession sid (<[sid := s1]> store) = Some s1) as Hs1
      by apply lookup_insert_eq.
    destruct (chat_valid_post askModel t3 t4 sid a2 _ s1 f2
                Hsid Ha2 Hs1 ltac:(now rewrite Hsch1, Hfs, Hcur1, Hcur) Hv2)
      as (s2 & -> & Hsch2 & _ & Hcur2 & Hc2).
    assert (getSession sid (<[sid := s2]> (<[sid := s1]> store)) = Some s2) as Hs2
      by apply lookup_insert_eq.
    destruct (chat_valid_post askModel t5 t6 sid a3 _ s2 f3
                Hsid Ha3 Hs2
                ltac:(now rewrite Hsch2, Hsch1, Hfs, Hcur2, Hcur1, Hcur) Hv3)
      as (s3 & -> & Hsch3 & _ & Hcur3 & Hc3).
    exists s1, s2, s3.
    split; [exact Hs1|]. split; [exact Hs2|].
    split; [apply lookup_insert_eq|].
    rewrite Hfs, Hcur, Hinc in Hc1. simpl in Hc1.
    rewrite Hsch1, Hfs, Hcur1, Hcur, Hc1 in Hc2. simpl in Hc2.
    rewrite Hsch2, Hsch1, Hfs, Hcur2, Hcur1, Hcur in Hc3. simpl in Hc3.
    rewrite Hcur3, Hcur2, Hcur1, Hcur. repeat split; assumption.
Qed.

Lemma chat_transition_witness :
  exists session',
    getSession "s1" (snd (chat true noModel 1 2 "s1" "Ada" exampleStore)) = Some session'
    /\ currentFieldIndex session' = 1
    /\ filledFields session' = <["field_1" := "Ada"]> ∅.
Proof.
  destruct (proj1 (chat_transition noModel) 1 2 "s1" "Ada" exampleStore
              exampleSession exampleSession_field)
    as (session' & Hget & _ & _ & Hvalid).
  - discriminate.
  - discriminate.
  - reflexivity.
  - split; [vm_compute; lia | reflexivity].
  - reflexivity.
  - exists session'. split; [exact Hget|].
    destruct (Hvalid eq_refl) as (Hvals & Hcur & _). split; [exact Hcur | exact Hvals].
Defined.

(** C1, as stated, fails on the empty answer: it is an answer that fails
    validation for the field at the cursor, yet the request is refused
    with status 400 before the session is looked at; no re-prompt is
    sent and the history is left as it was. *)
Lemma chat_empty_answer_counterexample :
  getSession "s1" exampleStore = Some exampleSession
  /\ Collecting exampleSession
  /\ valid (validateFieldValue t_name "") = false
  /\ nth_error (fields (formSchema exampleSession)) (currentFieldIndex exampleSession)
     = Some exampleSession_field
  /\ chat true noModel 1 2 "s1" "" exampleStore
     = (Status 400 "Session ID and message are required", exampleStore)
  /\ (forall r, fst (chat true noModel 1 2 "s1" "" exampleStore) <> Body r).
Proof.
  split; [reflexivity|]. split; [split; [vm_compute; lia | reflexivity]|].
  repeat split. intros r. discriminate.
Qed.

(** C2.  Whenever the two detection passes end with no field, on any
    text and any list of word boxes, [detectFormFields] returns the fixed
    generic schema: five fields of types name, email, phone, address,
    date, in this order, with ids [field_1] to [field_5]. *)
Theorem zero_fields_give_generic (text : string) (words : list Word)
  (found : gset string) (H : detectPasses text words = Ok ([], found)) :
  detectFormFields text words = Ok genericFields
  /\ map type genericFields = [t_name; t_email; t_phone; t_address; t_date]
  /\ map id genericFields = ["field_1"; "field_2"; "field_3"; "field_4"; "field_5"].
Proof.
  unfold detectFormFields. rewrite H. simpl. repeat split.
Qed.

Lemma zero_fields_give_generic_witness :
  detectFormFields "hello" [] = Ok genericFields
  /\ map type genericFields = [t_name; t_email; t_phone; t_address; t_date]
  /\ map id genericFields = ["field_1"; "field_2"; "field_3"; "field_4"; "field_5"].
Proof.
  apply (zero_fields_give_generic "hello" [] ∅). vm_compute. reflexivity.
Defined.

(** C3.  Whatever the upload (image or PDF, interactive form or not,
    generic schema or detected fields), the schema [processForm] returns
    has the ids [field_1], ..., [field_n] in list order, hence without
    gap or repetition. *)
Theorem ids_are_contiguous (u : Upload) (schema : FormSchema)
  (H : processForm u = Ok schema) :
  map id (fields schema) = idsUpTo (List.length (fields schema))
  /\ List.NoDup (map id (fields schema)).
Proof.
  assert (idsContiguous (fields schema)) as Hids.
  { unfold processForm in H.
    assert (forall text words w h, textSchema text words w h = Ok schema ->
                                   idsContiguous (fields schema)) as Htext.
    { intros text words w h Ht. unfold textSchema, bind in Ht.
      destruct (detectFormFields text words) as [fs|] eqn:E; [|discriminate].
      injection Ht as <-. simpl. eapply detectFormFields_ids; eauto. }
    destruct (includes (mimeType u) "pdf").
    - destruct (extractPDFFormFields (pdfControls u)) as [[|f fs]|] eqn:E.
      + destruct (pdfText u); [eauto | discriminate].
      + injection H as <-. simpl. eapply extractPDFFormFields_ids; eauto.
      + destruct (pdfText u); [eauto | discriminate].
    - destruct (includes (mimeType u) "image"); [|discriminate].
      destruct (ocr u); [eauto | discriminate]. }
  split; [exact Hids|]. rewrite Hids. apply idsUpTo_NoDup.
Qed.

Lemma ids_are_contiguous_witness :
  map id (mapControls exampleControls 0) = idsUpTo 2
  /\ List.NoDup (map id (mapControls exampleControls 0)).
Proof.
  exact (ids_are_contiguous
           {| mimeType := "application/pdf";
              pdfControls := Some exampleControls;
              pdfText := None; ocr := None |}
           {| extractedText := "Interactive PDF Form";
              fields := mapControls exampleControls 0;
              totalFields := 2; imageWidth := None;
              imageHeight := None; isPDFForm := true |}
           ltac:(vm_compute; reflexivity)).
Defined.

(** C4 (failing input).  [(555) 1234] has seven digits and is accepted
    as a phone number: the pattern counts the units of the answer, of
    which digits are one kind among others. *)
Theorem phone_accepts_seven_digits :
  countDigits "(555) 1234" = 7
  /\ validateFieldValue t_phone "(555) 1234" = {| valid := true; message := "Valid" |}
  /\ countDigits "----------" = 0
  /\ valid (validateFieldValue t_phone "----------") = true.
Proof. repeat split. Qed.

(** C5.  An empty or white-space-only answer is invalid for every field
    type, with the reason that the field cannot be empty; [a@b.com] is a
    valid email and [not-an-email] is not; a type other than email,
    phone, date and ssn accepts every answer that is not blank. *)
Theorem validation_blank_and_free_types (ty : FieldType) (v : string) :
  (isBlank v = true ->
   validateFieldValue ty v =
     {| valid := false; message := "This field cannot be empty" |})
  /\ valid (validateFieldValue ty "") = false
  /\ valid (validateFieldValue t_email "a@b.com") = true
  /\ valid (validateFieldValue t_email "not-an-email") = false
  /\ (hasPattern ty = false -> isBlank v = false ->
      valid (validateFieldValue ty v) = true).
Proof.
  split; [apply validate_blank|].
  split; [now rewrite validate_blank|].
  split; [reflexivity|]. split; [reflexivity|].
  intros Hty Hv. rewrite validate_not_blank by assumption.
  now destruct ty.
Qed.

Lemma validation_blank_and_free_types_witness :
  validateFieldValue t_date "   " =
    {| valid := false; message := "This field cannot be empty" |}
  /\ valid (validateFieldValue t_name "x y") = true.
Proof.
  split.
  - apply (proj1 (validation_blank_and_free_types t_date "   ")). reflexivity.
  - apply (proj2 (proj2 (proj2 (proj2
             (validation_blank_and_free_types t_name "x y"))))); reflexivity.
Defined.

(** C6 (amended).  In the first strategy, a line of length 2 to 150
    proceeds to label extraction whenever it contains a colon, an
    underscore, a square bracket or a parenthesis, or ends with a colon,
    a dash, an underscore or a dot, or contains three dots in a row; a
    line with none of these and with no dot, white space, brace, comma or
    digit 2 does not proceed and yields no field: the accumulated fields
    are returned as they were. *)
Theorem primary_pass_guard (words : list wordArg) (st : acc) (line : string)
  (index : nat) (Hlen : 2 <= String.length line <= 150) :
  (existsb (oneOf ":_[]()") (chars line) = true
   \/ endsWithAny ":-_." line = true
   \/ includes line "..." = true ->
   proceeds line = true)
  /\ (existsb indicatorSet (chars line) = false -> endsWith "-" line = false ->
      proceeds line = false /\ strategy1 words st line index = Ok st).
Proof.
  assert ((String.length line <? 2) || (150 <? String.length line) = false) as Hl.
  { apply orb_false_iff. split; apply Nat.ltb_ge; lia. }
  split.
  - intros H. unfold proceeds. rewrite Hl. simpl. now apply with_indicator.
  - intros Hnone Hdash.
    assert (proceeds line = false) as Hp.
    { unfold proceeds. rewrite Hl. simpl. now apply no_indicator. }
    split; [exact Hp | now apply strategy1_skips].
Qed.

Lemma primary_pass_guard_witness :
  proceeds "Name:" = true /\
  (proceeds "Name" = false /\ strategy1 [] ([], ∅) "Name" 0 = Ok ([], ∅)).
Proof.
  split.
  - apply (proj1 (primary_pass_guard [] ([], ∅) "Name:" 0
                    ltac:(vm_compute; lia))).
    left. reflexivity.
  - apply (proj2 (primary_pass_guard [] ([], ∅) "Name" 0
                    ltac:(vm_compute; lia)));
      reflexivity.
Defined.

(** C6, as stated, fails on the line [Name.]: it has no colon, underscore,
    bracket or parenthesis and no trailing run of three dots, dashes or
    underscores, and still proceeds to label extraction and yields the
    field labelled [Name]. *)
Lemma primary_pass_counterexample :
  specIndicator "Name." = false /\ proceeds "Name." = true /\
  exists f found,
    strategy1 [] ([], ∅) "Name." 0 = Ok ([f], found) /\
    label f = "Name" /\ type f = t_name.
Proof.
  split; [reflexivity|]. split; [reflexivity|].
  eexists. eexists. split; [vm_compute; reflexivity|]. split; reflexivity.
Qed.

(** C7 (failing input).  On the two-line scenario the extractor returns
    no schema: the first strategy records the labels [Full] and [Email]
    (the text before the first white space), and the second strategy,
    run because fewer than five fields were found, throws a [TypeError]
    when it looks for the coordinates of its first new label among the
    pieces of the line. *)
Theorem scenario_throws :
  (exists st,
      forEach (strategy1 []) (linesOf scenarioText) 0 ([], ∅) = Ok st
      /\ map label (fst st) = ["Full"; "Email"]
      /\ map type (fst st) = [t_name; t_email])
  /\ detectFormFields scenarioText [] =
       Throw (TypeError "Cannot read properties of undefined (reading 'toLowerCase')").
Proof.
  split.
  - eexists. split; [vm_compute; reflexivity|]. split; reflexivity.
  - vm_compute. reflexivity.
Qed.

(** C8.  For a field that carries coordinates, the overlay draws at
    [x = inputX * (pageWidth / sourceWidth)] and
    [y = pageHeight - inputY * (pageHeight / sourceHeight)]; every draw of
    the field is at that position.  With source 1000 by 2000 and page 612
    by 792, a source point with y = 50 goes to
    [792 - 50 * (792 / 2000)] and x is scaled by [612 / 1000].  When the
    source dimensions are unknown, the page's own dimensions stand for
    them and the scale is the identity. *)
Theorem overlay_position (opThrows : DocOp -> bool)
  (widthOfTextAtSize : Font -> string -> Q -> Q)
  (imgW imgH : option Z) (pageW pageH : Q) (field : FormField) (index : nat)
  (c : Coordinates) (Hc : coordinates field = Some c) :
  let scaleX := (pageW / orElse imgW pageW)%Q in
  let scaleY := (pageH / orElse imgH pageH)%Q in
  let pos := drawPosition imgW imgH pageW pageH field index in
  pos = (inject_Z (inputX c) * scaleX, pageH - inject_Z (inputY c) * scaleY)%Q
  /\ (forall h, imageWidth (h_schema h) = imgW -> imageHeight (h_schema h) = imgH ->
        exists news,
          d_log (h_doc (snd (fillScannedField opThrows widthOfTextAtSize
                               pageW pageH field index h)))
            = d_log (h_doc h) ++ news
          /\ Forall (fun op => positionOf op = Some pos) news)
  /\ (imgW = Some 1000%Z -> imgH = Some 2000%Z -> pageW = 612%Q -> pageH = 792%Q ->
      inputY c = 50%Z ->
      (fst pos == inject_Z (inputX c) * (612 / 1000))%Q
      /\ (snd pos == 792 - 50 * (792 / 2000))%Q)
  /\ (unknown imgW -> unknown imgH -> ~ (pageW == 0)%Q -> ~ (pageH == 0)%Q ->
      (scaleX == 1)%Q /\ (scaleY == 1)%Q
      /\ (fst pos == inject_Z (inputX c))%Q
      /\ (snd pos == pageH - inject_Z (inputY c))%Q).
Proof.
  cbv zeta. unfold drawPosition. rewrite Hc.
  split; [reflexivity|]. split.
  - intros h <- <-.
    pose proof (fillScannedField_draws opThrows widthOfTextAtSize
                  pageW pageH field index h) as H.
    cbv zeta in H. unfold drawPosition in H. rewrite Hc in H. exact H.
  - split.
    + intros -> -> -> -> Hy. simpl. rewrite Hy. split; reflexivity.
    + intros Hw Hh HpW HpH.
      rewrite (orElse_unknown _ _ Hw), (orElse_unknown _ _ Hh). simpl.
      repeat split; field; assumption.
Qed.

Lemma overlay_position_witness :
  (snd (drawPosition (Some 1000%Z) (Some 2000%Z) 612 792 exampleBoxedField 0)
   == 792 - 50 * (792 / 2000))%Q.
Proof.
  exact (proj2 (proj1 (proj2 (proj2
    (overlay_position (fun _ => false) (fun _ _ _ => 0%Q)
       (Some 1000%Z) (Some 2000%Z) 612%Q 792%Q exampleBoxedField 0
       {| x := 0; y := 50; width := 90; height := 12; inputX := 100; inputY := 50 |}
       eq_refl))) eq_refl eq_refl eq_refl eq_refl eq_refl)).
Defined.

(** C9.  A fill leaves the caller's field schema and value map as they
    were, whatever the source, the strategy taken (interactive form or
    overlay) and the outcome (a document or a failure); and so does each
    of the two strategies run on its own. *)
Theorem fill_preserves_inputs (opThrows : DocOp -> bool)
  (widthOfTextAtSize : Font -> string -> Q -> Q)
  (src : Source) (now : nat) (outputPath : string)
  (schema : FormSchema) (values : gmap string string) :
  let out := fill opThrows widthOfTextAtSize src now outputPath schema values in
  (h_schema (snd out) = schema /\ h_values (snd out) = values)
  /\ preserves (fillInteractivePDFForm opThrows)
  /\ preserves (fillScannedForm opThrows widthOfTextAtSize).
Proof.
  cbv zeta. split; [|split].
  - unfold fill.
    apply (preserves_generateFilledPDF opThrows widthOfTextAtSize src now outputPath
             {| h_schema := schema; h_values := values; h_doc := emptyDoc |}).
  - apply preserves_fillInteractivePDFForm.
  - apply preserves_fillScannedForm.
Qed.

(** C10.  On a session id that is not in the store, each of the updating
    operations and the deletion returns the store as it was (none of them
    has an error outcome), and [getSession] returns null. *)
Theorem unknown_session_noop (store : gmap string Session) (sid : string)
  (H : store !! sid = None)
  (now index : nat) (fieldName v role filePath : string) (content : Content) :
  updateField sid fieldName v store = store
  /\ addMessage now sid role content store = store
  /\ setCurrentFieldIndex sid index store = store
  /\ markComplete sid store = store
  /\ setOriginalFilePath sid filePath store = store
  /\ deleteSession sid store = store
  /\ getSession sid store = None.
Proof.
  unfold updateField, addMessage, setCurrentFieldIndex, markComplete,
    setOriginalFilePath, deleteSession, getSession.
  rewrite !(update_unknown _ _ _ H), (delete_id _ _ H). repeat split. exact H.
Qed.

Lemma unknown_session_noop_witness :
  updateField "s2" "field_1" "Ada" exampleStore = exampleStore
  /\ addMessage 5 "s2" "user" (Text "Ada") exampleStore = exampleStore
  /\ setCurrentFieldIndex "s2" 1 exampleStore = exampleStore
  /\ markComplete "s2" exampleStore = exampleStore
  /\ setOriginalFilePath "s2" "uploads/a.pdf" exampleStore = exampleStore
  /\ deleteSession "s2" exampleStore = exampleStore
  /\ getSession "s2" exampleStore = None.
Proof.
  apply (unknown_session_noop exampleStore "s2"). vm_compute. reflexivity.
Defined.

(* ===================================================================== *)
(** * Further properties of the code *)
(* ===================================================================== *)

(* ===================================================================== *)
(** * Further facts: the session store *)
(* ===================================================================== *)

Module StoreFacts.



End StoreFacts.

Import StoreFacts.



(** X2.  Deleting a session removes it and no other; deleting it again
    changes nothing. *)
Theorem deleteSession_removes (store : gmap string Session) (sid : string) :
  getSession sid (deleteSession sid store) = None
  /\ (forall sid', sid' <> sid ->
        getSession sid' (deleteSession sid store) = getSession sid' store)
  /\ deleteSession sid (deleteSession sid store) = deleteSession sid store.
Proof.
  unfold getSession, deleteSession. split; [apply lookup_delete_eq|].
  split; [intros sid' Hne; now apply lookup_delete_ne|].
  apply delete_delete_eq.
Qed.

(** X3.  The hourly clean-up keeps exactly the sessions created less
    than one hour before the clock reading, each of them as it was; run
    again at the same reading it removes nothing more. *)
Theorem cleanup_keeps_recent (now : nat) (store : gmap string Session)
  (sid : string) :
  (forall s, getSession sid (cleanupOldSessions now store) = Some s <->
             getSession sid store = Some s /\ now - oneHour <= createdAt s)
  /\ cleanupOldSessions now (cleanupOldSessions now store)
     = cleanupOldSessions now store.
Proof.
  unfold getSession, cleanupOldSessions. split.
  - intros s. rewrite map_lookup_filter_Some. simpl. split.
    + intros [H1 H2]. split; [assumption | lia].
    + intros [H1 H2]. split; [assumption | lia].
  - apply map_eq. intros k. apply option_eq. intros s.
    rewrite !map_lookup_filter_Some. simpl. tauto.
Qed.

Lemma cleanup_keeps_recent_witness :
  getSession "s1" (cleanupOldSessions 1000 exampleStore) = Some exampleSession.
Proof.
  apply (proj1 (cleanup_keeps_recent 1000 exampleStore "s1") exampleSession).
  split; [vm_compute; reflexivity | vm_compute; lia].
Defined.

(* ===================================================================== *)
(** * Further facts: the chat handler *)
(* ===================================================================== *)

Module ChatFacts.

Lemma firstn_snoc {A} : forall (l : list A) n a,
  nth_error l n = Some a -> firstn (S n) l = firstn n l ++ [a].
Proof.
  induction l as [|b l IH]; intros [|n] a H; simpl in *; try discriminate.
  - now injection H as ->.
  - f_equal. now apply IH.
Qed.

Lemma nth_error_past {A} (l : list A) n :
  nth_error l n = None <-> List.length l <= n.
Proof. apply nth_error_None. Qed.

Section Step.
Variable askModel : Session -> option string -> option Response.
Variables (t1 t2 : nat) (sid msg : string).
Variables (store : gmap string Session) (session : Session).
Hypothesis Hsid : sid <> "".
Hypothesis Hmsg : msg <> "".
Hypothesis Hs : getSession sid store = Some session.

(** Past the last field, nothing is validated or recorded: the
    generator is asked and the exchange is added to the history. *)
Lemma chat_past_end :
  nth_error (fields (formSchema session)) (currentFieldIndex session) = None ->
  chat true askModel t1 t2 sid msg store =
    (Body (generateNextQuestion askModel (heard t1 msg session) (Some msg)),
     <[sid := {| sessionId := sessionId session;
                 formSchema := formSchema session;
                 filledFields := filledFields session;
                 conversationHistory :=
                   (conversationHistory session ++ [userTurn t1 msg])
                     ++ [assistantTurn t2
                           (generateNextQuestion askModel (heard t1 msg session) (Some msg))];
                 currentFieldIndex := currentFieldIndex session;
                 isComplete := isComplete session;
                 createdAt := createdAt session;
                 originalFilePath := originalFilePath session |}]> store).
Proof.
  intros Hf. unfold chat.
  rewrite (truthy_nonempty _ Hsid), (truthy_nonempty _ Hmsg). cbn [negb orb].
  rewrite Hs, Hf. unfold getSession in Hs.
  unfold nextQuestion, addMessage. rewrite (update_known _ _ _ _ Hs).
  unfold getSession. rewrite lookup_insert_eq.
  now rewrite update_insert.
Qed.
End Step.

(** The requests that are refused before the session is touched. *)
Lemma chat_refused apiConfigured askModel t1 t2 sid msg
  (store : gmap string Session) :
  sid = "" \/ msg = "" \/ apiConfigured = false \/ getSession sid store = None ->
  exists code err,
    chat apiConfigured askModel t1 t2 sid msg store = (Status code err, store).
Proof.
  intros H. unfold chat.
  destruct (truthy sid) eqn:Es; [|simpl; eauto].
  destruct (truthy msg) eqn:Em; [|simpl; eauto].
  destruct apiConfigured; [|simpl; eauto]. simpl.
  destruct (getSession sid store) eqn:Eg; [|eauto].
  destruct H as [->|[->|[H|H]]]; discriminate.
Qed.

(** One request as a change of the session it names: the history is
    extended, and either nothing else changes, or the answer is recorded
    under the current field and the cursor moves on by one. *)
Lemma chat_effect askModel t1 t2 sid msg (store : gmap string Session) session :
  sid <> "" -> msg <> "" -> getSession sid store = Some session ->
  exists reply session' more,
    chat true askModel t1 t2 sid msg store = (Body reply, <[sid := session']> store)
    /\ sessionId session' = sessionId session
    /\ formSchema session' = formSchema session
    /\ createdAt session' = createdAt session
    /\ originalFilePath session' = originalFilePath session
    /\ conversationHistory session' =
         conversationHistory session ++ userTurn t1 msg :: more
    /\ ((filledFields session' = filledFields session
         /\ currentFieldIndex session' = currentFieldIndex session
         /\ isComplete session' = isComplete session
         /\ more = [assistantTurn t2 reply]
         /\ (forall f, nth_error (fields (formSchema session))
                         (currentFieldIndex session) = Some f ->
                       valid (validateFieldValue (type f) msg) = false))
        \/ (exists f,
              nth_error (fields (formSchema session)) (currentFieldIndex session)
                = Some f
              /\ valid (validateFieldValue (type f) msg) = true
              /\ filledFields session' = <[id f := msg]> (filledFields session)
              /\ currentFieldIndex session' = currentFieldIndex session + 1
              /\ isComplete session' =
                   (if List.length (fields (formSchema session))
                       <=? currentFieldIndex session + 1
                    then true else isComplete session))).
Proof.
  intros Hsid Hmsg Hs.
  destruct (nth_error (fields (formSchema session)) (currentFieldIndex session))
    as [f|] eqn:Hf.
  - destruct (valid (validateFieldValue (type f) msg)) eqn:Hv.
    + destruct (chat_valid askModel t1 t2 sid msg store session f
                  Hsid Hmsg Hs Hf Hv) as (reply & history & Hchat).
      (* the reply and the history are those of the two branches *)
      revert Hchat. unfold chat.
      rewrite (truthy_nonempty _ Hsid), (truthy_nonempty _ Hmsg). cbn [negb orb].
      rewrite Hs, Hf, Hv. cbn [negb].
      unfold getSession in Hs.
      unfold nextQuestion, addMessage, updateField, setCurrentFieldIndex, markComplete.
      rewrite (update_known _ _ _ _ Hs). rewrite ?update_insert.
      cbn [sessionId formSchema filledFields conversationHistory
           currentFieldIndex isComplete createdAt originalFilePath].
      destruct (List.length (fields (formSchema session))
                <=? currentFieldIndex session + 1) eqn:E.
      * rewrite ?update_insert.
        cbn [sessionId formSchema filledFields conversationHistory
             currentFieldIndex isComplete createdAt originalFilePath].
        intros _. eexists _, _, _. split; [reflexivity|].
        cbn [sessionId formSchema filledFields conversationHistory
             currentFieldIndex isComplete createdAt originalFilePath].
        repeat split; [now rewrite <- app_assoc|].
        right. exists f. repeat split; assumption.
      * unfold getSession. rewrite lookup_insert_eq. rewrite ?update_insert.
        cbn [sessionId formSchema filledFields conversationHistory
             currentFieldIndex isComplete createdAt originalFilePath].
        intros _. eexists _, _, _. split; [reflexivity|].
        cbn [sessionId formSchema filledFields conversationHistory
             currentFieldIndex isComplete createdAt originalFilePath].
        repeat split; [now rewrite <- app_assoc|].
        right. exists f. repeat split; assumption.
    + rewrite (chat_invalid askModel t1 t2 sid msg store session f
                 Hsid Hmsg Hs Hf Hv).
      eexists _, _, _. split; [reflexivity|].
      cbn [sessionId formSchema filledFields conversationHistory
           currentFieldIndex isComplete createdAt originalFilePath].
      repeat split; [now rewrite <- app_assoc|].
      left. repeat split. intros f' [= <-]. exact Hv.
  - rewrite (chat_past_end askModel t1 t2 sid msg store session Hsid Hmsg Hs Hf).
    eexists _, _, _. split; [reflexivity|].
    cbn [sessionId formSchema filledFields conversationHistory
         currentFieldIndex isComplete createdAt originalFilePath].
    repeat split; [now rewrite <- app_assoc|].
    left. repeat split. intros f' [=].
Qed.

(** A valid answer before the last field: the generator is asked on
    the session as recorded. *)
Lemma chat_valid_next askModel t1 t2 sid msg (store : gmap string Session)
  session f :
  sid <> "" -> msg <> "" -> getSession sid store = Some session ->
  nth_error (fields (formSchema session)) (currentFieldIndex session) = Some f ->
  valid (validateFieldValue (type f) msg) = true ->
  currentFieldIndex session + 1 < List.length (fields (formSchema session)) ->
  fst (chat true askModel t1 t2 sid msg store) =
    Body (generateNextQuestion askModel (answered t1 msg f session) (Some msg)).
Proof.
  intros Hsid Hmsg Hs Hf Hv Hlt. unfold chat.
  rewrite (truthy_nonempty _ Hsid), (truthy_nonempty _ Hmsg). cbn [negb orb].
  rewrite Hs, Hf, Hv. cbn [negb].
  apply Nat.leb_gt in Hlt. rewrite Hlt.
  unfold getSession in Hs.
  unfold nextQuestion, addMessage, updateField, setCurrentFieldIndex.
  rewrite (update_known _ _ _ _ Hs). rewrite ?update_insert.
  unfold getSession. rewrite lookup_insert_eq. reflexivity.
Qed.


(** The reply to a valid answer before the last field when the generator
    is unavailable. *)
Lemma fallback_next askModel t1 t2 sid msg (store : gmap string Session)
  session f next :
  sid <> "" -> msg <> "" -> getSession sid store = Some session ->
  nth_error (fields (formSchema session)) (currentFieldIndex session) = Some f ->
  nth_error (fields (formSchema session)) (currentFieldIndex session + 1)
    = Some next ->
  valid (validateFieldValue (type f) msg) = true ->
  askModel (answered t1 msg f session) (Some msg) = None ->
  fst (chat true askModel t1 t2 sid msg store) = Body (fallbackQuestion next).
Proof.
  intros Hsid Hmsg Hs Hf Hnext Hv Hdown.
  assert (currentFieldIndex session + 1 < List.length (fields (formSchema session)))
    as Hlt by (apply nth_error_Some; congruence).
  rewrite (chat_valid_next askModel t1 t2 sid msg store session f
             Hsid Hmsg Hs Hf Hv Hlt).
  unfold generateNextQuestion. rewrite Hdown. simpl. now rewrite Hnext.
Qed.

Lemma nonempty_or_empty (s : string) : s = "" \/ s <> "".
Proof. destruct s; [now left | now right]. Qed.

End ChatFacts.

Import ChatFacts.



(** X5.  A chat request leaves every session other than the one it names
    as it was. *)
Theorem chat_touches_one_session (apiConfigured : bool)
  (askModel : Session -> option string -> option Response)
  (t1 t2 : nat) (sid msg : string) (store : gmap string Session)
  (other : string) (H : other <> sid) :
  getSession other (snd (chat apiConfigured askModel t1 t2 sid msg store))
  = getSession other store.
Proof.
  destruct (nonempty_or_empty sid) as [Hsid|Hsid];
    [destruct (chat_refused apiConfigured askModel t1 t2 sid msg store
                 (or_introl Hsid)) as (c & e & ->); reflexivity|].
  destruct (nonempty_or_empty msg) as [Hmsg|Hmsg];
    [destruct (chat_refused apiConfigured askModel t1 t2 sid msg store
                 (or_intror (or_introl Hmsg))) as (c & e & ->); reflexivity|].
  destruct apiConfigured;
    [|destruct (chat_refused false askModel t1 t2 sid msg store
                 (or_intror (or_intror (or_introl eq_refl)))) as (c & e & ->);
      reflexivity].
  destruct (getSession sid store) as [session|] eqn:Hs;
    [|destruct (chat_refused true askModel t1 t2 sid msg store
                 (or_intror (or_intror (or_intror Hs)))) as (c & e & ->);
      reflexivity].
  destruct (chat_effect askModel t1 t2 sid msg store session Hsid Hmsg Hs)
    as (reply & s' & more & -> & _).
  unfold getSession. simpl. apply lookup_insert_ne. congruence.
Qed.

Lemma chat_touches_one_session_witness :
  getSession "s2" (snd (chat true noModel 1 2 "s1" "Ada" exampleStore))
  = getSession "s2" exampleStore.
Proof.
  apply (chat_touches_one_session true noModel 1 2 "s1" "Ada" exampleStore "s2").
  discriminate.
Defined.

(** X6.  A chat request keeps a well-formed session well-formed (cursor
    within the schema, complete exactly at its end, recorded keys the ids
    of the fields before the cursor).  It never changes the schema, the
    creation time or the file of the session, never moves the cursor back
    or by more than one, never resets completion, never drops a recorded
    key, and only appends to the history. *)
Theorem chat_keeps_wellformed (apiConfigured : bool)
  (askModel : Session -> option string -> option Response)
  (t1 t2 : nat) (sid msg : string) (store : gmap string Session)
  (session : Session)
  (Hs : getSession sid store = Some session) (Hw : WellFormed session) :
  exists session',
    getSession sid (snd (chat apiConfigured askModel t1 t2 sid msg store))
      = Some session'
    /\ WellFormed session'
    /\ formSchema session' = formSchema session
    /\ createdAt session' = createdAt session
    /\ originalFilePath session' = originalFilePath session
    /\ currentFieldIndex session <= currentFieldIndex session'
         <= currentFieldIndex session + 1
    /\ (isComplete session = true -> isComplete session' = true)
    /\ dom (filledFields session) ⊆ dom (filledFields session')
    /\ (exists more,
          conversationHistory session' = conversationHistory session ++ more).
Proof.
  assert (forall c e,
            chat apiConfigured askModel t1 t2 sid msg store = (Status c e, store) ->
            exists session',
              getSession sid (snd (chat apiConfigured askModel t1 t2 sid msg store))
                = Some session'
              /\ WellFormed session'
              /\ formSchema session' = formSchema session
              /\ createdAt session' = createdAt session
              /\ originalFilePath session' = originalFilePath session
              /\ currentFieldIndex session <= currentFieldIndex session'
                   <= currentFieldIndex session + 1
              /\ (isComplete session = true -> isComplete session' = true)
              /\ dom (filledFields session) ⊆ dom (filledFields session')
              /\ (exists more,
                    conversationHistory session'
                    = conversationHistory session ++ more)) as Hsame.
  { intros c e ->. exists session. simpl.
    split; [assumption|]. split; [exact Hw|].
    repeat split; auto; try lia; try (exists []; now rewrite app_nil_r). }
  destruct (nonempty_or_empty sid) as [Hsid|Hsid];
    [destruct (chat_refused apiConfigured askModel t1 t2 sid msg store
                 (or_introl Hsid)) as (c & e & Hc); eauto|].
  destruct (nonempty_or_empty msg) as [Hmsg|Hmsg];
    [destruct (chat_refused apiConfigured askModel t1 t2 sid msg store
                 (or_intror (or_introl Hmsg))) as (c & e & Hc); eauto|].
  destruct apiConfigured;
    [|destruct (chat_refused false askModel t1 t2 sid msg store
                 (or_intror (or_intror (or_introl eq_refl)))) as (c & e & Hc);
      eauto].
  clear Hsame.
  destruct (chat_effect askModel t1 t2 sid msg store session Hsid Hmsg Hs)
    as (reply & s' & more & -> & _ & Hsch & Hcr & Hfile & Hhist & Hcases).
  exists s'. simpl. unfold getSession. rewrite lookup_insert_eq.
  destruct Hw as (Hne & Hle & Hiff & Hdom).
  split; [reflexivity|].
  destruct Hcases as [(Hval & Hcur & Hcomp & _)|(f & Hf & _ & Hval & Hcur & Hcomp)].
  - unfold WellFormed. rewrite Hsch, Hcur, Hcomp, Hval.
    repeat split; auto; try lia; try tauto. eauto.
  - assert (currentFieldIndex session < List.length (fields (formSchema session)))
      as Hlt by (apply nth_error_Some; congruence).
    assert (isComplete session = false) as Hinc.
    { destruct (isComplete session); [|reflexivity].
      destruct Hiff as [Hiff _]. specialize (Hiff eq_refl). lia. }
    unfold WellFormed. rewrite Hsch, Hcur, Hcomp, Hval, Hinc.
    rewrite Nat.add_1_r, (firstn_snoc _ _ _ Hf), map_app, list_to_set_app_L.
    rewrite dom_insert_L, <- Hdom. simpl.
    destruct (List.length (fields (formSchema session))
              <=? S (currentFieldIndex session)) eqn:E.
    + apply Nat.leb_le in E.
      repeat split; auto; try lia; try discriminate; try (eexists; eassumption);
        [rewrite union_empty_r_L; apply union_comm_L | apply union_subseteq_r].
    + apply Nat.leb_gt in E.
      repeat split; auto; try lia; try discriminate; try (eexists; eassumption);
        [rewrite union_empty_r_L; apply union_comm_L | apply union_subseteq_r].
Qed.

Lemma chat_keeps_wellformed_witness :
  exists session',
    getSession "s1" (snd (chat true noModel 1 2 "s1" "Ada" exampleStore))
      = Some session'
    /\ WellFormed session'.
Proof.
  destruct (chat_keeps_wellformed true noModel 1 2 "s1" "Ada" exampleStore
              exampleSession eq_refl) as (s & Hs & Hw & _).
  - unfold WellFormed. simpl. repeat split; try discriminate; try lia.
  - exists s. split; assumption.
Defined.

(** X7.  A chat request to a session whose cursor is past the last field
    validates and records nothing and moves nothing, but it is not a
    no-op: the message and the generator's reply are appended to the
    history, and that reply is sent; when the generator is unavailable
    it is the local completion message. *)
Theorem chat_after_completion
  (askModel : Session -> option string -> option Response)
  (t1 t2 : nat) (sid msg : string) (store : gmap string Session)
  (session : Session)
  (Hsid : sid <> "") (Hmsg : msg <> "")
  (Hs : getSession sid store = Some session)
  (Hend : List.length (fields (formSchema session)) <= currentFieldIndex session) :
  let q := generateNextQuestion askModel (heard t1 msg session) (Some msg) in
  exists session',
    chat true askModel t1 t2 sid msg store = (Body q, <[sid := session']> store)
    /\ filledFields session' = filledFields session
    /\ currentFieldIndex session' = currentFieldIndex session
    /\ isComplete session' = isComplete session
    /\ conversationHistory session' =
         conversationHistory session ++ [userTurn t1 msg; assistantTurn t2 q]
    /\ (askModel (heard t1 msg session) (Some msg) = None ->
        isCompleteFlag q = true /\ fieldId q = None
        /\ question q = "All fields have been filled! You can now export your form.").
Proof.
  cbv zeta. apply nth_error_None in Hend.
  rewrite (chat_past_end askModel t1 t2 sid msg store session Hsid Hmsg Hs Hend).
  eexists. split; [reflexivity|]. simpl.
  repeat split; try (now rewrite <- app_assoc);
    unfold generateNextQuestion; rewrite H; simpl; now rewrite Hend.
Qed.

Lemma chat_after_completion_witness :
  exists session',
    chat true noModel 1 2 "s1" "more" (markComplete "s1" (setCurrentFieldIndex "s1" 3 exampleStore))
    = (Body (generateNextQuestion noModel
               (heard 1 "more"
                  {| sessionId := "s1"; formSchema := exampleSchema;
                     filledFields := ∅; conversationHistory := [];
                     currentFieldIndex := 3; isComplete := true;
                     createdAt := 0; originalFilePath := None |}) (Some "more")),
       <["s1" := session']> (markComplete "s1" (setCurrentFieldIndex "s1" 3 exampleStore)))
    /\ currentFieldIndex session' = 3.
Proof.
  destruct (chat_after_completion noModel 1 2 "s1" "more"
              (markComplete "s1" (setCurrentFieldIndex "s1" 3 exampleStore))
              {| sessionId := "s1"; formSchema := exampleSchema;
                 filledFields := ∅; conversationHistory := [];
                 currentFieldIndex := 3; isComplete := true;
                 createdAt := 0; originalFilePath := None |})
    as (s & Hchat & _ & Hcur & _).
  - discriminate.
  - discriminate.
  - vm_compute. reflexivity.
  - vm_compute. lia.
  - exists s. split; [exact Hchat | exact Hcur].
Defined.

(** X8.  With the generator unavailable, the reply to a valid answer that
    is not the last one is the local question for the next field:
    "Please provide your <label>." with that field's id, label and
    type. *)
Theorem fallback_asks_next_field
  (askModel : Session -> option string -> option Response)
  (t1 t2 : nat) (sid msg : string) (store : gmap string Session)
  (session : Session) (f next : FormField)
  (Hsid : sid <> "") (Hmsg : msg <> "")
  (Hs : getSession sid store = Some session)
  (Hf : nth_error (fields (formSchema session)) (currentFieldIndex session) = Some f)
  (Hnext : nth_error (fields (formSchema session)) (currentFieldIndex session + 1)
           = Some next)
  (Hv : valid (validateFieldValue (type f) msg) = true)
  (Hdown : askModel (answered t1 msg f session) (Some msg) = None) :
  fst (chat true askModel t1 t2 sid msg store) = Body (fallbackQuestion next)
  /\ question (fallbackQuestion next) = "Please provide your " +:+ label next +:+ "."
  /\ fieldId (fallbackQuestion next) = Some (id next).
Proof.
  rewrite (fallback_next askModel t1 t2 sid msg store session f next
             Hsid Hmsg Hs Hf Hnext Hv Hdown).
  repeat split.
Qed.

Lemma fallback_asks_next_field_witness :
  fst (chat true noModel 1 2 "s1" "Ada" exampleStore)
  = Body (fallbackQuestion
            {| id := "field_2"; label := "Email"; type := t_email;
               required := true; value := None; position := None;
               coordinates := None; pdfFieldName := None |}).
Proof.
  apply (fallback_asks_next_field noModel 1 2 "s1" "Ada" exampleStore
           exampleSession exampleSession_field);
    first [discriminate | reflexivity].
Defined.

Module RunFacts.



End RunFacts.

Import RunFacts.



(** X10.  What the page keeps differs from what the server records.  With
    the generator unavailable, after a valid answer that is not the last
    one the page stores the answer under the id of the NEXT field (the
    id carried by the reply), while the server has recorded it under the
    id of the field that was asked; after a rejected answer and after the
    last answer the page stores nothing. *)
Theorem page_records_under_next_field
  (askModel : Session -> option string -> option Response)
  (t1 t2 : nat) (sid msg : string) (store : gmap string Session)
  (session : Session) (f next : FormField) (prev : gmap string string)
  (Hsid : sid <> "") (Hmsg : msg <> "")
  (Hs : getSession sid store = Some session)
  (Hf : nth_error (fields (formSchema session)) (currentFieldIndex session) = Some f)
  (Hnext : nth_error (fields (formSchema session)) (currentFieldIndex session + 1)
           = Some next)
  (Hid : id next <> "")
  (Hv : valid (validateFieldValue (type f) msg) = true)
  (Hdown : askModel (answered t1 msg f session) (Some msg) = None) :
  (exists reply session',
      chat true askModel t1 t2 sid msg store = (Body reply, <[sid := session']> store)
      /\ filledFields session' = <[id f := msg]> (filledFields session)
      /\ App.recordReply reply msg prev = <[id next := msg]> prev)
  /\ (forall v, App.recordReply (retryResponse v f) msg prev = prev)
  /\ App.recordReply completeResponse msg prev = prev.
Proof.
  split; [|split; reflexivity].
  destruct (chat_valid askModel t1 t2 sid msg store session f Hsid Hmsg Hs Hf Hv)
    as (reply & history & Hchat).
  pose proof (fallback_next askModel t1 t2 sid msg store session f next
                Hsid Hmsg Hs Hf Hnext Hv Hdown) as Hreply.
  rewrite Hchat in Hreply. simpl in Hreply. subst reply.
  eexists _, _. split; [exact Hchat|]. split; [reflexivity|].
  unfold App.recordReply. simpl. now rewrite (truthy_nonempty _ Hid).
Qed.

Lemma page_records_under_next_field_witness :
  App.recordReply
    (fallbackQuestion
       {| id := "field_2"; label := "Email"; type := t_email;
          required := true; value := None; position := None;
          coordinates := None; pdfFieldName := None |}) "Ada" ∅
  = <["field_2" := "Ada"]> ∅.
Proof.
  destruct (proj1 (page_records_under_next_field noModel 1 2 "s1" "Ada"
                     exampleStore exampleSession exampleSession_field
                     {| id := "field_2"; label := "Email"; type := t_email;
                        required := true; value := None; position := None;
                        coordinates := None; pdfFieldName := None |} ∅
                     ltac:(discriminate) ltac:(discriminate) eq_refl eq_refl
                     eq_refl ltac:(discriminate) eq_refl eq_refl))
    as (reply & s & Hchat & _ & Hrec).
  assert (reply = fallbackQuestion
            {| id := "field_2"; label := "Email"; type := t_email;
               required := true; value := None; position := None;
               coordinates := None; pdfFieldName := None |}) as <-.
  { assert (fst (chat true noModel 1 2 "s1" "Ada" exampleStore) = Body reply) as H
      by now rewrite Hchat.
    vm_compute in H. injection H as <-. reflexivity. }
  exact Hrec.
Defined.

(* ===================================================================== *)
(** * Further facts: what the validation patterns accept *)
(* ===================================================================== *)

Module ValidationFacts.
Import RegexFacts OcrFacts.

Lemma chars_append a b : chars (a +:+ b) = chars a ++ chars b.
Proof.
  induction a as [|c a IH]; [reflexivity|].
  change (c :: chars (a +:+ b) = c :: chars a ++ chars b).
  now rewrite IH.
Qed.

Lemma str_app l1 l2 : str (l1 ++ l2) = str l1 +:+ str l2.
Proof.
  rewrite <- (str_chars (str l1 +:+ str l2)), chars_append, !chars_str.
  reflexivity.
Qed.

Lemma str_cons c l : str (c :: l) = String c (str l).
Proof. reflexivity. Qed.

Lemma length_str l : String.length (str l) = List.length l.
Proof. now rewrite <- length_chars, chars_str. Qed.

Lemma spans_intro p w pre s : forallb p w = true -> spans p (pre, w ++ s) (rev w ++ pre, s) w.
Proof. intros H. repeat split; assumption. Qed.

Lemma one_inv c i j :
  matches (one c) i j -> snd i = c :: snd j /\ fst j = c :: fst i.
Proof.
  unfold one. intros H. inversion H as [ |p x pre s Hp| | | | | | | | ]; subst.
  apply Ascii.eqb_eq in Hp. subst x. auto.
Qed.

Lemma one_intro c pre s : matches (one c) (pre, c :: s) (c :: pre, s).
Proof. unfold one. constructor. apply Ascii.eqb_refl. Qed.

Lemma chr_inv p i j :
  matches (Chr p) i j -> exists c, snd i = c :: snd j /\ fst j = c :: fst i /\ p c = true.
Proof.
  intros H. inversion H as [ |q x pre s Hp| | | | | | | | ]; subst. eauto.
Qed.

Lemma exactly_Chr_inv p : forall n i j,
  matches (Exactly n (Chr p)) i j ->
  exists w, spans p i j w /\ List.length w = n.
Proof.
  induction n as [|n IH]; intros i j H; simpl in H.
  - inversion H; subst. exists []. repeat split.
  - inversion H as [ | |a b i0 j0 k0 Ha Hb| | | | | | | ]; subst.
    apply chr_inv in Ha. destruct Ha as (c & Hs & Hp & Hc).
    apply IH in Hb. destruct Hb as (w & (Hs' & Hp' & Hw) & Hn).
    exists (c :: w). unfold spans. simpl.
    rewrite Hs, Hs', Hp', Hp, Hc, Hw, <- app_assoc. repeat split. now rewrite Hn.
Qed.

Lemma exactly_Chr_intro p : forall w pre s,
  forallb p w = true ->
  matches (Exactly (List.length w) (Chr p)) (pre, w ++ s) (rev w ++ pre, s).
Proof.
  induction w as [|c w IH]; intros pre s H; simpl in *.
  - constructor.
  - apply andb_true_iff in H. destruct H as [Hc Hw].
    apply M_Seq with (j := (c :: pre, w ++ s)); [now constructor|].
    rewrite <- app_assoc. simpl. now apply IH.
Qed.

Lemma upTo_Chr_inv p : forall n i j,
  matches (UpTo n (Chr p)) i j ->
  exists w, spans p i j w /\ List.length w <= n.
Proof.
  induction n as [|n IH]; intros i j H; simpl in H.
  - inversion H; subst. exists []. repeat split. simpl. lia.
  - unfold Opt in H.
    inversion H as [ | | |a b i0 j0 Ha|a b i0 j0 Hb| | | | | ]; subst.
    + inversion Ha as [ | |a b i0 j0 k0 Hc Hr| | | | | | | ]; subst.
      apply chr_inv in Hc. destruct Hc as (c & Hs & Hp & Hc).
      apply IH in Hr. destruct Hr as (w & (Hs' & Hp' & Hw) & Hn).
      exists (c :: w). unfold spans. simpl.
      rewrite Hs, Hs', Hp', Hp, Hc, Hw, <- app_assoc. repeat split. lia.
    + inversion Hb; subst. exists []. repeat split. simpl. lia.
Qed.

Lemma upTo_Chr_intro p : forall n w pre s,
  List.length w <= n -> forallb p w = true ->
  matches (UpTo n (Chr p)) (pre, w ++ s) (rev w ++ pre, s).
Proof.
  induction n as [|n IH]; intros w pre s Hn Hw.
  - destruct w; [constructor | simpl in Hn; lia].
  - simpl. unfold Opt. destruct w as [|c w]; simpl in *.
    + apply M_AltR. constructor.
    + apply andb_true_iff in Hw. destruct Hw as [Hc Hw].
      apply M_AltL. apply M_Seq with (j := (c :: pre, w ++ s)); [now constructor|].
      rewrite <- app_assoc. simpl. apply IH; [lia | assumption].
Qed.

Lemma between_Chr_inv p m n i j :
  matches (Between m n (Chr p)) i j ->
  exists w, spans p i j w /\ m <= List.length w <= m + (n - m).
Proof.
  unfold Between. intros H.
  inversion H as [ | |a b i0 j0 k0 Ha Hb| | | | | | | ]; subst.
  apply exactly_Chr_inv in Ha. destruct Ha as (w1 & (Hs1 & Hp1 & Hw1) & Hn1).
  apply upTo_Chr_inv in Hb. destruct Hb as (w2 & (Hs2 & Hp2 & Hw2) & Hn2).
  exists (w1 ++ w2). unfold spans.
  rewrite Hs1, Hs2, Hp2, Hp1, rev_app_distr, forallb_app, Hw1, Hw2, length_app,
    <- !app_assoc.
  repeat split; lia.
Qed.

Lemma between_Chr_intro p m n w pre s :
  m <= List.length w <= n -> forallb p w = true ->
  matches (Between m n (Chr p)) (pre, w ++ s) (rev w ++ pre, s).
Proof.
  intros Hn Hw. unfold Between.
  rewrite <- (firstn_skipn m w) in Hw |- *.
  rewrite forallb_app in Hw. apply andb_true_iff in Hw. destruct Hw as [H1 H2].
  rewrite rev_app_distr, <- !app_assoc.
  apply M_Seq with (j := (rev (firstn m w) ++ pre, skipn m w ++ s)).
  - pose proof (exactly_Chr_intro p (firstn m w) pre (skipn m w ++ s) H1) as H.
    rewrite length_firstn, Nat.min_l in H by lia. exact H.
  - apply upTo_Chr_intro; [rewrite length_skipn; lia | assumption].
Qed.

Lemma opt_one_inv c i j :
  matches (Opt (one c)) i j ->
  exists w, snd i = w ++ snd j /\ fst j = rev w ++ fst i /\ (w = [] \/ w = [c]).
Proof.
  unfold Opt. intros H.
  inversion H as [ | | |a b i0 j0 Ha|a b i0 j0 Hb| | | | | ]; subst.
  - apply one_inv in Ha. destruct Ha as [Hs Hp]. exists [c]. simpl. auto.
  - inversion Hb; subst. exists []. auto.
Qed.

Lemma opt_one_intro c w pre s :
  w = [] \/ w = [c] -> matches (Opt (one c)) (pre, w ++ s) (rev w ++ pre, s).
Proof.
  unfold Opt. intros [->| ->]; simpl.
  - apply M_AltR. constructor.
  - apply M_AltL. apply one_intro.
Qed.

(** The same, up to the end of the subject. *)
Lemma atLeast_Chr_end p n w pre :
  n <= List.length w -> forallb p w = true ->
  matches (AtLeast n (Chr p)) (pre, w) (rev w ++ pre, []).
Proof.
  intros Hn Hw. pose proof (atLeast_Chr_intro p n w pre [] Hn Hw) as H.
  now rewrite app_nil_r in H.
Qed.

Lemma exactly_Chr_end p w pre :
  forallb p w = true ->
  matches (Exactly (List.length w) (Chr p)) (pre, w) (rev w ++ pre, []).
Proof.
  intros Hw. pose proof (exactly_Chr_intro p w pre [] Hw) as H.
  now rewrite app_nil_r in H.
Qed.

Lemma between_Chr_end p m n w pre :
  m <= List.length w <= n -> forallb p w = true ->
  matches (Between m n (Chr p)) (pre, w) (rev w ++ pre, []).
Proof.
  intros Hn Hw. pose proof (between_Chr_intro p m n w pre [] Hn Hw) as H.
  now rewrite app_nil_r in H.
Qed.

(** A pattern anchored at the start is tried at the start only. *)
Lemma test_at_start body s :
  test (Seq Bol body) s = true <-> exists j, matches body ([], chars s) j.
Proof.
  rewrite test_spec. split.
  - intros (a & b & j & Hs & Hm).
    inversion Hm as [ | |x y i0 j0 k0 Hb Hr| | | | | | | ]; subst.
    inversion Hb as [ | | | | | | |s0 Hnil| | ]; subst.
    assert (a = []) as -> by
      (destruct a as [|c a]; [reflexivity|];
       match goal with Hx : [] = rev _ |- _ =>
         apply (f_equal (@List.length ascii)) in Hx;
         rewrite length_rev in Hx; discriminate end).
    simpl in Hs. rewrite Hs. eauto.
  - intros (j & Hm). exists [], (chars s), j. split; [reflexivity|].
    apply M_Seq with (j := ([], chars s)); [constructor | exact Hm].
Qed.

Lemma eol_inv i j : matches Eol i j -> snd i = [] /\ j = i.
Proof. intros H. inversion H; subst. auto. Qed.

Lemma seq_inv a b i k :
  matches (Seq a b) i k -> exists j, matches a i j /\ matches b j k.
Proof. intros H. inversion H; subst. eauto. Qed.

Lemma isBlank_false_member v c :
  In c (chars v) -> isWhiteSpace c = false -> isBlank v = false.
Proof.
  unfold isBlank. intros Hin Hc.
  destruct (forallb isWhiteSpace (chars v)) eqn:E; [|reflexivity].
  rewrite forallb_forall in E. specialize (E _ Hin). congruence.
Qed.

Lemma valid_iff_test ty pattern msg v :
  validations ty = Some (pattern, msg) ->
  (test pattern v = true -> isBlank v = false) ->
  valid (validateFieldValue ty v) = true <-> test pattern v = true.
Proof.
  intros Hty Hnb. destruct (isBlank v) eqn:E.
  - rewrite validate_blank by assumption. simpl. split; [discriminate|].
    intros H. apply Hnb in H. discriminate.
  - rewrite validate_not_blank by assumption. now rewrite Hty.
Qed.

Lemma digit_not_space c : isDigit c = true -> isWhiteSpace c = false.
Proof. by_cases c; intros H; first [reflexivity | discriminate H]. Qed.

End ValidationFacts.

Import RegexFacts ValidationFacts.

(** X11.  An email answer is accepted exactly when it reads
    local@domain.tld with the three parts non-empty and free of white
    space and of at signs (the domain may itself contain dots). *)
Theorem email_accepted_iff (v : string) :
  valid (validateFieldValue t_email v) = true <->
  exists loc domain tld,
    v = loc +:+ "@" +:+ domain +:+ "." +:+ tld
    /\ loc <> "" /\ domain <> "" /\ tld <> ""
    /\ plain loc = true /\ plain domain = true /\ plain tld = true.
Proof.
  assert (test reEmail v = true <->
          exists loc domain tld,
            v = loc +:+ "@" +:+ domain +:+ "." +:+ tld
            /\ loc <> "" /\ domain <> "" /\ tld <> ""
            /\ plain loc = true /\ plain domain = true /\ plain tld = true) as Hpat.
  { unfold reEmail. cbn [seqs]. rewrite test_at_start. split.
    - intros (j & H).
      apply seq_inv in H. destruct H as (j1 & H1 & H).
      apply seq_inv in H. destruct H as (j2 & H2 & H).
      apply seq_inv in H. destruct H as (j3 & H3 & H).
      apply seq_inv in H. destruct H as (j4 & H4 & H).
      apply seq_inv in H. destruct H as (j5 & H5 & H).
      apply eol_inv in H. destruct H as [Hend ->].
      apply (atLeast_Chr_inv _ 1) in H1. destruct H1 as (w1 & Hs1 & _ & Hn1 & Hw1).
      apply one_inv in H2. destruct H2 as [Hs2 _].
      apply (atLeast_Chr_inv _ 1) in H3. destruct H3 as (w3 & Hs3 & _ & Hn3 & Hw3).
      apply one_inv in H4. destruct H4 as [Hs4 _].
      apply (atLeast_Chr_inv _ 1) in H5. destruct H5 as (w5 & Hs5 & _ & Hn5 & Hw5).
      simpl in Hs1. rewrite Hend, app_nil_r in Hs5.
      exists (str w1), (str w3), (str w5).
      split.
      { rewrite <- (str_chars v), Hs1, Hs2, Hs3, Hs4, Hs5.
        rewrite str_app, str_cons, str_app, str_cons. reflexivity. }
      unfold plain. rewrite !chars_str.
      repeat split; try assumption;
        intros Hnil; apply (f_equal String.length) in Hnil;
        rewrite length_str in Hnil; simpl in Hnil; lia.
    - intros (loc & domain & tld & -> & Hl & Hd & Ht & Pl & Pd & Pt).
      unfold plain in *.
      assert (forall s, s <> "" -> 1 <= List.length (chars s)) as Hlen.
      { intros [|c s] Hs; [congruence | simpl; lia]. }
      rewrite !chars_append. simpl.
      exists (rev (chars tld) ++ "."%char :: rev (chars domain)
                ++ "@"%char :: rev (chars loc) ++ [], []).
      eapply M_Seq;
        [apply (atLeast_Chr_intro _ 1 (chars loc) []); [now apply Hlen | exact Pl]|].
      eapply M_Seq; [apply one_intro|].
      eapply M_Seq;
        [apply (atLeast_Chr_intro _ 1 (chars domain)); [now apply Hlen | exact Pd]|].
      eapply M_Seq; [apply one_intro|].
      eapply M_Seq.
      + apply (atLeast_Chr_end _ 1 (chars tld)); [now apply Hlen | exact Pt].
      + constructor. }
  rewrite <- Hpat. apply (valid_iff_test t_email reEmail _ v eq_refl).
  intros H. apply Hpat in H. destruct H as (loc & domain & tld & -> & _).
  apply (isBlank_false_member _ "@"%char); [|reflexivity].
  rewrite !chars_append. simpl. apply in_or_app. right. now left.
Qed.

Lemma email_accepted_iff_witness :
  valid (validateFieldValue t_email "ada@mail.example.org") = true.
Proof.
  apply (proj2 (email_accepted_iff "ada@mail.example.org")).
  exists "ada", "mail.example", "org". repeat split; discriminate.
Defined.

(** X12.  An SSN answer is accepted exactly when it is three digits, two
    digits and four digits, with an optional hyphen after the first and
    after the second group (either, both or none). *)
Theorem ssn_accepted_iff (v : string) :
  valid (validateFieldValue t_ssn v) = true <->
  exists a h1 b h2 c,
    v = a +:+ h1 +:+ b +:+ h2 +:+ c
    /\ String.length a = 3 /\ String.length b = 2 /\ String.length c = 4
    /\ allDigits a = true /\ allDigits b = true /\ allDigits c = true
    /\ optionalHyphen h1 = true /\ optionalHyphen h2 = true.
Proof.
  assert (forall w, (w = [] \/ w = ["-"%char]) <-> optionalHyphen (str w) = true)
    as Hopt.
  { intros w. unfold optionalHyphen. rewrite orb_true_iff, !String.eqb_eq. split.
    - intros [-> | ->]; auto.
    - intros [H|H]; apply (f_equal chars) in H; rewrite chars_str in H; auto. }
  assert (test reSsn v = true <->
          exists a h1 b h2 c,
            v = a +:+ h1 +:+ b +:+ h2 +:+ c
            /\ String.length a = 3 /\ String.length b = 2 /\ String.length c = 4
            /\ allDigits a = true /\ allDigits b = true /\ allDigits c = true
            /\ optionalHyphen h1 = true /\ optionalHyphen h2 = true) as Hpat.
  { unfold reSsn. cbn [seqs]. rewrite test_at_start. split.
    - intros (j & H).
      apply seq_inv in H. destruct H as (j1 & H1 & H).
      apply seq_inv in H. destruct H as (j2 & H2 & H).
      apply seq_inv in H. destruct H as (j3 & H3 & H).
      apply seq_inv in H. destruct H as (j4 & H4 & H).
      apply seq_inv in H. destruct H as (j5 & H5 & H).
      apply eol_inv in H. destruct H as [Hend ->].
      apply exactly_Chr_inv in H1. destruct H1 as (w1 & (Hs1 & _ & Hw1) & Hn1).
      apply opt_one_inv in H2. destruct H2 as (o1 & Hs2 & _ & Ho1).
      apply exactly_Chr_inv in H3. destruct H3 as (w3 & (Hs3 & _ & Hw3) & Hn3).
      apply opt_one_inv in H4. destruct H4 as (o2 & Hs4 & _ & Ho2).
      apply exactly_Chr_inv in H5. destruct H5 as (w5 & (Hs5 & _ & Hw5) & Hn5).
      simpl in Hs1. rewrite Hend, app_nil_r in Hs5.
      exists (str w1), (str o1), (str w3), (str o2), (str w5).
      split.
      { rewrite <- (str_chars v), Hs1, Hs2, Hs3, Hs4, Hs5.
        now rewrite !str_app. }
      unfold allDigits. rewrite !chars_str, !length_str.
      repeat split; try assumption; now apply Hopt.
    - intros (a & h1 & b & h2 & c & -> & La & Lb & Lc & Da & Db & Dc & O1 & O2).
      unfold allDigits in *. rewrite <- length_chars in La, Lb, Lc.
      rewrite <- (str_chars h1) in O1. rewrite <- (str_chars h2) in O2.
      apply Hopt in O1. apply Hopt in O2.
      rewrite !chars_append.
      eexists.
      eapply M_Seq;
        [rewrite <- La; apply (exactly_Chr_intro _ (chars a)); exact Da|].
      eapply M_Seq; [apply opt_one_intro; exact O1|].
      eapply M_Seq;
        [rewrite <- Lb; apply (exactly_Chr_intro _ (chars b)); exact Db|].
      eapply M_Seq; [apply opt_one_intro; exact O2|].
      eapply M_Seq.
      + rewrite <- Lc. apply exactly_Chr_end. exact Dc.
      + constructor. }
  rewrite <- Hpat. apply (valid_iff_test t_ssn reSsn _ v eq_refl).
  intros H. apply Hpat in H.
  destruct H as (a & h1 & b & h2 & c & -> & La & _ & _ & Da & _).
  destruct a as [|x a]; [discriminate|].
  apply (isBlank_false_member _ x).
  - rewrite chars_append. now left.
  - apply digit_not_space. unfold allDigits in Da. simpl in Da.
    now apply andb_true_iff in Da.
Qed.

Lemma ssn_accepted_iff_witness :
  valid (validateFieldValue t_ssn "123-456789") = true.
Proof.
  apply (proj2 (ssn_accepted_iff "123-456789")).
  exists "123", "-", "45", "", "6789". repeat split.
Defined.

(** X13.  A date answer is accepted exactly when it is one or two digits,
    a separator, one or two digits, a separator, and two to four digits,
    each separator being a slash or a hyphen (the two need not agree);
    nothing else is checked, so 99/99/999 is a date. *)
Theorem date_accepted_iff (v : string) :
  (valid (validateFieldValue t_date v) = true <->
   exists d s1 m s2 y,
     v = d +:+ s1 +:+ m +:+ s2 +:+ y
     /\ 1 <= String.length d <= 2 /\ 1 <= String.length m <= 2
     /\ 2 <= String.length y <= 4
     /\ allDigits d = true /\ allDigits m = true /\ allDigits y = true
     /\ isSeparator s1 = true /\ isSeparator s2 = true)
  /\ valid (validateFieldValue t_date "99/99-999") = true.
Proof.
  assert (forall c, oneOf "/-" c = true <-> isSeparator (str [c]) = true) as Hsep.
  { intros c. by_cases c; split; intros H; first [reflexivity | discriminate H]. }
  assert (forall s, isSeparator s = true -> exists c, chars s = [c] /\ oneOf "/-" c = true)
    as Hsep'.
  { intros s H. unfold isSeparator in H.
    rewrite orb_true_iff, !String.eqb_eq in H. destruct H as [-> | ->]; eauto. }
  assert (test reDate v = true <->
          exists d s1 m s2 y,
            v = d +:+ s1 +:+ m +:+ s2 +:+ y
            /\ 1 <= String.length d <= 2 /\ 1 <= String.length m <= 2
            /\ 2 <= String.length y <= 4
            /\ allDigits d = true /\ allDigits m = true /\ allDigits y = true
            /\ isSeparator s1 = true /\ isSeparator s2 = true) as Hpat.
  { unfold reDate. cbn [seqs]. rewrite test_at_start. split.
    - intros (j & H).
      apply seq_inv in H. destruct H as (j1 & H1 & H).
      apply seq_inv in H. destruct H as (j2 & H2 & H).
      apply seq_inv in H. destruct H as (j3 & H3 & H).
      apply seq_inv in H. destruct H as (j4 & H4 & H).
      apply seq_inv in H. destruct H as (j5 & H5 & H).
      apply eol_inv in H. destruct H as [Hend ->].
      apply between_Chr_inv in H1. destruct H1 as (w1 & (Hs1 & _ & Hw1) & Hn1).
      apply chr_inv in H2. destruct H2 as (c1 & Hs2 & _ & Hc1).
      apply between_Chr_inv in H3. destruct H3 as (w3 & (Hs3 & _ & Hw3) & Hn3).
      apply chr_inv in H4. destruct H4 as (c2 & Hs4 & _ & Hc2).
      apply between_Chr_inv in H5. destruct H5 as (w5 & (Hs5 & _ & Hw5) & Hn5).
      simpl in Hs1. rewrite Hend, app_nil_r in Hs5.
      exists (str w1), (str [c1]), (str w3), (str [c2]), (str w5).
      split.
      { rewrite <- (str_chars v), Hs1, Hs2, Hs3, Hs4, Hs5.
        rewrite !str_app. rewrite str_cons, str_app, str_cons. reflexivity. }
      unfold allDigits. rewrite !chars_str, !length_str.
      simpl in Hn1, Hn3, Hn5.
      repeat split; try assumption; try lia; now apply Hsep.
    - intros (d & s1 & m & s2 & y & -> & Ld & Lm & Ly & Dd & Dm & Dy & S1 & S2).
      unfold allDigits in *. rewrite <- length_chars in Ld, Lm, Ly.
      apply Hsep' in S1. destruct S1 as (c1 & E1 & C1).
      apply Hsep' in S2. destruct S2 as (c2 & E2 & C2).
      rewrite !chars_append, E1, E2. simpl.
      eexists.
      eapply M_Seq; [apply (between_Chr_intro _ 1 2 (chars d)); assumption|].
      eapply M_Seq; [now constructor|].
      eapply M_Seq; [apply (between_Chr_intro _ 1 2 (chars m)); assumption|].
      eapply M_Seq; [now constructor|].
      eapply M_Seq.
      + apply (between_Chr_end _ 2 4 (chars y)); assumption.
      + constructor. }
  split; [|reflexivity].
  rewrite <- Hpat. apply (valid_iff_test t_date reDate _ v eq_refl).
  intros H. apply Hpat in H.
  destruct H as (d & s1 & m & s2 & y & -> & Ld & _ & _ & Dd & _).
  destruct d as [|x d]; [simpl in Ld; lia|].
  apply (isBlank_false_member _ x).
  - rewrite chars_append. now left.
  - apply digit_not_space. unfold allDigits in Dd. simpl in Dd.
    now apply andb_true_iff in Dd.
Qed.

Lemma date_accepted_iff_witness :
  valid (validateFieldValue t_date "1/2-2026") = true.
Proof.
  apply (proj2 (proj1 (date_accepted_iff "1/2-2026"))).
  exists "1", "/", "2", "-", "2026". simpl. repeat split; lia.
Defined.

Module DetectFacts.
Import RegexFacts OcrFacts.

Lemma someIncludes_obj o : forall lws,
  someIncludes (WordObj o) lws = Ok (existsb (includes (toLowerCase (w_text o))) lws).
Proof.
  induction lws as [|lw lws IH]; simpl; [reflexivity|].
  destruct (includes (toLowerCase (w_text o)) lw); simpl; [reflexivity | exact IH].
Qed.

Lemma findInWords_objs lws : forall words,
  findInWords lws (map WordObj words) =
  Ok (match find (fun w => existsb (includes (toLowerCase (w_text w))) lws) words with
      | Some w => boxOf (WordObj w)
      | None => None
      end).
Proof.
  induction words as [|w words IH]; simpl; [reflexivity|].
  rewrite someIncludes_obj. simpl.
  destruct (existsb _ lws); [reflexivity | exact IH].
Qed.

Lemma findCoordinates_objs label words :
  findCoordinatesForLabel label (map WordObj words) =
  Ok (match find (locates label) words with
      | Some w => boxOf (WordObj w)
      | None => None
      end).
Proof.
  unfold findCoordinatesForLabel.
  destruct words as [|w words]; [reflexivity|].
  change (WordObj w :: map WordObj words) with (map WordObj (w :: words)).
  cbv beta iota. apply findInWords_objs.
Qed.

Lemma split_nonempty r s : chars s <> [] -> split r s <> [].
Proof.
  unfold split. destruct (chars s) as [|c l]; [congruence|].
  intros _ H. apply map_eq_nil in H. now apply splitFrom_nonempty in H.
Qed.

(** With the word boxes of the OCR result the first pass has no failing
    step. *)
Lemma strategy1_total words st line index :
  exists st', strategy1 (map WordObj words) st line index = Ok st'.
Proof.
  destruct st as [fs found]. unfold strategy1.
  destruct ((String.length line <? 2) || (150 <? String.length line)) eqn:G; [eauto|].
  destruct (hasFieldIndicator line || hasFieldEnding line); [|eauto].
  destruct (split reIndicator line) as [|first rest] eqn:S.
  - exfalso. apply (split_nonempty reIndicator line); [|exact S].
    apply orb_false_iff in G. destruct G as [G _]. apply Nat.ltb_ge in G.
    destruct line; [simpl in G; lia | discriminate].
  - cbv zeta.
    destruct (_ || _ || _); [eauto|].
    destruct (test skipWords _); [eauto|].
    rewrite findCoordinates_objs. simpl. eauto.
Qed.

Lemma forEach_strategy1_total words : forall lines index st,
  exists st', forEach (strategy1 (map WordObj words)) lines index st = Ok st'.
Proof.
  induction lines as [|line lines IH]; intros index st; simpl; [eauto|].
  destruct (strategy1_total words st line index) as [st1 ->]. simpl. apply IH.
Qed.

Lemma strategy1_remembers words st line index st' :
  Remembered st -> strategy1 words st line index = Ok st' -> Remembered st'.
Proof.
  destruct st as [fs found]. unfold strategy1. intros Hinv H.
  destruct ((String.length line <? 2) || (150 <? String.length line));
    [now injection H as <-|].
  destruct (hasFieldIndicator line || hasFieldEnding line); [|now injection H as <-].
  destruct (split reIndicator line) as [|first rest]; [discriminate|].
  cbv zeta in H.
  set (lbl := replace reAsterisks "" (replace reNumbering "" (trim first))) in *.
  destruct ((String.length lbl <? 2) || (80 <? String.length lbl)
            || bool_decide (toLowerCase lbl ∈ found)) eqn:G;
    [now injection H as <-|].
  destruct (test skipWords lbl) eqn:Sk; [now injection H as <-|].
  unfold bind in H. destruct (findCoordinatesForLabel lbl words); [|discriminate].
  injection H as <-.
  apply orb_false_iff in G. destruct G as [G Gf].
  apply orb_false_iff in G. destruct G as [G2 G80].
  apply Nat.ltb_ge in G2. apply Nat.ltb_ge in G80.
  apply bool_decide_eq_false in Gf.
  destruct Hinv as (Hset & Hnd & Hall). simpl in Hset, Hnd, Hall.
  unfold Remembered, labelKeys in *. simpl.
  rewrite map_app. simpl.
  split; [|split].
  - rewrite list_to_set_app_L, <- Hset. simpl.
    rewrite union_empty_r_L. apply union_comm_L.
  - apply List.NoDup_app; [exact Hnd | repeat constructor; intros [] |].
    intros k Hk [<- | []]. apply Gf. rewrite Hset.
    apply elem_of_list_to_set. now apply list_elem_of_In.
  - apply Forall_app. split; [exact Hall|].
    constructor; [|constructor]. unfold Detected. simpl. auto.
Qed.

Lemma forEach_remembers f :
  (forall st line index st',
      Remembered st -> f st line index = Ok st' -> Remembered st') ->
  forall lines index st st',
    Remembered st -> forEach f lines index st = Ok st' -> Remembered st'.
Proof.
  intros Hf. induction lines as [|line lines IH]; intros index st st' Hr H; simpl in H.
  - now injection H as <-.
  - unfold bind in H. destruct (f st line index) as [st1|] eqn:E; [|discriminate].
    eapply IH; [|exact H]. eapply Hf; eauto.
Qed.

Lemma strategy2Types_throws line index : forall table st e,
  strategy2Types table st line index = Throw e -> e = noText.
Proof.
  induction table as [|[ty pattern] table IH]; intros st e H; simpl in H.
  - discriminate.
  - destruct st as [fs found].
    destruct (test pattern line); [|eauto].
    destruct (match0 pattern line); [|eauto].
    match type of H with (if ?b then _ else _) = _ => destruct b end; [|eauto].
    rewrite findCoordinates_among_pieces in H. now injection H as <-.
Qed.

Lemma strategy2_throws st line index e :
  strategy2 st line index = Throw e -> e = noText.
Proof.
  unfold strategy2. destruct (_ || _); [discriminate|].
  apply strategy2Types_throws.
Qed.

(** The second pass as a whole: it leaves the fields as they were, or
    it throws. *)
Lemma forEach_strategy2 : forall lines index st,
  forEach strategy2 lines index st = Ok st
  \/ forEach strategy2 lines index st = Throw noText.
Proof.
  induction lines as [|line lines IH]; intros index st; simpl; [now left|].
  destruct (strategy2 st line index) as [st1|e] eqn:E; simpl.
  - apply strategy2_adds_nothing in E. subst st1. apply IH.
  - apply strategy2_throws in E. subst e. now right.
Qed.

Lemma generic_detected :
  List.NoDup (labelKeys genericFields) /\ Forall Detected genericFields.
Proof.
  split.
  - unfold labelKeys, genericFields. simpl.
    repeat (constructor; [simpl; intuition discriminate|]). constructor.
  - unfold genericFields, Detected.
    repeat constructor; simpl; try (vm_compute; lia); vm_compute; reflexivity.
Qed.

Lemma length_substring0 n s : String.length (substring0 n s) <= n.
Proof.
  unfold substring0. rewrite ValidationFacts.length_str. apply firstn_le_length.
Qed.

Lemma detect_cases (text : string) (words : list Word) :
  exists fs found,
    forEach (strategy1 (map WordObj words)) (linesOf text) 0 ([], ∅) = Ok (fs, found)
    /\ (5 <= List.length fs -> detectFormFields text words = Ok fs)
    /\ (detectFormFields text words =
          Ok (if List.length fs =? 0 then genericFields else fs)
        \/ detectFormFields text words = Throw noText).
Proof.
  destruct (forEach_strategy1_total words (linesOf text) 0 ([], ∅)) as [[fs found] E].
  exists fs, found. split; [exact E|].
  unfold detectFormFields, detectPasses. rewrite E. simpl.
  split.
  - intros H5. apply Nat.ltb_ge in H5. rewrite H5. simpl.
    destruct (List.length fs =? 0) eqn:E0; [|reflexivity].
    apply Nat.eqb_eq in E0. apply Nat.ltb_ge in H5. lia.
  - destruct (List.length fs <? 5).
    + destruct (forEach_strategy2 (linesOf text) 0 (fs, found)) as [-> | ->];
        [left | now right].
      simpl. now destruct (List.length fs =? 0).
    + left. simpl. now destruct (List.length fs =? 0).
Qed.

End DetectFacts.

Import DetectFacts.

(** X14.  Detection with the word boxes of the OCR result: the first
    pass never fails; with five or more fields from it they are the
    result; otherwise the second pass adds no field, so the result is
    the fields of the first pass, the generic schema when there are
    none, or the TypeError of the second pass. *)
Theorem detect_outcome (text : string) (words : list Word) :
  exists fs found,
    forEach (strategy1 (map WordObj words)) (linesOf text) 0 ([], ∅) = Ok (fs, found)
    /\ (5 <= List.length fs -> detectFormFields text words = Ok fs)
    /\ (detectFormFields text words =
          Ok (if List.length fs =? 0 then genericFields else fs)
        \/ detectFormFields text words = Throw noText).
Proof. apply detect_cases. Qed.

(** X15.  Whatever detection returns, no two fields have the same label
    up to letter case, every label has between 2 and 80 units and is
    not one of the skipped words, and no field carries a value or the
    name of a control. *)
Theorem detected_fields_distinct (text : string) (words : list Word)
  (fs : list FormField) :
  detectFormFields text words = Ok fs ->
  List.NoDup (labelKeys fs) /\ Forall Detected fs.
Proof.
  unfold detectFormFields, detectPasses, bind. intros H.
  destruct (forEach (strategy1 _) _ 0 _) as [st1|] eqn:E1; [|discriminate].
  assert (Remembered st1) as H1.
  { refine (forEach_remembers _ _ _ _ ([], ∅) _ _ E1).
    - intros. eapply strategy1_remembers; eauto.
    - unfold Remembered, labelKeys. simpl. repeat split; constructor. }
  assert (exists st, Remembered st /\
            (if List.length (fst st) =? 0 then Ok genericFields else Ok (fst st))
            = Ok fs) as (st & Hr & Hfs).
  { destruct (List.length (fst st1) <? 5).
    - destruct (forEach_strategy2 (linesOf text) 0 st1) as [E | E];
        rewrite E in H; [|discriminate]. eauto.
    - eauto. }
  destruct (List.length (fst st) =? 0); injection Hfs as <-.
  - apply generic_detected.
  - destruct Hr as (_ & Hnd & Hall). auto.
Qed.

Lemma detected_fields_distinct_witness :
  exists fs,
    detectFormFields "Name:
Email:
Phone:
City:
Date:
NAME:" [] = Ok fs
    /\ List.length fs = 5
    /\ List.NoDup (labelKeys fs) /\ Forall Detected fs.
Proof.
  eexists. split; [vm_compute; reflexivity|].
  split; [reflexivity|].
  apply (detected_fields_distinct "Name:
Email:
Phone:
City:
Date:
NAME:" []).
  vm_compute. reflexivity.
Defined.

(** X16.  Locating a label among the word boxes never fails.  A result
    is the box of the first word whose lower-cased text includes a
    piece of the lower-cased label, with the input point ten units
    right of the box, at its top; there is none exactly when no word
    does. *)
Theorem findCoordinates_on_words (label : string) (words : list Word) :
  exists r,
    findCoordinatesForLabel label (map WordObj words) = Ok r
    /\ match r with
       | Some c =>
           exists before w after,
             words = before ++ w :: after
             /\ locates label w = true
             /\ forallb (fun w' => negb (locates label w')) before = true
             /\ x c = x0 w /\ y c = y0 w
             /\ (x c + width c = x1 w)%Z /\ (y c + height c = y1 w)%Z
             /\ inputX c = (x c + width c + 10)%Z /\ inputY c = y c
       | None => forallb (fun w => negb (locates label w)) words = true
       end.
Proof.
  rewrite findCoordinates_objs. eexists. split; [reflexivity|].
  induction words as [|w words IH]; simpl; [reflexivity|].
  destruct (locates label w) eqn:E.
  - exists [], w, words. simpl. repeat split; try lia. exact E.
  - destruct (find (locates label) words) as [w'|]; simpl in *.
    + destruct IH as (before & w1 & after & -> & Hl & Hb & Hrest).
      exists (w :: before), w1, after. simpl. rewrite E, Hb. auto.
    + exact IH.
Qed.

Module ProcessFacts.
Import RegexFacts OcrFacts.

Lemma mapControls_shape : forall controls index,
  map pdfFieldName (mapControls controls index) = map (fun c => Some (c_name c)) controls
  /\ map position (mapControls controls index) =
       map Some (seq index (List.length controls))
  /\ Forall (fun f => required f = true /\ value f = None /\ coordinates f = None)
       (mapControls controls index).
Proof.
  induction controls as [|c controls IH]; intros index; simpl.
  - repeat split. constructor.
  - destruct (IH (S index)) as (-> & -> & Hall). repeat split.
    constructor; [simpl; auto | exact Hall].
Qed.

Lemma mapControls_types : forall controls index,
  map type (mapControls controls index) = map controlType controls.
Proof.
  induction controls as [|c controls IH]; intros index; simpl; [reflexivity|].
  now rewrite IH.
Qed.

Lemma detectFormFields_nonempty text words fs :
  detectFormFields text words = Ok fs -> fs <> [].
Proof.
  unfold detectFormFields, bind. intros H.
  destruct (detectPasses text words) as [st|]; [|discriminate].
  destruct (List.length (fst st) =? 0) eqn:E; injection H as <-.
  - discriminate.
  - apply Nat.eqb_neq in E. intros Hnil. rewrite Hnil in E. now apply E.
Qed.

(** A text without word boxes: no field is located. *)
Lemma strategy1_unlocated st line index st' :
  Forall (fun f => coordinates f = None) (fst st) ->
  strategy1 [] st line index = Ok st' ->
  Forall (fun f => coordinates f = None) (fst st').
Proof.
  destruct st as [fs found]. unfold strategy1. simpl. intros Hfs H.
  repeat match type of H with
         | (if ?b then _ else _) = _ => destruct b
         | match ?l with [] => _ | _ :: _ => _ end = _ => destruct l
         | Ok _ = Ok _ => injection H as <-
         | Throw _ = Ok _ => discriminate
         end; try assumption.
  simpl. apply Forall_app. split; [assumption|]. now repeat constructor.
Qed.

Lemma forEach_unlocated f :
  (forall st line index st',
      Forall (fun f => coordinates f = None) (fst st) -> f st line index = Ok st' ->
      Forall (fun f => coordinates f = None) (fst st')) ->
  forall lines index st st',
    Forall (fun f => coordinates f = None) (fst st) ->
    forEach f lines index st = Ok st' ->
    Forall (fun f => coordinates f = None) (fst st').
Proof.
  intros Hf. induction lines as [|line lines IH]; intros index st st' Hr H; simpl in H.
  - now injection H as <-.
  - unfold bind in H. destruct (f st line index) as [st1|] eqn:E; [|discriminate].
    eapply IH; [|exact H]. eapply Hf; eauto.
Qed.

Lemma detectFormFields_unlocated text fs :
  detectFormFields text [] = Ok fs -> Forall (fun f => coordinates f = None) fs.
Proof.
  unfold detectFormFields, detectPasses, bind. intros H. simpl in H.
  destruct (forEach (strategy1 []) _ 0 _) as [st1|] eqn:E1; [|discriminate].
  assert (Forall (fun f => coordinates f = None) (fst st1)) as H1.
  { refine (forEach_unlocated _ _ _ _ ([], ∅) _ _ E1); [|constructor].
    intros. eapply strategy1_unlocated; eauto. }
  assert (exists st : acc, Forall (fun f => coordinates f = None) (fst st) /\
            (if List.length (fst st) =? 0 then Ok genericFields else Ok (fst st))
            = Ok fs) as (st & Hr & Hfs).
  { destruct (List.length (fst st1) <? 5); [|eauto].
    destruct (DetectFacts.forEach_strategy2 (linesOf text) 0 st1) as [E | E];
      rewrite E in H; [|discriminate]. eauto. }
  destruct (List.length (fst st) =? 0); injection Hfs as <-; [|exact Hr].
  unfold genericFields. now repeat constructor.
Qed.

Lemma processForm_cases (u : Upload) (s : FormSchema) :
  processForm u = Ok s ->
  fields s <> []
  /\ totalFields s = List.length (fields s)
  /\ String.length (extractedText s) <= 500
  /\ (includes (mimeType u) "pdf" = true -> isPDFForm s = false ->
      Forall (fun f => coordinates f = None) (fields s)
      /\ imageWidth s = None /\ imageHeight s = None).
Proof.
  assert (forall text words w h,
             textSchema text words w h = Ok s ->
             fields s <> [] /\ totalFields s = List.length (fields s)
             /\ String.length (extractedText s) <= 500
             /\ isPDFForm s = false /\ imageWidth s = w /\ imageHeight s = h
             /\ detectFormFields text words = Ok (fields s)) as Htext.
  { intros text words w h H. unfold textSchema, bind in H.
    destruct (detectFormFields text words) as [fs|] eqn:E; [|discriminate].
    injection H as <-. simpl.
    repeat split; [now apply detectFormFields_nonempty in E|].
    apply DetectFacts.length_substring0. }
  unfold processForm. intros H.
  destruct (includes (mimeType u) "pdf") eqn:Hpdf.
  - destruct (extractPDFFormFields (pdfControls u)) as [[|f fs]|].
    + destruct (pdfText u) as [text|]; [|discriminate].
      apply Htext in H. destruct H as (H1 & H2 & H3 & _ & H5 & H6 & H7).
      repeat split; try assumption. now apply detectFormFields_unlocated in H7.
    + injection H as <-. simpl. repeat split; try discriminate.
      apply (Nat.leb_le 20 500). reflexivity.
    + destruct (pdfText u) as [text|]; [|discriminate].
      apply Htext in H. destruct H as (H1 & H2 & H3 & _ & H5 & H6 & H7).
      repeat split; try assumption. now apply detectFormFields_unlocated in H7.
  - destruct (includes (mimeType u) "image"); [|discriminate].
    destruct (ocr u) as [d|]; [|discriminate].
    apply Htext in H. destruct H as (H1 & H2 & H3 & _).
    repeat split; try assumption; discriminate.
Qed.

End ProcessFacts.

Import ProcessFacts.

(** X17.  A PDF with at least one control is described by its controls
    alone, whatever its text: one required field per control, in order,
    carrying the control's name and its index, typed as a checkbox for
    check boxes and radio groups, and without coordinates. *)
Theorem pdf_schema_mirrors_controls (u : Upload) (controls : list PdfControl) :
  includes (mimeType u) "pdf" = true ->
  pdfControls u = Some controls -> controls <> [] ->
  exists s,
    processForm u = Ok s
    /\ isPDFForm s = true
    /\ extractedText s = "Interactive PDF Form"
    /\ map pdfFieldName (fields s) = map (fun c => Some (c_name c)) controls
    /\ map position (fields s) = map Some (seq 0 (List.length controls))
    /\ map type (fields s) = map controlType controls
    /\ Forall (fun f => required f = true /\ value f = None /\ coordinates f = None)
         (fields s)
    /\ (forall c, In c controls ->
        c_kind c = PDFCheckBox \/ c_kind c = PDFRadioGroup -> controlType c = t_checkbox).
Proof.
  intros Hpdf Hc Hne. unfold processForm. rewrite Hpdf, Hc.
  destruct controls as [|c controls]; [contradiction|].
  unfold extractPDFFormFields.
  destruct (mapControls_shape (c :: controls) 0) as (Hn & Hp & Hall).
  pose proof (mapControls_types (c :: controls) 0) as Ht.
  destruct (mapControls (c :: controls) 0) as [|f fs] eqn:E; [discriminate|].
  eexists. split; [reflexivity|]. simpl fields. simpl isPDFForm. simpl extractedText.
  repeat split; try assumption.
  intros c' _ [K|K]; unfold controlType; now rewrite K.
Qed.

Lemma pdf_schema_mirrors_controls_witness :
  exists s,
    processForm {| mimeType := "application/pdf"; pdfControls := Some exampleControls;
                   pdfText := None; ocr := None |} = Ok s
    /\ isPDFForm s = true.
Proof.
  destruct (pdf_schema_mirrors_controls
              {| mimeType := "application/pdf"; pdfControls := Some exampleControls;
                 pdfText := None; ocr := None |} exampleControls)
    as (s & H & Hpdf & _); [reflexivity | reflexivity | discriminate |].
  exists s. split; assumption.
Defined.

(** X18.  Every schema processing returns has at least one field, counts
    its fields in [totalFields], and keeps at most 500 units of the
    text; a schema read from the text of a PDF has no located field and
    no raster size. *)
Theorem processForm_schema (u : Upload) (s : FormSchema) :
  processForm u = Ok s ->
  fields s <> []
  /\ totalFields s = List.length (fields s)
  /\ String.length (extractedText s) <= 500
  /\ (includes (mimeType u) "pdf" = true -> isPDFForm s = false ->
      Forall (fun f => coordinates f = None) (fields s)
      /\ imageWidth s = None /\ imageHeight s = None).
Proof. apply processForm_cases. Qed.

Lemma processForm_schema_witness :
  exists s,
    processForm {| mimeType := "application/pdf"; pdfControls := None;
                   pdfText := Some "Name:"; ocr := None |} = Ok s
    /\ fields s <> [] /\ totalFields s = List.length (fields s).
Proof.
  eexists. split; [vm_compute; reflexivity|].
  refine ((fun H => conj (proj1 H) (proj1 (proj2 H)))
            (processForm_schema
               {| mimeType := "application/pdf"; pdfControls := None;
                  pdfText := Some "Name:"; ocr := None |} _ _)).
  vm_compute. reflexivity.
Defined.

(** X19.  Processing refuses a file as unsupported exactly when its MIME
    type mentions neither pdf nor image; no type the upload filter lets
    through is refused so. *)
Theorem accepted_uploads_are_supported (u : Upload) :
  (processForm u = Throw (Error "Unsupported file type. Please upload an image or PDF.")
   <-> includes (mimeType u) "pdf" = false /\ includes (mimeType u) "image" = false)
  /\ (fileFilter (mimeType u) = true ->
      processForm u <> Throw (Error "Unsupported file type. Please upload an image or PDF.")).
Proof.
  assert (processForm u = Throw (Error "Unsupported file type. Please upload an image or PDF.")
          <-> includes (mimeType u) "pdf" = false /\ includes (mimeType u) "image" = false)
    as Hiff.
  { unfold processForm, textSchema, bind. split.
    - intros H. destruct (includes (mimeType u) "pdf").
      + exfalso.
        destruct (extractPDFFormFields (pdfControls u)) as [[|f fs]|];
          try discriminate;
          (destruct (pdfText u) as [text|]; [|discriminate]);
          (destruct (detectFormFields text []) as [fs'|e] eqn:E; [discriminate|]);
          destruct (DetectFacts.detect_cases text []) as (fs' & found & _ & _ & [K|K]);
          rewrite K in E; try discriminate; injection E as <-; discriminate.
      + destruct (includes (mimeType u) "image"); [exfalso | auto].
        destruct (ocr u) as [d|]; [|discriminate].
        destruct (detectFormFields (o_text d) (o_words d)) as [fs'|e] eqn:E;
          [discriminate|].
        destruct (DetectFacts.detect_cases (o_text d) (o_words d)) as (fs' & found & _ & _ & [K|K]);
          rewrite K in E; try discriminate; injection E as <-; discriminate.
    - intros [-> ->]. reflexivity. }
  split; [exact Hiff|].
  intros Hf H. apply Hiff in H. destruct H as [Hp Hi].
  unfold fileFilter, allowedTypes in Hf. simpl in Hf.
  rewrite !orb_true_iff, !String.eqb_eq in Hf.
  destruct Hf as [E|[E|[E|[E|E]]]]; try discriminate E;
    rewrite E in Hp, Hi; vm_compute in Hp, Hi; discriminate.
Qed.

Lemma accepted_uploads_are_supported_witness :
  fileFilter "image/png" = true
  /\ processForm {| mimeType := "image/png"; pdfControls := None;
                    pdfText := None; ocr := None |}
     <> Throw (Error "Unsupported file type. Please upload an image or PDF.").
Proof.
  split; [reflexivity|].
  apply (proj2 (accepted_uploads_are_supported
                  {| mimeType := "image/png"; pdfControls := None;
                     pdfText := None; ocr := None |})).
  reflexivity.
Defined.

Module FillFacts.
Import Pdf PdfFacts.

Lemma logged_nil h : logged h [] = h.
Proof.
  destruct h as [s v [c p l]]. unfold logged. simpl. now rewrite app_nil_r.
Qed.

Lemma logged_logged h a b : logged (logged h a) b = logged h (a ++ b).
Proof. unfold logged. simpl. now rewrite app_assoc. Qed.

Section Engine.
Variable opThrows : DocOp -> bool.
Variable widthOfTextAtSize : Font -> string -> Q -> Q.

Lemma call_logged op h :
  call opThrows op h =
  if opThrows op then (Throw (Error "pdf-lib"), h) else (Ok tt, logged h [op]).
Proof. reflexivity. Qed.

(** A loop whose body makes at most one call, of a given kind, per
    field. *)
Lemma forEachField_logged (P : DocOp -> Prop) f :
  (forall field i h, exists r ops,
      f field i h = (r, logged h ops) /\ List.length ops <= 1 /\ Forall P ops) ->
  forall l i h, exists r ops,
    forEachField f l i h = (r, logged h ops)
    /\ List.length ops <= List.length l /\ Forall P ops.
Proof.
  intros Hf. induction l as [|field l IH]; intros i h; simpl.
  - exists (Ok tt), []. rewrite logged_nil. repeat split; auto.
  - unfold mbind. destruct (Hf field i h) as (r & ops & -> & Hn & Hp).
    destruct r as [[]|e].
    + destruct (IH (S i) (logged h ops)) as (r' & ops' & -> & Hn' & Hp').
      exists r', (ops ++ ops'). rewrite logged_logged, length_app.
      repeat split; [lia | now apply Forall_app].
    + exists (Throw e), ops. repeat split; [lia | assumption].
Qed.

Lemma forEachField_ok f :
  (forall field i h, exists h', f field i h = (Ok tt, h')) ->
  forall l i h, exists h', forEachField f l i h = (Ok tt, h').
Proof.
  intros Hf. induction l as [|field l IH]; intros i h; simpl; [now exists h|].
  unfold mbind. destruct (Hf field i h) as (h' & ->). apply IH.
Qed.

Lemma fillControl_logged c v h :
  exists r ops,
    fillControl opThrows c v h = (r, logged h ops)
    /\ List.length ops <= 1
    /\ Forall (fun op => isAssignment op = true /\ controlOf op = Some (c_name c)) ops.
Proof.
  unfold fillControl.
  destruct (c_kind c);
    repeat match goal with
           | |- context [match ?x with Some _ => _ | None => _ end] => destruct x
           | |- context [if ?b then _ else _] => destruct b
           end;
    try rewrite call_logged;
    try match goal with |- context [if ?b then _ else _] => destruct b end;
    first [ eexists _, [_]; split; [reflexivity|]; split; [simpl; lia|];
            repeat constructor
          | eexists _, []; rewrite logged_nil; split; [reflexivity|];
            split; [simpl; lia | constructor] ].
Qed.

Lemma fillInteractiveField_logged formFields field i h :
  exists ops,
    fillInteractiveField opThrows formFields field i h = (Ok tt, logged h ops)
    /\ List.length ops <= 1
    /\ Forall (fun op => isAssignment op = true
                         /\ exists c, In c formFields /\ controlOf op = Some (c_name c))
         ops.
Proof.
  unfold fillInteractiveField, mbind, readValue.
  assert (exists ops : list DocOp,
             (Ok tt, h) = (Ok tt, logged h ops) /\ List.length ops <= 1
             /\ Forall (fun op => isAssignment op = true
                         /\ exists c, In c formFields /\ controlOf op = Some (c_name c))
                  ops) as Hnone.
  { exists []. rewrite logged_nil. repeat split; auto. }
  destruct (h_values h !! id field) as [v|]; [|exact Hnone].
  destruct (negb (truthy v)); [exact Hnone|].
  destruct (findControl field formFields) as [c|] eqn:E; [|exact Hnone].
  unfold findControl in E. apply find_some in E. destruct E as [Hin _].
  unfold tryCatch.
  destruct (fillControl_logged c v h) as (r & ops & -> & Hn & Hp).
  exists ops. destruct r as [[]|e]; (split; [reflexivity|]); (split; [exact Hn|]);
    (eapply List.Forall_impl; [|exact Hp]); intros op [Ha Hc]; eauto.
Qed.

Lemma fillScannedField_logged pageW pageH field i h :
  exists r ops,
    fillScannedField opThrows widthOfTextAtSize pageW pageH field i h = (r, logged h ops)
    /\ List.length ops <= 1
    /\ Forall (fun op =>
                 isDraw op = true
                 /\ positionOf op =
                    Some (drawPosition (imageWidth (h_schema h)) (imageHeight (h_schema h))
                            pageW pageH field i)) ops
    /\ ((forall op, opThrows op = false) -> r = Ok tt).
Proof.
  unfold fillScannedField, mbind, readValue, readImageWidth, readImageHeight.
  destruct (h_values h !! id field) as [v|];
    [|exists (Ok tt), []; rewrite logged_nil; repeat split; auto].
  destruct (negb (truthy v));
    [exists (Ok tt), []; rewrite logged_nil; repeat split; auto|].
  destruct (drawPosition _ _ pageW pageH field i) as [xPos yPos].
  destruct (type field);
    try match goal with |- context [if shouldCheck ?v then _ else _] =>
          destruct (shouldCheck v) end;
    try rewrite call_logged;
    try match goal with |- context [if opThrows ?op then _ else _] =>
          destruct (opThrows op) eqn:T end;
    first [ eexists _, [_]; split; [reflexivity|]; split; [simpl; lia|];
            split; [repeat constructor | reflexivity]
          | eexists _, []; rewrite logged_nil; split; [reflexivity|];
            split; [simpl; lia|]; split; [constructor|];
            first [ reflexivity
                  | intros Hno; rewrite Hno in T; discriminate T ] ].
Qed.

(** The loop that shortens a text ends with a prefix that fits before
    the dots, or with nothing left. *)
Lemma shorten_spec font fontSize maxWidth : forall fuel l,
  List.length l <= fuel ->
  exists k,
    shorten widthOfTextAtSize fuel font fontSize maxWidth l = firstn k l
    /\ k <= List.length l
    /\ ((widthOfTextAtSize font (str (firstn k l) +:+ "...") fontSize <= maxWidth)%Q
        \/ k = 0).
Proof.
  induction fuel as [|fuel IH]; intros l Hl.
  - destruct l; [|simpl in Hl; lia]. exists 0. simpl. auto.
  - simpl. destruct (Qlt_le_dec _ _) as [Hgt|Hle].
    + destruct l as [|c l'] eqn:El.
      * exists 0. simpl. auto.
      * rewrite <- El in *.
        assert (List.length (removelast l) = List.length l - 1) as Hlen.
        { rewrite removelast_firstn_len, length_firstn. lia. }
        destruct (IH (removelast l)) as (k & Hk & Hkl & Hfit).
        { rewrite Hlen. subst l. simpl in *. lia. }
        exists k. rewrite Hk.
        assert (firstn k (removelast l) = firstn k l) as Hpre.
        { rewrite removelast_firstn_len, firstn_firstn. f_equal. lia. }
        rewrite Hpre in *. repeat split; [lia | exact Hfit].
    + exists (List.length l). rewrite firstn_all. auto.
Qed.

End Engine.

Lemma fillInteractivePDFForm_logged (opThrows : Pdf.DocOp -> bool) (h : Pdf.Heap) :
  exists (b : bool) ops,
    Pdf.fillInteractivePDFForm opThrows h =
      (Ok b, logged h (ops ++ (if b then [Pdf.Flatten] else [])))
    /\ Forall (fun op => isAssignment op = true
                /\ exists c, In c (Pdf.d_controls (Pdf.h_doc h))
                             /\ controlOf op = Some (c_name c)) ops
    /\ List.length ops <= List.length (fields (Pdf.h_schema h))
    /\ (b = true <->
        Pdf.d_controls (Pdf.h_doc h) <> [] /\ opThrows Pdf.Flatten = false)
    /\ (Pdf.d_controls (Pdf.h_doc h) = [] -> ops = []).
Proof.
  unfold Pdf.fillInteractivePDFForm, Pdf.tryCatch, Pdf.mbind, Pdf.readControls,
    Pdf.readFields.
  destruct (Pdf.d_controls (Pdf.h_doc h)) as [|c cs] eqn:C.
  - exists false, []. simpl. rewrite logged_nil.
    repeat split; auto; try discriminate; try lia. intros [K _]. now elim K.
  - assert (forall field i h0, exists r ops,
               Pdf.fillInteractiveField opThrows (c :: cs) field i h0 = (r, logged h0 ops)
               /\ List.length ops <= 1
               /\ Forall (fun op => isAssignment op = true
                     /\ exists c', In c' (c :: cs) /\ controlOf op = Some (c_name c'))
                    ops) as Hbody.
    { intros field i h0.
      destruct (fillInteractiveField_logged opThrows (c :: cs) field i h0)
        as (ops & E & R).
      exists (Ok tt), ops. auto. }
    assert (forall field i h0, exists h',
               Pdf.fillInteractiveField opThrows (c :: cs) field i h0 = (Ok tt, h'))
      as Hok.
    { intros field i h0.
      destruct (fillInteractiveField_logged opThrows (c :: cs) field i h0)
        as (ops & E & _).
      eauto. }
    destruct (forEachField_logged _ _ Hbody (fields (Pdf.h_schema h)) 0 h)
      as (r & ops & E & Hn & Hp).
    destruct (forEachField_ok _ Hok (fields (Pdf.h_schema h)) 0 h) as (h' & E').
    rewrite E' in E. injection E as <- ->. rewrite E'.
    rewrite call_logged.
    destruct (opThrows Pdf.Flatten) eqn:T.
    + exists false, ops. simpl. rewrite app_nil_r.
      repeat split; auto; try discriminate; try lia; now intros [_ K].
    + exists true, ops. simpl. rewrite logged_logged.
      repeat split; auto; try discriminate; lia.
Qed.

Lemma fillScannedForm_logged (opThrows : Pdf.DocOp -> bool)
  (widthOfTextAtSize : Pdf.Font -> string -> Q -> Q) (h : Pdf.Heap) :
  match Pdf.d_page (Pdf.h_doc h) with
  | None =>
      Pdf.fillScannedForm opThrows widthOfTextAtSize h =
        (Throw (TypeError "Cannot read properties of undefined (reading 'getSize')"), h)
  | Some (pageW, pageH) =>
      exists r ops,
        Pdf.fillScannedForm opThrows widthOfTextAtSize h = (r, logged h ops)
        /\ Forall (fun op => isDraw op = true) ops
        /\ List.length ops <= List.length (fields (Pdf.h_schema h))
        /\ ((forall op, opThrows op = false) -> r = Ok tt)
        /\ (Forall (fun f => coordinates f = None) (fields (Pdf.h_schema h)) ->
            Forall (fun op =>
                      exists i, i < List.length (fields (Pdf.h_schema h))
                        /\ positionOf op =
                           Some (150, pageH - 150 - inject_Z (Z.of_nat i) * 25)%Q) ops)
  end.
Proof.
  unfold Pdf.fillScannedForm, Pdf.mbind, Pdf.readPage, Pdf.readFields.
  destruct (Pdf.d_page (Pdf.h_doc h)) as [[pageW pageH]|]; [|reflexivity].
  set (body := Pdf.fillScannedField opThrows widthOfTextAtSize pageW pageH).
  assert (forall l i h0,
             Pdf.h_schema h0 = Pdf.h_schema h ->
             exists r ops,
               Pdf.forEachField body l i h0 = (r, logged h0 ops)
               /\ Forall (fun op => isDraw op = true) ops
               /\ List.length ops <= List.length l
               /\ ((forall op, opThrows op = false) -> r = Ok tt)
               /\ (Forall (fun f => coordinates f = None) l ->
                   Forall (fun op =>
                             exists k, i <= k < i + List.length l
                               /\ positionOf op =
                                  Some (150, pageH - 150 - inject_Z (Z.of_nat k) * 25)%Q)
                     ops)) as Hloop.
  { induction l as [|field l IH]; intros i h0 Hs; simpl.
    - exists (Ok tt), []. rewrite logged_nil. repeat split; auto.
    - unfold Pdf.mbind.
      destruct (fillScannedField_logged opThrows widthOfTextAtSize pageW pageH
                  field i h0) as (r & ops & E & Hn & Hp & Hok).
      fold body in E. rewrite E.
      assert (Forall (fun op => isDraw op = true) ops) as Hd
        by (eapply List.Forall_impl; [|exact Hp]; now intros op [? _]).
      assert (coordinates field = None ->
              Forall (fun op =>
                        exists k, i <= k < i + S (List.length l)
                          /\ positionOf op =
                             Some (150, pageH - 150 - inject_Z (Z.of_nat k) * 25)%Q) ops)
        as Hcol.
      { intros Hc. eapply List.Forall_impl; [|exact Hp]. intros op [_ Hpos].
        exists i. split; [lia|]. rewrite Hpos. unfold Pdf.drawPosition.
        now rewrite Hc. }
      destruct r as [[]|e].
      + destruct (IH (S i) (logged h0 ops) Hs) as (r' & ops' & -> & Hd' & Hn' & Hok' & Hc').
        exists r', (ops ++ ops'). rewrite logged_logged, length_app.
        split; [reflexivity|]. split; [now apply Forall_app|].
        split; [lia|]. split; [exact Hok'|].
        intros Hall. inversion Hall as [|? ? Hf Hl]; subst.
        apply Forall_app. split; [now apply Hcol|].
        eapply List.Forall_impl; [|exact (Hc' Hl)]. intros op (k & Hk & Hop).
        exists k. split; [lia | exact Hop].
      + exists (Throw e), ops. split; [reflexivity|]. split; [exact Hd|].
        split; [lia|]. split; [exact Hok|].
        intros Hall. inversion Hall; subst. now apply Hcol. }
  destruct (Hloop (fields (Pdf.h_schema h)) 0 h eq_refl)
    as (r & ops & E & Hd & Hn & Hok & Hc).
  exists r, ops. repeat split; try assumption.
  intros Hall. eapply List.Forall_impl; [|exact (Hc Hall)].
  intros op (k & Hk & Hop). exists k. split; [lia | exact Hop].
Qed.

End FillFacts.

Import FillFacts.

(** X20.  Filling the controls of a document never throws.  It assigns
    to controls of the document only, at most once per schema field,
    and then flattens the form; it answers true exactly when the
    document has a control and flattening succeeds, and without a
    control it does nothing. *)
Theorem interactive_fill_outcome (opThrows : Pdf.DocOp -> bool) (h : Pdf.Heap) :
  exists (b : bool) ops,
    Pdf.fillInteractivePDFForm opThrows h =
      (Ok b, logged h (ops ++ (if b then [Pdf.Flatten] else [])))
    /\ Forall (fun op => isAssignment op = true
                /\ exists c, In c (Pdf.d_controls (Pdf.h_doc h))
                             /\ controlOf op = Some (c_name c)) ops
    /\ List.length ops <= List.length (fields (Pdf.h_schema h))
    /\ (b = true <->
        Pdf.d_controls (Pdf.h_doc h) <> [] /\ opThrows Pdf.Flatten = false)
    /\ (Pdf.d_controls (Pdf.h_doc h) = [] -> ops = []).
Proof. apply fillInteractivePDFForm_logged. Qed.

(** X21.  The overlay on a document with a first page only draws, at
    most once per schema field, and succeeds when no draw throws; when
    no field has coordinates every draw is in the column x = 150, at
    y = pageH - 150 - 25 i for the index i of a field.  Without a page it
    throws and does nothing. *)
Theorem overlay_outcome (opThrows : Pdf.DocOp -> bool)
  (widthOfTextAtSize : Pdf.Font -> string -> Q -> Q) (h : Pdf.Heap) :
  match Pdf.d_page (Pdf.h_doc h) with
  | None =>
      Pdf.fillScannedForm opThrows widthOfTextAtSize h =
        (Throw (TypeError "Cannot read properties of undefined (reading 'getSize')"), h)
  | Some (pageW, pageH) =>
      exists r ops,
        Pdf.fillScannedForm opThrows widthOfTextAtSize h = (r, logged h ops)
        /\ Forall (fun op => isDraw op = true) ops
        /\ List.length ops <= List.length (fields (Pdf.h_schema h))
        /\ ((forall op, opThrows op = false) -> r = Ok tt)
        /\ (Forall (fun f => coordinates f = None) (fields (Pdf.h_schema h)) ->
            Forall (fun op =>
                      exists i, i < List.length (fields (Pdf.h_schema h))
                        /\ positionOf op =
                           Some (150, pageH - 150 - inject_Z (Z.of_nat i) * 25)%Q) ops)
  end.
Proof. apply fillScannedForm_logged. Qed.

(** X22.  The text drawn for a value is the value itself when it fits;
    otherwise it is a prefix of the value followed by three dots, and
    that fits unless the prefix is empty. *)
Theorem displayText_fits (widthOfTextAtSize : Pdf.Font -> string -> Q -> Q)
  (font : Pdf.Font) (fontSize maxWidth : Q) (textValue : string) :
  (Pdf.displayTextOf widthOfTextAtSize font fontSize maxWidth textValue = textValue
   /\ widthOfTextAtSize font textValue fontSize <= maxWidth)%Q
  \/ exists k,
       let kept := str (firstn k (chars textValue)) in
       Pdf.displayTextOf widthOfTextAtSize font fontSize maxWidth textValue
         = kept +:+ "..."
       /\ k <= String.length textValue
       /\ (maxWidth < widthOfTextAtSize font textValue fontSize)%Q
       /\ ((widthOfTextAtSize font (kept +:+ "...") fontSize <= maxWidth)%Q \/ k = 0).
Proof.
  unfold Pdf.displayTextOf.
  destruct (Qlt_le_dec _ _) as [Hgt|Hle]; [right | now left].
  destruct (shorten_spec widthOfTextAtSize font fontSize maxWidth
              (String.length textValue) (chars textValue)) as (k & Hk & Hkl & Hfit).
  { now rewrite RegexFacts.length_chars. }
  exists k. cbv zeta. rewrite Hk. rewrite RegexFacts.length_chars in Hkl.
  repeat split; assumption.
Qed.

Module GenerateFacts.
Import Pdf PdfFacts.

Lemma unsaved_app a b : unsaved a -> unsaved b -> unsaved (a ++ b).
Proof. intros Ha Hb. apply Forall_app. now split. Qed.

Lemma unsaved_assignments (P : DocOp -> Prop) ops :
  (forall op, P op -> isSave op = false) -> Forall P ops -> unsaved ops.
Proof. intros HP H. eapply List.Forall_impl; [|exact H]. exact HP. Qed.

Section Engine.
Variable opThrows : DocOp -> bool.
Variable widthOfTextAtSize : Font -> string -> Q -> Q.

Lemma interactive_unsaved h :
  unsaved (d_log (h_doc h)) ->
  exists b h',
    fillInteractivePDFForm opThrows h = (Ok b, h')
    /\ unsaved (d_log (h_doc h')).
Proof.
  intros Hh.
  destruct (fillInteractivePDFForm_logged opThrows h) as (b & ops & E & Hp & _).
  exists b. eexists. split; [exact E|]. simpl.
  apply unsaved_app; [exact Hh|]. apply unsaved_app.
  - eapply unsaved_assignments; [|exact Hp].
    intros op [Ha _]. destruct op; try discriminate Ha; reflexivity.
  - destruct b; repeat constructor.
Qed.

Lemma scanned_unsaved h :
  unsaved (d_log (h_doc h)) ->
  exists r h',
    fillScannedForm opThrows widthOfTextAtSize h = (r, h')
    /\ unsaved (d_log (h_doc h')).
Proof.
  intros Hh.
  pose proof (fillScannedForm_logged opThrows widthOfTextAtSize h) as H.
  destruct (d_page (h_doc h)) as [[pageW pageH]|].
  - destruct H as (r & ops & E & Hd & _).
    exists r. eexists. split; [exact E|]. simpl.
    apply unsaved_app; [exact Hh|].
    eapply unsaved_assignments; [|exact Hd].
    intros op Ha. destruct op; try discriminate Ha; reflexivity.
  - eauto.
Qed.

(** The four last steps: all of them are taken and the file is
    written, or one throws and no file is written. *)
Lemma closing_outcome now outputPath h :
  unsaved (d_log (h_doc h)) ->
  let m := (call opThrows (SetTitle "Filled Form") ;;;
            call opThrows (SetAuthor "Intelligent Form Filler") ;;;
            call opThrows (SetCreationDate now) ;;;
            call opThrows (Save outputPath) ;;;
            ret outputPath) in
  m h = (Ok outputPath, logged h (closing now outputPath))
  \/ exists e h', m h = (Throw e, h') /\ unsaved (d_log (h_doc h')).
Proof.
  intros Hh. cbv zeta. unfold mbind. rewrite !call_logged.
  destruct (opThrows (SetTitle _)); [right; eauto|].
  rewrite call_logged.
  destruct (opThrows (SetAuthor _)).
  { right. eexists _, _. split; [reflexivity|]. simpl.
    apply unsaved_app; [exact Hh | repeat constructor]. }
  rewrite call_logged.
  destruct (opThrows (SetCreationDate _)).
  { right. eexists _, _. split; [reflexivity|]. simpl.
    rewrite <- app_assoc. apply unsaved_app; [exact Hh | repeat constructor]. }
  rewrite call_logged.
  destruct (opThrows (Save _)).
  { right. eexists _, _. split; [reflexivity|]. simpl.
    rewrite <- !app_assoc. apply unsaved_app; [exact Hh | repeat constructor]. }
  left. unfold ret. rewrite !logged_logged. reflexivity.
Qed.

Lemma mbind_run {A B} (m : M A) (f : A -> M B) h :
  mbind m f h = match m h with
                | (Ok a, h') => f a h'
                | (Throw e, h') => (Throw e, h')
                end.
Proof. reflexivity. Qed.

Lemma tryCatch_bind {A B} (m : M A) (f : A -> M B) (handler : M B) h :
  tryCatch (mbind m f) handler h =
  match m h with
  | (Ok a, h') => tryCatch (f a) handler h'
  | (Throw e, h') => handler h'
  end.
Proof. unfold tryCatch, mbind. now destruct (m h) as [[a|e] h']. Qed.

Lemma generate_cases src now outputPath h :
  (forall d, asPdf src = Some d -> unsaved (d_log d)) ->
  unsaved (d_log (h_doc h)) ->
  let out := generateFilledPDF opThrows widthOfTextAtSize src now outputPath h in
  (exists ops,
      fst out = Ok outputPath
      /\ d_log (h_doc (snd out)) = ops ++ closing now outputPath
      /\ unsaved ops)
  \/ (fst out = Throw (Error "Failed to generate filled PDF")
      /\ unsaved (d_log (h_doc (snd out)))).
Proof.
  intros Hsrc Hh. cbv zeta.
  unfold generateFilledPDF.
  destruct (negb (readable src)); [right; split; [reflexivity | exact Hh]|].
  rewrite tryCatch_bind.
  match goal with
  | |- context [match ?body h with _ => _ end] =>
      assert (exists r h1, body h = (r, h1) /\ unsaved (d_log (h_doc h1))) as Hbody
  end.
  { destruct (includes (getMimeType (ext src)) "pdf").
    - destruct (asPdf src) as [d|] eqn:Ed;
        [|eexists _, _; split; [reflexivity | exact Hh]].
      rewrite mbind_run. unfold setDoc at 1. cbv beta iota.
      rewrite mbind_run.
      match goal with |- context [fillInteractivePDFForm opThrows ?h0] =>
        destruct (interactive_unsaved h0 (Hsrc d eq_refl)) as (b & h1 & -> & H1) end.
      destruct b; [eexists _, _; split; [reflexivity | exact H1]|].
      destruct (scanned_unsaved h1 H1) as (r & h2 & -> & H2). eauto.
    - rewrite mbind_run. unfold setDoc at 1. cbv beta iota.
      set (h0 := {| h_schema := h_schema h; h_values := h_values h;
                    h_doc := letterPage |}).
      assert (unsaved (d_log (h_doc h0))) as H0 by constructor.
      rewrite mbind_run.
      match goal with
      | |- context [match ?img h0 with _ => _ end] =>
          assert (exists r h1, img h0 = (r, h1) /\ unsaved (d_log (h_doc h1))) as Himg
      end.
      { destruct (_ || _ || _);
          [|eexists _, _; split; [reflexivity | exact H0]].
        destruct (asImage src) as [[imgW imgH]|];
          [|eexists _, _; split; [reflexivity | exact H0]].
        rewrite call_logged.
        destruct (opThrows _); eexists _, _; (split; [reflexivity|]);
          [exact H0|].
        simpl. repeat constructor. unfold placeImage.
        destruct (Qlt_le_dec _ _); reflexivity. }
      destruct Himg as (r & h1 & -> & H1).
      destruct r as [[]|e]; [|eauto].
      destruct (scanned_unsaved h1 H1) as (r & h2 & -> & H2). eauto. }
  destruct Hbody as (r & h1 & -> & H1).
  destruct r as [[]|e]; [|right; split; [reflexivity | exact H1]].
  unfold tryCatch.
  destruct (closing_outcome now outputPath h1 H1) as [E | (e & h' & E & H')];
    cbv zeta in E; rewrite E.
  - left. exists (d_log (h_doc h1)). simpl. auto.
  - right. simpl. auto.
Qed.

End Engine.

End GenerateFacts.

Import GenerateFacts.

(** X23.  Generating the filled document from a freshly loaded source
    either takes every step, the last four being title, author, date
    and the write of the file at the output path, which is returned;
    or it throws the one error "Failed to generate filled PDF", and
    then no file was written. *)
Theorem generate_writes_on_success_only (opThrows : Pdf.DocOp -> bool)
  (widthOfTextAtSize : Pdf.Font -> string -> Q -> Q) (src : Pdf.Source)
  (now : nat) (outputPath : string) (schema : FormSchema)
  (values : gmap string string) :
  (forall d, Pdf.asPdf src = Some d -> Pdf.d_log d = []) ->
  let out := Pdf.fill opThrows widthOfTextAtSize src now outputPath schema values in
  (exists ops,
      fst out = Ok outputPath
      /\ Pdf.d_log (Pdf.h_doc (snd out)) = ops ++ closing now outputPath
      /\ unsaved ops)
  \/ (fst out = Throw (Error "Failed to generate filled PDF")
      /\ unsaved (Pdf.d_log (Pdf.h_doc (snd out)))).
Proof.
  intros Hsrc. unfold Pdf.fill. apply generate_cases.
  - intros d Hd. rewrite (Hsrc d Hd). constructor.
  - constructor.
Qed.

Lemma generate_writes_on_success_only_witness :
  fst (Pdf.fill (fun _ => false) (fun _ _ _ => 0%Q)
         {| Pdf.ext := ".png"; Pdf.readable := true; Pdf.asPdf := None;
            Pdf.asImage := Some (100, 100)%Q |}
         7 "out.pdf" exampleSchema ∅) = Ok "out.pdf".
Proof.
  destruct (generate_writes_on_success_only (fun _ => false) (fun _ _ _ => 0%Q)
              {| Pdf.ext := ".png"; Pdf.readable := true; Pdf.asPdf := None;
                 Pdf.asImage := Some (100, 100)%Q |}
              7 "out.pdf" exampleSchema ∅) as [(ops & E & _) | (E & _)].
  - intros d Hd. discriminate Hd.
  - exact E.
  - vm_compute in E. discriminate E.
Defined.

Module PlacementFacts.
Local Open Scope Q_scope.

Lemma ratio_pos (a b : Q) : 0 < a -> 0 < b -> 0 < a / b.
Proof.
  intros Ha Hb. apply Qlt_shift_div_l; [exact Hb|]. now rewrite Qmult_0_l.
Qed.

Lemma ratio_mult (a b : Q) : 0 < b -> a / b * b == a.
Proof. intros Hb. field. intros K. rewrite K in Hb. now apply Qlt_irrefl in Hb. Qed.

End PlacementFacts.

Import PlacementFacts.

(** X24.  An image with positive sides is placed on the letter page with
    its aspect ratio kept, centred on both axes, with one side filling
    the page less 100 units; it lies within the page, at least 50 units
    from the bottom and the top, but horizontally only 50 * 612 / 792
    (under 39) units are guaranteed. *)
Theorem image_placement (imgW imgH : Q) :
  (0 < imgW -> 0 < imgH ->
   exists x y w h,
     Pdf.placeImage 612 792 imgW imgH = Pdf.DrawImage x y w h
     /\ w * imgH == h * imgW
     /\ x + w + x == 612 /\ y + h + y == 792
     /\ 0 < w /\ 0 < h
     /\ 50 * 612 / 792 <= x /\ 50 <= y
     /\ (w == 512 \/ h == 692))%Q.
Proof.
  intros HW HH. unfold Pdf.placeImage.
  pose proof (ratio_pos imgW imgH HW HH) as Hr.
  pose proof (ratio_mult imgW imgH HH) as Hm.
  set (r := (imgW / imgH)%Q) in *.
  destruct (Qlt_le_dec (612 / 792) r) as [Hwide|Htall].
  - pose proof (ratio_pos (612 - 100) r eq_refl Hr) as Hh.
    pose proof (ratio_mult (612 - 100) r Hr) as Hhm.
    set (h := ((612 - 100) / r)%Q) in *.
    exists 50%Q, ((792 - h) / 2)%Q, (612 - 100)%Q, h.
    split; [reflexivity|].
    assert (612 / 792 == 17 # 22)%Q as E by reflexivity. rewrite E in Hwide.
    assert (h <= 692)%Q as Hh692 by nra.
    split.
    { transitivity (h * r * imgH)%Q;
        [apply Qmult_comp; [symmetry; exact Hhm | reflexivity]|].
      transitivity (h * (r * imgH))%Q; [ring|].
      apply Qmult_comp; [reflexivity | exact Hm]. }
    split; [reflexivity|]. split; [field|]. split; [reflexivity|].
    split; [exact Hh|]. split; [discriminate|].
    split; [|now left].
    apply Qle_shift_div_l; [reflexivity|]. lra.
  - exists ((612 - (792 - 100) * r) / 2)%Q, 50%Q, ((792 - 100) * r)%Q, (792 - 100)%Q.
    split; [reflexivity|].
    assert (612 / 792 == 17 # 22)%Q as E by reflexivity. rewrite E in Htall.
    assert ((792 - 100) * r <= 692 * (17 # 22))%Q as Hw by nra.
    split.
    { transitivity ((792 - 100) * (r * imgH))%Q; [ring|].
      apply Qmult_comp; [reflexivity | exact Hm]. }
    split; [field|]. split; [reflexivity|]. split; [nra|].
    split; [reflexivity|]. split; [|split; [discriminate | now right]].
    apply Qle_trans with (425 # 11)%Q; [discriminate|].
    apply Qle_shift_div_l; [reflexivity|]. lra.
Qed.

Lemma image_placement_witness :
  exists x y w h,
    Pdf.placeImage 612 792 612 792 = Pdf.DrawImage x y w h /\ (x < 50)%Q.
Proof.
  destruct (image_placement 612 792 eq_refl eq_refl) as (x & y & w & h & E & _).
  exists x, y, w, h. split; [exact E|].
  vm_compute in E. injection E as <- _ _ _. reflexivity.
Defined.

Module SummaryFacts.

(** A call that throws, although none is assumed to. *)
Ltac absurd_quiet :=
  match goal with
  | Hq : (forall op, ?t op = false), T : ?t _ = true |- _ =>
      rewrite Hq in T; discriminate T
  end.

Section Summary.
Variable throws : SummaryOp -> bool.
Variable values : gmap string string.

Lemma summaryFields_spec : forall l index y log,
  (y <= 742)%Z ->
  exists ops,
    snd (summaryFields throws values l index y log) = log ++ ops
    /\ Forall onPage ops
    /\ (fst (summaryFields throws values l index y log) = Ok tt
        \/ fst (summaryFields throws values l index y log) = Throw (Error "pdf-lib"))
    /\ ((forall op, throws op = false) ->
        fst (summaryFields throws values l index y log) = Ok tt
        /\ omap drawnText ops = summaryLines values l index).
Proof.
  induction l as [|f rest IH]; intros index y log Hy.
  - exists []. simpl. rewrite app_nil_r. repeat split; auto.
  - cbn [summaryFields]. fold (shownValue values f). fold (shownTitle index f).
    destruct (y <? 50)%Z eqn:Hlow.
    + destruct (throws AddPage) eqn:T1; cbn [negb].
      { exists []. simpl. rewrite app_nil_r. repeat split; auto; try absurd_quiet; repeat constructor. }
      destruct (throws (Draw (shownTitle index f) 50 (792 - 50) 11 true)) eqn:T2.
      { exists [AddPage]. simpl. repeat split; auto; try absurd_quiet; repeat constructor. }
      destruct (throws (Draw (shownValue values f) 70 (792 - 50 - 15) 10 false)) eqn:T3.
      { exists [AddPage; Draw (shownTitle index f) 50 (792 - 50) 11 true].
        simpl. rewrite <- app_assoc. repeat split; auto; try absurd_quiet.
        repeat constructor; simpl; lia. }
      destruct (IH (S index) (792 - 50 - (25 + 15))%Z
                  ((log ++ [AddPage])
                     ++ [Draw (shownTitle index f) 50 (792 - 50) 11 true;
                         Draw (shownValue values f) 70 (792 - 50 - 15) 10 false]))
        as (ops & -> & Hon & Hres & Hall); [lia|].
      exists ([AddPage; Draw (shownTitle index f) 50 (792 - 50) 11 true;
               Draw (shownValue values f) 70 (792 - 50 - 15) 10 false] ++ ops).
      split; [now rewrite <- !app_assoc|].
      split; [apply Forall_app; split; [repeat constructor; simpl; lia | exact Hon]|].
      split; [exact Hres|].
      intros Hno. destruct (Hall Hno) as [Hok Htxt]. split; [exact Hok|].
      rewrite omap_app, Htxt. reflexivity.
    + apply Z.ltb_ge in Hlow. cbn [negb].
      destruct (throws (Draw (shownTitle index f) 50 y 11 true)) eqn:T2.
      { exists []. simpl. rewrite app_nil_r. repeat split; auto; try absurd_quiet; repeat constructor. }
      destruct (throws (Draw (shownValue values f) 70 (y - 15) 10 false)) eqn:T3.
      { exists [Draw (shownTitle index f) 50 y 11 true].
        simpl. repeat split; auto; try absurd_quiet.
        repeat constructor; simpl; lia. }
      destruct (IH (S index) (y - (25 + 15))%Z
                  (log ++ [Draw (shownTitle index f) 50 y 11 true;
                           Draw (shownValue values f) 70 (y - 15) 10 false]))
        as (ops & -> & Hon & Hres & Hall); [lia|].
      exists ([Draw (shownTitle index f) 50 y 11 true;
               Draw (shownValue values f) 70 (y - 15) 10 false] ++ ops).
      split; [now rewrite <- !app_assoc|].
      split; [apply Forall_app; split; [repeat constructor; simpl; lia | exact Hon]|].
      split; [exact Hres|].
      intros Hno. destruct (Hall Hno) as [Hok Htxt]. split; [exact Hok|].
      rewrite omap_app, Htxt. reflexivity.
Qed.

Hypothesis quiet : forall op, throws op = false.

Lemma step_high f rest index y log :
  (50 <= y)%Z ->
  summaryFields throws values (f :: rest) index y log =
  summaryFields throws values rest (S index) (y - 40)%Z
    (log ++ [Draw (shownTitle index f) 50 y 11 true;
             Draw (shownValue values f) 70 (y - 15) 10 false]).
Proof.
  intros Hy. cbn [summaryFields]. apply Z.ltb_ge in Hy. rewrite Hy.
  cbv beta iota zeta. cbn [negb]. now rewrite !quiet.
Qed.

Lemma step_low f rest index y log :
  (y < 50)%Z ->
  summaryFields throws values (f :: rest) index y log =
  summaryFields throws values rest (S index) (742 - 40)%Z
    (log ++ [AddPage; Draw (shownTitle index f) 50 742 11 true;
             Draw (shownValue values f) 70 (742 - 15) 10 false]).
Proof.
  intros Hy. cbn [summaryFields]. apply Z.ltb_lt in Hy. rewrite Hy.
  rewrite quiet. cbv beta iota zeta. cbn [negb]. rewrite !quiet.
  now rewrite <- app_assoc.
Qed.

End Summary.

Lemma createSummaryPDF_cases throws date schema values outputPath :
  let out := createSummaryPDF throws date schema values outputPath in
  exists ops,
    Forall onPage ops
    /\ ((fst out = Ok outputPath /\ snd out = ops ++ [SaveTo outputPath])
        \/ (fst out = Throw (Error "Failed to create summary PDF") /\ snd out = ops))
    /\ ((forall op, throws op = false) ->
        fst out = Ok outputPath
        /\ omap drawnText ops =
             "Filled Form Summary" :: ("Generated: " +:+ date)
               :: summaryLines values (fields schema) 0).
Proof.
  cbv zeta. unfold createSummaryPDF.
  destruct (throws AddPage) eqn:T1.
  { exists []. repeat split; auto; try absurd_quiet; repeat constructor. }
  destruct (throws (Draw "Filled Form Summary" 50 (792 - 50) 18 true)) eqn:T2.
  { exists [AddPage]. repeat split; auto; try absurd_quiet.
    repeat constructor. }
  destruct (throws (Draw ("Generated: " +:+ date) 50 (792 - 75) 10 false)) eqn:T3.
  { exists [AddPage; Draw "Filled Form Summary" 50 (792 - 50) 18 true].
    repeat split; auto; try absurd_quiet.
    repeat constructor; simpl; lia. }
  destruct (summaryFields_spec throws values (fields schema) 0 (792 - 120)%Z
              [AddPage; Draw "Filled Form Summary" 50 (792 - 50) 18 true;
               Draw ("Generated: " +:+ date) 50 (792 - 75) 10 false])
    as (ops & Hlog & Hon & Hres & Hall); [lia|].
  destruct (summaryFields throws values (fields schema) 0 (792 - 120)%Z _)
    as [r log] eqn:E.
  simpl in Hlog, Hres, Hall. subst log.
  exists ([AddPage; Draw "Filled Form Summary" 50 (792 - 50) 18 true;
           Draw ("Generated: " +:+ date) 50 (792 - 75) 10 false] ++ ops).
  split; [apply Forall_app; split; [repeat constructor; simpl; lia | exact Hon]|].
  destruct r as [[]|e].
  - destruct (throws (SaveTo outputPath)) eqn:T4.
    + split; [right; auto|].
      intros Hno. absurd_quiet.
    + split; [left; auto|].
      intros Hno. destruct (Hall Hno) as [_ Htxt]. split; [reflexivity|].
      rewrite omap_app, Htxt. reflexivity.
  - split; [right; auto|].
    intros Hno. destruct (Hall Hno) as [Hok _]. discriminate Hok.
Qed.

End SummaryFacts.

Import SummaryFacts.

(** X25.  The summary either returns the output path, the write of the
    file being its last call, or throws the one error "Failed to create
    summary PDF" without a write.  Every text is drawn in the columns
    x = 50 and x = 70 at a height between 35 and 742; when no call
    throws the texts are the heading, the date line and, for each field
    in order, its numbered label and its value or N/A. *)
Theorem summary_outcome (throws : SummaryOp -> bool) (date : string)
  (schema : FormSchema) (values : gmap string string) (outputPath : string) :
  let out := createSummaryPDF throws date schema values outputPath in
  exists ops,
    Forall onPage ops
    /\ ((fst out = Ok outputPath /\ snd out = ops ++ [SaveTo outputPath])
        \/ (fst out = Throw (Error "Failed to create summary PDF") /\ snd out = ops))
    /\ ((forall op, throws op = false) ->
        fst out = Ok outputPath
        /\ omap drawnText ops =
             "Filled Form Summary" :: ("Generated: " +:+ date)
               :: summaryLines values (fields schema) 0).
Proof. apply createSummaryPDF_cases. Qed.

(** X26.  Every text of a summary goes to the page created first.  So
    with more than sixteen fields, when no call throws, the title of
    the seventeenth field is drawn where the heading is, at (50, 742)
    of that page, after a page was added that stays blank. *)
Theorem summary_overprints_heading (throws : SummaryOp -> bool) (date : string)
  (schema : FormSchema) (values : gmap string string) (outputPath : string)
  (f : FormField) :
  (forall op, throws op = false) ->
  nth_error (fields schema) 16 = Some f ->
  let log := snd (createSummaryPDF throws date schema values outputPath) in
  In (Draw "Filled Form Summary" 50 742 18 true) log
  /\ In (Draw (shownTitle 16 f) 50 742 11 true) log
  /\ In AddPage (tl log).
Proof.
  intros quiet Hnth. cbv zeta. unfold createSummaryPDF.
  rewrite !quiet.
  destruct (fields schema) as [|f0 [|f1 [|f2 [|f3 [|f4 [|f5 [|f6 [|f7 [|f8 [|f9
    [|f10 [|f11 [|f12 [|f13 [|f14 [|f15 [|f16 rest]]]]]]]]]]]]]]]]];
    try discriminate Hnth.
  injection Hnth as ->.
  do 16 (rewrite (step_high throws values quiet) by lia).
  rewrite (step_low throws values quiet) by lia.
  match goal with
  | |- context [summaryFields throws values rest ?i ?y ?l] =>
      destruct (summaryFields_spec throws values rest i y l) as (ops & Hlog & _);
        [lia|];
      assert (forall more,
                 In (Draw "Filled Form Summary" 50 742 18 true) ((l ++ ops) ++ more)
                 /\ In (Draw (shownTitle 16 f) 50 742 11 true) ((l ++ ops) ++ more)
                 /\ In AddPage (tl ((l ++ ops) ++ more))) as Hin;
        [intros more; rewrite <- !app_assoc; cbn [app tl];
         split; [right; left; reflexivity|];
         split; [do 36 right | do 34 right]; left; reflexivity|];
      destruct (summaryFields throws values rest i y l) as [r log]
  end.
  simpl snd in Hlog. subst log.
  destruct r as [[]|e]; cbv beta iota.
  - cbn [snd]. apply Hin.
  - cbn [snd]. specialize (Hin []). rewrite app_nil_r in Hin. exact Hin.
Qed.

Lemma summary_overprints_heading_witness :
  In (Draw "Filled Form Summary" 50 742 18 true)
    (snd (createSummaryPDF (fun _ => false) "1/1/2026"
            {| extractedText := ""; fields := repeat exampleBoxedField 17;
               totalFields := 17; imageWidth := None; imageHeight := None;
               isPDFForm := false |} ∅ "out.pdf")).
Proof.
  apply (summary_overprints_heading (fun _ => false) "1/1/2026"
           {| extractedText := ""; fields := repeat exampleBoxedField 17;
              totalFields := 17; imageWidth := None; imageHeight := None;
              isPDFForm := false |} ∅ "out.pdf" exampleBoxedField).
  - reflexivity.
  - reflexivity.
Defined.

Module RouteFacts.
Import Pdf.

Lemma unlink_added path (fs : gset string) :
  unlink path ({[path]} ∪ fs) = Some (fs ∖ {[path]}).
Proof.
  unfold unlink.
  rewrite bool_decide_eq_true_2 by (apply elem_of_union_l; now apply elem_of_singleton_2).
  f_equal. apply set_eq. intros x.
  rewrite !elem_of_difference, elem_of_union, elem_of_singleton. tauto.
Qed.

Lemma unlink_present path (fs : gset string) :
  path ∈ fs -> unlink path fs = Some (fs ∖ {[path]}).
Proof. intros H. unfold unlink. now rewrite bool_decide_eq_true_2. Qed.

Lemma unlink_absent path (fs : gset string) : path ∉ fs -> unlink path fs = None.
Proof. intros H. unfold unlink. now rewrite bool_decide_eq_false_2. Qed.

Section Engine.
Variable opThrows : DocOp -> bool.
Variable widthOfTextAtSize : Font -> string -> Q -> Q.

(** A fill that returns has read its source, and returns the output
    path. *)
Lemma fill_returns src now outputPath schema values p h :
  fill opThrows widthOfTextAtSize src now outputPath schema values = (Ok p, h) ->
  readable src = true /\ p = outputPath.
Proof.
  unfold fill, generateFilledPDF. intros H.
  destruct (readable src); [|discriminate H]. split; [reflexivity|].
  cbn [negb] in H. rewrite GenerateFacts.tryCatch_bind in H.
  match type of H with
  | match ?body ?h0 with _ => _ end = _ => destruct (body h0) as [[[]|e] h1]
  end; [|discriminate H].
  unfold tryCatch, mbind in H. rewrite !call_logged in H.
  repeat match type of H with
         | context [if opThrows ?op then _ else _] =>
             destruct (opThrows op); [discriminate H|]; try rewrite call_logged in H
         end.
  unfold ret in H. now injection H as <- _.
Qed.

End Engine.

Lemma summary_returns throws date schema values outputPath p log :
  createSummaryPDF throws date schema values outputPath = (Ok p, log) ->
  p = outputPath.
Proof.
  intros H.
  destruct (SummaryFacts.createSummaryPDF_cases throws date schema values outputPath)
    as (ops & _ & [[E _] | [E _]] & _); rewrite H in E; simpl in E; congruence.
Qed.

Lemma size_recorded (s : Session) :
  List.NoDup (map id (fields (formSchema s))) ->
  currentFieldIndex s <= List.length (fields (formSchema s)) ->
  dom (filledFields s) =
    list_to_set (map id (firstn (currentFieldIndex s) (fields (formSchema s)))) ->
  size (filledFields s) = currentFieldIndex s.
Proof.
  intros Hnd Hle Hdom.
  rewrite <- size_dom, Hdom, size_list_to_set.
  - rewrite length_map, length_firstn. lia.
  - apply NoDup_ListNoDup.
    rewrite <- (firstn_skipn (currentFieldIndex s) (fields (formSchema s))) in Hnd.
    rewrite map_app in Hnd. now apply NoDup_app_remove_r in Hnd.
Qed.

End RouteFacts.

Import RouteFacts.

(** X27.  An upload that processing accepts creates the session under
    the new id: cursor 0, nothing recorded, not complete, the stored
    file as its original, the first question as its only history entry,
    well formed; the file is kept.  Without an answer of the model the
    question asks for the first field.  An upload that processing
    refuses is answered 500 with the error's message, creates no
    session and leaves no file. *)
Theorem upload_outcome (askModel : Session -> option string -> option Response)
  (path : string) (u : Upload) (sid : string) (now t : nat) (w : World) :
  let out := uploadForm askModel (Some (path, u)) sid now t w in
  match processForm u with
  | Ok schema =>
      exists q session,
        fst out = Uploaded sid schema q
        /\ sessions (snd out) = <[sid := session]> (sessions w)
        /\ files (snd out) = {[path]} ∪ files w
        /\ formSchema session = schema
        /\ filledFields session = ∅
        /\ currentFieldIndex session = 0
        /\ isComplete session = false
        /\ createdAt session = now
        /\ originalFilePath session = Some path
        /\ conversationHistory session = [assistantTurn t q]
        /\ WellFormed session
        /\ ((forall s m, askModel s m = None) ->
            exists f, hd_error (fields schema) = Some f /\ q = fallbackQuestion f)
  | Throw e =>
      fst out = UploadStatus 500 "Failed to process form" (Some (message_of e))
      /\ sessions (snd out) = sessions w
      /\ files (snd out) = files w ∖ {[path]}
  end.
Proof.
  cbv zeta. unfold uploadForm.
  destruct (processForm u) as [schema|e] eqn:E.
  - unfold setOriginalFilePath, createSession, getSession, addMessage.
    rewrite !SessionFacts.update_insert. rewrite lookup_insert_eq.
    rewrite SessionFacts.update_insert. cbn [fst snd sessions files].
    eexists _, _. split; [reflexivity|]. split; [reflexivity|].
    cbn -[Routes.generateNextQuestion].
    do 8 (split; [reflexivity|]).
    destruct (ProcessFacts.processForm_cases u schema E) as [Hne _].
    split.
    + unfold WellFormed.
      cbn [fields formSchema currentFieldIndex isComplete filledFields firstn map
           list_to_set].
      split; [exact Hne|]. split; [lia|]. split; [|now rewrite dom_empty_L].
      split; [discriminate|].
      intros H. destruct (fields schema); [now elim Hne | discriminate H].
    + intros Hno. unfold Routes.generateNextQuestion. rewrite Hno.
      cbn [fields formSchema currentFieldIndex].
      destruct (fields schema) as [|f fs]; [now elim Hne|].
      exists f. split; reflexivity.
  - rewrite unlink_added. auto.
Qed.

(** X28.  The export answers with a status and changes nothing, or it
    sends the file written at filled_form_<id>.pdf for a session that
    exists and is complete.  After the download that file is removed;
    then the original, which was still there, is removed and the
    session deleted - unless the original is that very file, in which
    case the session stays.  A session without an original gets the
    summary and is deleted. *)
Theorem export_outcome (opThrows : Pdf.DocOp -> bool)
  (widthOfTextAtSize : Pdf.Font -> string -> Q -> Q)
  (summaryThrows : SummaryOp -> bool) (decoded : string -> Pdf.Source)
  (outputDir : string) (now : nat) (date : string) (sid : string) (w : World) :
  let out := exportPdf opThrows widthOfTextAtSize summaryThrows decoded outputDir
               now date sid w in
  let p := outputDir +:+ "/filled_form_" +:+ sid +:+ ".pdf" in
  (exists code err,
      fst out = ExportStatus code err /\ snd out = w
      /\ (code = 400 \/ code = 404 \/ code = 500))
  \/ (exists session content,
        fst out = Download p content
        /\ sid <> ""
        /\ getSession sid (sessions w) = Some session
        /\ isComplete session = true
        /\ match originalOf session, content with
           | Some orig, Filled _ =>
               orig ∈ files w
               /\ (orig <> p ->
                   sessions (snd out) = deleteSession sid (sessions w)
                   /\ files (snd out) = files w ∖ {[p]} ∖ {[orig]})
               /\ (orig = p ->
                   sessions (snd out) = sessions w
                   /\ files (snd out) = files w ∖ {[p]})
           | None, Summarized _ =>
               sessions (snd out) = deleteSession sid (sessions w)
               /\ files (snd out) = files w ∖ {[p]}
           | _, _ => False
           end).
Proof.
  cbv zeta. unfold exportPdf.
  destruct (truthy sid) eqn:Hsid; cbn [negb]; [|left; eauto 8].
  assert (sid <> "") as Hne by (intros ->; discriminate Hsid).
  destruct (getSession sid (sessions w)) as [session|] eqn:Hs; [|left; eauto 8].
  destruct (isComplete session) eqn:Hc; cbn [negb]; [|left; eauto 8].
  set (p := outputDir +:+ "/filled_form_" +:+ sid +:+ ".pdf").
  destruct (originalOf session) as [orig|] eqn:Ho.
  - match goal with
    | |- context [fill opThrows widthOfTextAtSize ?src now p ?sc ?vs] =>
        destruct (fill opThrows widthOfTextAtSize src now p sc vs) as [[p'|e] h] eqn:E;
        [apply fill_returns in E; destruct E as [Hr ->] | left; eauto 8]
    end.
    simpl in Hr. apply bool_decide_eq_true_1 in Hr.
    right. exists session, (Filled (h_doc h)).
    split; [reflexivity|]. split; [exact Hne|]. split; [reflexivity|].
    split; [exact Hc|]. rewrite Ho.
    split; [exact Hr|].
    cbn [snd]. unfold cleanupAfterDownload. cbn [files sessions].
    rewrite unlink_added. split.
    + intros Hop. rewrite unlink_present; [auto|].
      apply elem_of_difference. split; [exact Hr|].
      intros K. apply elem_of_singleton in K. contradiction.
    + intros ->. rewrite unlink_absent; [auto|].
      intros K. apply elem_of_difference in K. destruct K as [_ K].
      apply K. now apply elem_of_singleton_2.
  - destruct (createSummaryPDF summaryThrows date _ _ p) as [[p'|e] log] eqn:E;
      [apply summary_returns in E; subst p' | left; eauto 8].
    right. exists session, (Summarized log).
    split; [reflexivity|]. split; [exact Hne|]. split; [reflexivity|].
    split; [exact Hc|]. rewrite Ho.
    cbn [snd]. unfold cleanupAfterDownload. cbn [files sessions].
    rewrite unlink_added. auto.
Qed.

(** X29.  Deleting a session by the route removes it and no other,
    removes at most the session's original from the files, and done
    again changes nothing. *)
Theorem delete_route_effect (sid : string) (w : World) :
  let w' := deleteRoute sid w in
  getSession sid (sessions w') = None
  /\ (forall sid', sid' <> sid ->
        getSession sid' (sessions w') = getSession sid' (sessions w))
  /\ (forall p, p ∈ files w' -> p ∈ files w)
  /\ (forall p, p ∈ files w -> p ∉ files w' ->
        exists s, getSession sid (sessions w) = Some s
                  /\ originalFilePath s = Some p)
  /\ deleteRoute sid w' = w'.
Proof.
  cbv zeta. unfold deleteRoute, getSession, deleteSession. cbn [sessions files].
  split; [apply lookup_delete_eq|].
  split; [intros sid' Hne; now apply lookup_delete_ne|].
  rewrite lookup_delete_eq, delete_delete_eq.
  destruct (sessions w !! sid) as [s|] eqn:Hs;
    [|repeat split; auto; intros; tauto].
  unfold originalOf. destruct (originalFilePath s) as [orig|] eqn:Ho;
    [|repeat split; auto; intros; tauto].
  destruct (truthy orig); [|repeat split; auto; intros; tauto].
  unfold unlink. destruct (bool_decide (orig ∈ files w)) eqn:Hin;
    [|repeat split; auto; intros; tauto].
  split; [intros p Hp; now apply elem_of_difference in Hp|].
  split; [|reflexivity].
  intros p Hp Hnp. exists s. split; [reflexivity|].
  rewrite Ho. f_equal. destruct (decide (p = orig)) as [->|Hd]; [reflexivity|].
  exfalso. apply Hnp. apply elem_of_difference. split; [exact Hp|].
  intros K. apply elem_of_singleton in K. contradiction.
Qed.

(** X30.  The state route answers 404 for an unknown session and
    otherwise reports the session's own members; for a well-formed
    session over distinct field ids the number of recorded values it
    reports is the cursor, at most the total, and equal to it exactly
    when the session is complete. *)
Theorem form_state_progress (sid : string) (store : gmap string Session) :
  match formState sid store with
  | inl r => r = Routes.Status 404 "Session not found" /\ getSession sid store = None
  | inr st =>
      exists s,
        getSession sid store = Some s
        /\ st_formSchema st = formSchema s
        /\ st_filledFields st = filledFields s
        /\ st_total st = List.length (fields (formSchema s))
        /\ (WellFormed s -> List.NoDup (map id (fields (formSchema s))) ->
            st_filled st = currentFieldIndex s
            /\ st_filled st <= st_total st
            /\ (st_isComplete st = true <-> st_filled st = st_total st))
  end.
Proof.
  unfold formState. destruct (getSession sid store) as [s|]; [|auto].
  exists s. cbn [st_formSchema st_filledFields st_total st_filled st_isComplete].
  do 4 (split; [reflexivity|]).
  intros (Hne & Hle & Hc & Hdom) Hnd.
  rewrite (size_recorded s Hnd Hle Hdom). split; [reflexivity|].
  split; [exact Hle | exact Hc].
Qed.
